(** * A shallow embedding of the scraping, decoding and merging scripts

    Python strings are modelled as lists of Unicode code points ([pystr]).
    The parts of the Python standard library the scripts call
    ([urllib.parse], [re] replacement templates, the [unicode_escape]
    codec, [int()], [str.strip], [str.lower]) are written out following
    the CPython 3.11 sources.  The few facts that come from the Unicode
    database or from [ipaddress] are the fields of the class
    [PyTables]; everything on ASCII is concrete. *)

From Stdlib Require Import ZArith List String Ascii Bool Lia.
From Stdlib Require Import Sorting.Permutation Sorting.Sorted.
Import ListNotations.
Open Scope Z_scope.

Definition pystr := list Z.

Fixpoint of_string (s : string) : pystr :=
  match s with
  | EmptyString => []
  | String c t => Z.of_nat (nat_of_ascii c) :: of_string t
  end.

(** Data from the Unicode database and [ipaddress] that the library
    functions consult on non-ASCII input or on bracketed hosts. *)
Class PyTables := {
  u_lower : Z -> pystr;              (* str.lower of one non-ASCII code point *)
  u_isalnum : Z -> bool;             (* str.isalnum of one non-ASCII code point *)
  u_decimal : Z -> option Z;         (* decimal value of a non-ASCII digit *)
  u_name : list Z -> option Z;       (* unicodedata lookup used by \N{...} *)
  u_netloc_nfkc_ok : pystr -> bool;  (* _checknetloc on a non-ASCII netloc *)
  u_bracketed_ok : pystr -> bool     (* _check_bracketed_netloc *)
}.

(** Tables that are exact on ASCII and on netlocs without brackets. *)
#[export] Instance ascii_tables : PyTables := {|
  u_lower := fun c => [c];
  u_isalnum := fun _ => false;
  u_decimal := fun _ => None;
  u_name := fun _ => None;
  u_netloc_nfkc_ok := fun _ => true;
  u_bracketed_ok := fun _ => true
|}.

(** ** Outcomes of Python computations *)

Inductive pyexc := ValueError | ZeroDivisionError | UnicodeError
                 | ReError | TypeError | IndexError | CancelledError.

Inductive outcome (A : Type) :=
| Ret (a : A)
| Raise (e : pyexc)
| Diverge.
Arguments Ret {A} a.
Arguments Raise {A} e.
Arguments Diverge {A}.

Definition obind {A B} (m : outcome A) (f : A -> outcome B) : outcome B :=
  match m with
  | Ret a => f a
  | Raise e => Raise e
  | Diverge => Diverge
  end.

Notation "x <- m ;; k" := (obind m (fun x => k))
  (at level 61, m at next level, right associativity).

(** ** Strings *)

Section Strings.
Context `{PyTables}.

Definition is_nil {A} (l : list A) : bool :=
  match l with [] => true | _ => false end.

Fixpoint str_eqb (a b : pystr) : bool :=
  match a, b with
  | [], [] => true
  | x :: a', y :: b' => (x =? y) && str_eqb a' b'
  | _, _ => false
  end.

Fixpoint is_prefix (p s : pystr) : bool :=
  match p, s with
  | [], _ => true
  | x :: p', y :: s' => (x =? y) && is_prefix p' s'
  | _, [] => false
  end.

(** [str.find]: the index of the first occurrence. *)
Fixpoint find_from (needle hay : pystr) (i : nat) : option nat :=
  if is_prefix needle hay then Some i
  else match hay with
       | [] => None
       | _ :: t => find_from needle t (S i)
       end.

Definition py_find (needle hay : pystr) : option nat := find_from needle hay 0.

Definition contains (needle hay : pystr) : bool :=
  match py_find needle hay with Some _ => true | None => false end.

Definition mem_char (c : Z) (s : pystr) : bool := existsb (Z.eqb c) s.

(** [s.split(c, 1)] when [c in s]. *)
Fixpoint split_once (c : Z) (s : pystr) : option (pystr * pystr) :=
  match s with
  | [] => None
  | x :: t =>
      if x =? c then Some ([], t)
      else match split_once c t with
           | Some (a, b) => Some (x :: a, b)
           | None => None
           end
  end.

(** [s.split(c)] for a one-character separator. *)
Fixpoint split_char (c : Z) (s : pystr) : list pystr :=
  match s with
  | [] => [[]]
  | x :: t =>
      if x =? c then [] :: split_char c t
      else match split_char c t with
           | p :: ps => (x :: p) :: ps
           | [] => [[x]]
           end
  end.

Fixpoint join (sep : pystr) (l : list pystr) : pystr :=
  match l with
  | [] => []
  | [x] => x
  | x :: t => x ++ sep ++ join sep t
  end.

Fixpoint lstrip_by (p : Z -> bool) (s : pystr) : pystr :=
  match s with
  | c :: t => if p c then lstrip_by p t else s
  | [] => []
  end.

Definition rstrip_by (p : Z -> bool) (s : pystr) : pystr :=
  rev (lstrip_by p (rev s)).

Definition strip_by (p : Z -> bool) (s : pystr) : pystr :=
  rstrip_by p (lstrip_by p s).

(** [str.isspace] (Py_UNICODE_ISSPACE). *)
Definition py_isspace (c : Z) : bool :=
  ((9 <=? c) && (c <=? 13)) || ((28 <=? c) && (c <=? 32)) || (c =? 133)
  || (c =? 160) || (c =? 5760) || ((8192 <=? c) && (c <=? 8202))
  || (c =? 8232) || (c =? 8233) || (c =? 8239) || (c =? 8287) || (c =? 12288).

Definition py_strip (s : pystr) : pystr := strip_by py_isspace s.

Definition is_ascii_cp (c : Z) : bool := (0 <=? c) && (c <? 128).
Definition is_ascii_str (s : pystr) : bool := forallb is_ascii_cp s.
Definition is_ascii_upper (c : Z) : bool := (65 <=? c) && (c <=? 90).
Definition is_ascii_lower (c : Z) : bool := (97 <=? c) && (c <=? 122).
Definition is_ascii_alpha (c : Z) : bool := is_ascii_upper c || is_ascii_lower c.
Definition is_ascii_digit (c : Z) : bool := (48 <=? c) && (c <=? 57).

Definition ascii_lower (c : Z) : Z := if is_ascii_upper c then c + 32 else c.

Definition py_lower (s : pystr) : pystr :=
  flat_map (fun c => if is_ascii_cp c then [ascii_lower c] else u_lower c) s.

(** Code-point order on strings, as Python compares [str]. *)
Fixpoint str_ltb (a b : pystr) : bool :=
  match a, b with
  | [], [] => false
  | [], _ :: _ => true
  | _ :: _, [] => false
  | x :: a', y :: b' => (x <? y) || ((x =? y) && str_ltb a' b')
  end.

Definition str_leb (a b : pystr) : bool := str_ltb a b || str_eqb a b.

(** [sorted] with a stable insertion sort. *)
Fixpoint insert_by {A} (le : A -> A -> bool) (x : A) (l : list A) : list A :=
  match l with
  | [] => [x]
  | y :: t => if le x y then x :: y :: t else y :: insert_by le x t
  end.

Fixpoint sort_by {A} (le : A -> A -> bool) (l : list A) : list A :=
  match l with
  | [] => []
  | x :: t => insert_by le x (sort_by le t)
  end.

End Strings.

(** ** Codecs *)

Section Codecs.
Context `{PyTables}.

(** [str.encode('utf-8')] with errors='strict': lone surrogates fail. *)
Definition utf8_char (c : Z) : option (list Z) :=
  if c <? 0 then None
  else if c <? 128 then Some [c]
  else if c <? 2048 then Some [192 + c / 64; 128 + c mod 64]
  else if (55296 <=? c) && (c <=? 57343) then None
  else if c <? 65536 then
    Some [224 + c / 4096; 128 + (c / 64) mod 64; 128 + c mod 64]
  else if c <=? 1114111 then
    Some [240 + c / 262144; 128 + (c / 4096) mod 64;
          128 + (c / 64) mod 64; 128 + c mod 64]
  else None.

Fixpoint utf8_encode (s : pystr) : option (list Z) :=
  match s with
  | [] => Some []
  | c :: t =>
      match utf8_char c, utf8_encode t with
      | Some b, Some r => Some (b ++ r)
      | _, _ => None
      end
  end.

Definition in_range (lo hi b : Z) : bool := (lo <=? b) && (b <=? hi).
Definition cont_range := (128, 191).

(** Continuation-byte ranges that follow a lead byte, or [None] for a
    byte that cannot start a sequence. *)
Definition utf8_follow (b : Z) : option (list (Z * Z)) :=
  if in_range 194 223 b then Some [cont_range]
  else if b =? 224 then Some [(160, 191); cont_range]
  else if in_range 225 236 b || in_range 238 239 b then Some [cont_range; cont_range]
  else if b =? 237 then Some [(128, 159); cont_range]
  else if b =? 240 then Some [(144, 191); cont_range; cont_range]
  else if in_range 241 243 b then Some [cont_range; cont_range; cont_range]
  else if b =? 244 then Some [(128, 143); cont_range; cont_range]
  else None.

(** The longest prefix of [bs] matching the ranges, with its length. *)
Fixpoint utf8_take (rs : list (Z * Z)) (bs : list Z) : list Z * nat :=
  match rs, bs with
  | (lo, hi) :: rs', b :: bs' =>
      if in_range lo hi b then let '(t, n) := utf8_take rs' bs' in (b :: t, S n)
      else ([], O)
  | _, _ => ([], O)
  end.

Definition utf8_value (lead : Z) (conts : list Z) : Z :=
  let n := List.length conts in
  let lead_bits := if (n =? 1)%nat then lead - 192
                   else if (n =? 2)%nat then lead - 224 else lead - 240 in
  fold_left (fun acc b => acc * 64 + (b - 128)) conts lead_bits.

(** [bytes.decode('utf-8', 'replace')]: each maximal invalid subpart
    becomes one U+FFFD. *)
Fixpoint utf8_decode_replace (fuel : nat) (bs : list Z) : pystr :=
  match fuel with
  | O => []
  | S f =>
      match bs with
      | [] => []
      | b :: rest =>
          if b <? 128 then b :: utf8_decode_replace f rest
          else match utf8_follow b with
               | None => 65533 :: utf8_decode_replace f rest
               | Some rs =>
                   let '(taken, n) := utf8_take rs rest in
                   if (n =? List.length rs)%nat
                   then utf8_value b taken :: utf8_decode_replace f (skipn n rest)
                   else 65533 :: utf8_decode_replace f (skipn n rest)
               end
      end
  end.

Definition utf8_decode (bs : list Z) : pystr :=
  utf8_decode_replace (List.length bs) bs.

Definition hex_val (c : Z) : option Z :=
  if is_ascii_digit c then Some (c - 48)
  else if in_range 65 70 c then Some (c - 55)
  else if in_range 97 102 c then Some (c - 87)
  else None.

(** [unquote_to_bytes] on the pieces after the first '%'. *)
Definition unquote_item (item : list Z) : list Z :=
  match item with
  | h1 :: h2 :: rest =>
      match hex_val h1, hex_val h2 with
      | Some a, Some b => (a * 16 + b) :: rest
      | _, _ => 37 :: item
      end
  | _ => 37 :: item
  end.

Definition unquote_to_bytes (s : pystr) : list Z :=
  match utf8_encode s with
  | None => []
  | Some bs =>
      match split_char 37 bs with
      | [] => []
      | b0 :: items => b0 ++ flat_map unquote_item items
      end
  end.

(** Maximal runs of ASCII and of non-ASCII code points. *)
Fixpoint ascii_runs (s : pystr) : list (bool * pystr) :=
  match s with
  | [] => []
  | c :: t =>
      match ascii_runs t with
      | (b, r) :: rs =>
          if Bool.eqb b (is_ascii_cp c) then (b, c :: r) :: rs
          else (is_ascii_cp c, [c]) :: (b, r) :: rs
      | [] => [(is_ascii_cp c, [c])]
      end
  end.

(** [urllib.parse.unquote(s)] with encoding utf-8 and errors='replace'. *)
Definition unquote (s : pystr) : pystr :=
  if negb (mem_char 37 s) then s
  else flat_map (fun (ar : bool * pystr) => let '(asc, r) := ar in if asc then utf8_decode (unquote_to_bytes r) else r)
                (ascii_runs s).

Definition always_safe (b : Z) : bool :=
  is_ascii_alpha b || is_ascii_digit b || (b =? 95) || (b =? 46) || (b =? 45) || (b =? 126).

Definition hex_digit_upper (n : Z) : Z := if n <? 10 then 48 + n else 55 + n.

(** [quote_plus(s)] with safe='': an error when [s] does not encode. *)
Definition quote_plus (s : pystr) : option pystr :=
  match utf8_encode s with
  | None => None
  | Some bs =>
      Some (flat_map (fun b => if always_safe b then [b]
                               else if b =? 32 then [43]
                               else [37; hex_digit_upper (b / 16);
                                     hex_digit_upper (b mod 16)]) bs)
  end.

End Codecs.

(** ** urllib.parse *)

Section UrlLib.
Context `{PyTables}.

Definition s_ (s : string) : pystr := of_string s.

(** [parse_qsl(qs, keep_blank_values=True)]. *)
Definition parse_qsl_field (nv : pystr) : list (pystr * pystr) :=
  if is_nil nv then []
  else
    let '(name, value) := match split_once 61 nv with
                          | Some (n, v) => (n, v)
                          | None => (nv, [])
                          end in
    let plus_to_space := map (fun c => if c =? 43 then 32 else c) in
    [(unquote (plus_to_space name), unquote (plus_to_space value))].

Definition parse_qsl (qs : pystr) : list (pystr * pystr) :=
  if is_nil qs then [] else flat_map parse_qsl_field (split_char 38 qs).

(** [urlencode(pairs, doseq=True)] for pairs of strings. *)
Fixpoint urlencode (q : list (pystr * pystr)) : option (list pystr) :=
  match q with
  | [] => Some []
  | (k, v) :: t =>
      match quote_plus k, quote_plus v, urlencode t with
      | Some k', Some v', Some r => Some ((k' ++ [61] ++ v') :: r)
      | _, _, _ => None
      end
  end.

Definition urlencode_str (q : list (pystr * pystr)) : option pystr :=
  option_map (join [38]) (urlencode q).

Definition WHATWG_C0_CONTROL_OR_SPACE (c : Z) : bool := (0 <=? c) && (c <=? 32).

Definition scheme_chars (c : Z) : bool :=
  is_ascii_alpha c || is_ascii_digit c || (c =? 43) || (c =? 45) || (c =? 46).

Record SplitResult := {
  sr_scheme : pystr; sr_netloc : pystr; sr_path : pystr;
  sr_query : pystr; sr_fragment : pystr }.

(** [_splitnetloc(url, 2)]: up to the first of '/', '?', '#'. *)
Fixpoint split_netloc_rest (s : pystr) : pystr * pystr :=
  match s with
  | [] => ([], [])
  | c :: t =>
      if (c =? 47) || (c =? 63) || (c =? 35) then ([], s)
      else let '(a, b) := split_netloc_rest t in (c :: a, b)
  end.

(** [_checknetloc]. *)
Definition checknetloc (netloc : pystr) : bool :=
  is_nil netloc || is_ascii_str netloc || u_netloc_nfkc_ok netloc.

(** [urlsplit(url, scheme)]; [None] is the ValueError it raises. *)
Definition urlsplit_with (url : pystr) (default_scheme : pystr) : option SplitResult :=
  let url := filter (fun c => negb ((c =? 9) || (c =? 13) || (c =? 10)))
                    (lstrip_by WHATWG_C0_CONTROL_OR_SPACE url) in
  let default_scheme :=
    filter (fun c => negb ((c =? 9) || (c =? 13) || (c =? 10)))
           (strip_by WHATWG_C0_CONTROL_OR_SPACE default_scheme) in
  let '(scheme, url) :=
    match py_find [58] url with
    | Some i =>
        if (0 <? i)%nat
           && match url with c :: _ => is_ascii_alpha c | [] => false end
           && forallb scheme_chars (firstn i url)
        then (py_lower (firstn i url), skipn (S i) url)
        else (default_scheme, url)
    | None => (default_scheme, url)
    end in
  let '(netloc, url) :=
    if is_prefix [47; 47] url then split_netloc_rest (skipn 2 url) else ([], url) in
  let lb := mem_char 91 netloc in
  let rb := mem_char 93 netloc in
  if (lb && negb rb) || (rb && negb lb) then None
  else if lb && rb && negb (u_bracketed_ok netloc) then None
  else
    let '(url, fragment) := match split_once 35 url with
                            | Some (a, b) => (a, b) | None => (url, []) end in
    let '(url, query) := match split_once 63 url with
                         | Some (a, b) => (a, b) | None => (url, []) end in
    if negb (checknetloc netloc) then None
    else Some {| sr_scheme := scheme; sr_netloc := netloc; sr_path := url;
                 sr_query := query; sr_fragment := fragment |}.

Definition urlsplit (url : pystr) : option SplitResult := urlsplit_with url [].

(** The characters [urlsplit] removes anywhere in the URL. *)
Definition url_ctl (c : Z) : bool := (c =? 9) || (c =? 13) || (c =? 10).

Definition uses_netloc : list pystr :=
  map s_ [""; "ftp"; "http"; "gopher"; "nntp"; "telnet"; "imap"; "wais"; "file";
          "mms"; "https"; "shttp"; "snews"; "prospero"; "rtsp"; "rtspu"; "rsync";
          "svn"; "svn+ssh"; "sftp"; "nfs"; "git"; "git+ssh"; "ws"; "wss"]%string.

Definition uses_relative : list pystr :=
  map s_ [""; "ftp"; "http"; "gopher"; "nntp"; "imap"; "wais"; "file"; "https";
          "shttp"; "mms"; "prospero"; "rtsp"; "rtspu"; "sftp"; "svn"; "svn+ssh";
          "ws"; "wss"]%string.

Definition uses_params : list pystr :=
  map s_ [""; "ftp"; "hdl"; "prospero"; "http"; "imap"; "https"; "shttp"; "rtsp";
          "rtspu"; "sip"; "sips"; "mms"; "sftp"; "tel"]%string.

Definition str_in (s : pystr) (l : list pystr) : bool := existsb (str_eqb s) l.

(** [urlunsplit((scheme, netloc, url, query, fragment))]. *)
Definition urlunsplit (scheme netloc url query fragment : pystr) : pystr :=
  let url :=
    if negb (is_nil netloc)
       || (negb (is_nil scheme) && str_in scheme uses_netloc
           && negb (is_prefix [47; 47] url))
    then
      let url := if negb (is_nil url) && negb (is_prefix [47] url) then 47 :: url else url in
      [47; 47] ++ netloc ++ url
    else url in
  let url := if is_nil scheme then url else scheme ++ [58] ++ url in
  let url := if is_nil query then url else url ++ [63] ++ query in
  if is_nil fragment then url else url ++ [35] ++ fragment.

Definition pair_leb (x y : pystr * pystr) : bool :=
  str_ltb (fst x) (fst y) || (str_eqb (fst x) (fst y) && str_leb (snd x) (snd y)).

Definition drop_params : list pystr :=
  map s_ ["utm_source"; "utm_medium"; "utm_campaign"; "utm_term"; "utm_content";
          "gclid"; "fbclid"]%string.

(** The body of the [try] block of [normalize_url]; [None] is an
    exception, caught by the [except] clause. *)
Definition normalize_try (url : pystr) : option pystr :=
  match urlsplit url with
  | None => None
  | Some parts =>
      let scheme := py_lower (sr_scheme parts) in
      let netloc := py_lower (sr_netloc parts) in
      let q := filter (fun kv => negb (str_in (py_lower (fst kv)) drop_params))
                      (parse_qsl (sr_query parts)) in
      match urlencode_str (sort_by pair_leb q) with
      | None => None
      | Some query => Some (urlunsplit scheme netloc (sr_path parts) query [])
      end
  end.

(** [normalize_url(url)] of scripts/dupe_filter.py; [None] is Python's None. *)
Definition normalize_url (url : option pystr) : pystr :=
  match url with
  | None => []
  | Some u =>
      let u := py_strip u in
      if is_nil u then []
      else match normalize_try u with
           | Some r => r
           | None => u
           end
  end.

End UrlLib.

(** ** Python built-ins used by the decoder *)

Section Builtins.
Context `{PyTables}.

(** [int(s)] in base 10; [None] is the ValueError.  Whitespace and
    non-ASCII decimal digits are first mapped to ASCII, as CPython's
    _PyUnicode_TransformDecimalAndSpaceToASCII does. *)
Definition int_char (c : Z) : Z :=
  if py_isspace c then 32
  else if is_ascii_cp c then c
  else match u_decimal c with Some d => 48 + d | None => 63 end.

(** digit ('_'? digit)* : the digit values, or [None]. *)
Fixpoint int_digits (l : pystr) : option (list Z) :=
  match l with
  | [] => None
  | d :: t =>
      if is_ascii_digit d then
        match t with
        | [] => Some [d - 48]
        | 95 :: t' => option_map (cons (d - 48)) (int_digits t')
        | _ => option_map (cons (d - 48)) (int_digits t)
        end
      else None
  end.

Definition py_int (s : pystr) : option Z :=
  let t := strip_by (fun c => c =? 32) (map int_char s) in
  let '(sign, body) := match t with
                       | 43 :: r => (1, r)
                       | 45 :: r => (-1, r)
                       | _ => (1, t)
                       end in
  match int_digits body with
  | Some ds =>
      if (4300 <? Z.of_nat (List.length ds)) then None
      else Some (sign * fold_left (fun acc d => acc * 10 + d) ds 0)
  | None => None
  end.

Fixpoint dec_digits (fuel : nat) (z : Z) (acc : pystr) : pystr :=
  match fuel with
  | O => acc
  | S f => let acc' := (48 + z mod 10) :: acc in
           if z <? 10 then acc' else dec_digits f (z / 10) acc'
  end.

Definition size_fuel (z : Z) : nat := S (Pos.size_nat (Z.to_pos z)).

(** [str(z)] for an integer. *)
Definition py_str_int (z : Z) : pystr :=
  if z <? 0 then 45 :: dec_digits (size_fuel (- z)) (- z) []
  else dec_digits (size_fuel z) z [].

Definition is_octal (c : Z) : bool := in_range 48 55 c.

(** [bytes.decode('unicode_escape')] with errors='strict'. *)
Fixpoint hex_n (n : nat) (bs : list Z) (acc : Z) : option (Z * list Z) :=
  match n with
  | O => Some (acc, bs)
  | S m => match bs with
           | b :: t => match hex_val b with
                       | Some v => hex_n m t (acc * 16 + v)
                       | None => None
                       end
           | [] => None
           end
  end.

Fixpoint unicode_escape_decode (fuel : nat) (bs : list Z) : option pystr :=
  match fuel with
  | O => Some []
  | S f =>
  match bs with
  | [] => Some []
  | b :: rest =>
      if negb (b =? 92) then option_map (cons b) (unicode_escape_decode f rest)
      else match rest with
      | [] => None
      | c :: r =>
          let emit x r' := option_map (cons x) (unicode_escape_decode f r') in
          if c =? 10 then unicode_escape_decode f r
          else if (c =? 92) || (c =? 39) || (c =? 34) then emit c r
          else if c =? 98 then emit 8 r
          else if c =? 102 then emit 12 r
          else if c =? 116 then emit 9 r
          else if c =? 110 then emit 10 r
          else if c =? 114 then emit 13 r
          else if c =? 118 then emit 11 r
          else if c =? 97 then emit 7 r
          else if is_octal c then
            match r with
            | d1 :: r1 =>
                if is_octal d1 then
                  match r1 with
                  | d2 :: r2 =>
                      if is_octal d2
                      then emit (((c - 48) * 8 + (d1 - 48)) * 8 + (d2 - 48)) r2
                      else emit ((c - 48) * 8 + (d1 - 48)) r1
                  | [] => emit ((c - 48) * 8 + (d1 - 48)) r1
                  end
                else emit (c - 48) r
            | [] => emit (c - 48) r
            end
          else if (c =? 120) || (c =? 117) || (c =? 85) then
            let n := if c =? 120 then 2%nat else if c =? 117 then 4%nat else 8%nat in
            match hex_n n r 0 with
            | Some (v, r') => if 1114111 <? v then None else emit v r'
            | None => None
            end
          else if c =? 78 then
            match r with
            | 123 :: r1 =>
                match split_once 125 r1 with
                | Some (name, r2) =>
                    if is_nil name then None
                    else match u_name name with
                         | Some v => emit v r2
                         | None => None
                         end
                | None => None
                end
            | _ => None
            end
          else option_map (fun t => 92 :: c :: t) (unicode_escape_decode f r)
      end
  end
  end.

(** [unquote_js_string(s)] of scripts/missav.py; [None] is the
    UnicodeError raised by the encode or the decode. *)
Definition unquote_js_string (s : pystr) : option pystr :=
  let inner :=
    match s with
    | q :: (_ :: _) as t =>
        if ((q =? 39) || (q =? 34)) && (last t 0 =? q) then removelast t else s
    | _ => s
    end in
  match utf8_encode inner with
  | Some bs => unicode_escape_decode (List.length bs) bs
  | None => None
  end.

End Builtins.

(** ** re.sub with a whole-word literal pattern *)

Section ReSub.
Context `{PyTables}.

(** The tokens of sre's Tokenizer: one character, or a backslash and
    the character after it; [None] is "bad escape (end of pattern)". *)
Fixpoint re_tokens (s : pystr) : option (list pystr) :=
  match s with
  | [] => Some []
  | 92 :: c :: t => option_map (cons [92; c]) (re_tokens t)
  | [92] => None
  | c :: t => option_map (cons [c]) (re_tokens t)
  end.

Inductive tpiece := TLit (s : pystr) | TGroup0.

Definition tok_octal (t : pystr) : option Z :=
  match t with [c] => if is_octal c then Some (c - 48) else None | _ => None end.
Definition tok_digit (t : pystr) : option Z :=
  match t with [c] => if is_ascii_digit c then Some (c - 48) else None | _ => None end.

(** [Tokenizer.getuntil(">", ...)]: the name and the tokens after '>'. *)
Fixpoint getuntil_gt (toks : list pystr) (acc : pystr) : option (pystr * list pystr) :=
  match toks with
  | [] => None
  | t :: rest =>
      if str_eqb t [62] then (if is_nil acc then None else Some (acc, rest))
      else getuntil_gt rest (acc ++ t)
  end.

Definition re_escapes (c : Z) : option Z :=
  if c =? 97 then Some 7 else if c =? 98 then Some 8 else if c =? 102 then Some 12
  else if c =? 110 then Some 10 else if c =? 114 then Some 13
  else if c =? 116 then Some 9 else if c =? 118 then Some 11
  else if c =? 92 then Some 92 else None.

(** [sre_parse.parse_template] for a pattern without groups: only
    group 0 may be referenced; [None] is the re.error (or IndexError). *)
Fixpoint parse_template_toks (fuel : nat) (toks : list pystr) : option (list tpiece) :=
  match fuel with
  | O => Some []
  | S f =>
  let lit x rest := option_map (cons (TLit x)) (parse_template_toks f rest) in
  match toks with
  | [] => Some []
  | [92; c] :: rest =>
      if c =? 103 then
        match rest with
        | [60] :: rest1 =>
            match getuntil_gt rest1 [] with
            | Some (name, rest2) =>
                match py_int name with
                | Some 0 => option_map (cons TGroup0) (parse_template_toks f rest2)
                | _ => None
                end
            | None => None
            end
        | _ => None
        end
      else if c =? 48 then
        match rest with
        | t1 :: rest1 =>
            match tok_octal t1 with
            | Some o1 =>
                match rest1 with
                | t2 :: rest2 =>
                    match tok_octal t2 with
                    | Some o2 => lit [(o1 * 8 + o2) mod 256] rest2
                    | None => lit [o1] rest1
                    end
                | [] => lit [o1] rest1
                end
            | None => lit [0] rest
            end
        | [] => lit [0] rest
        end
      else if is_ascii_digit c then
        match rest with
        | t1 :: rest1 =>
            match tok_digit t1 with
            | Some d1 =>
                match rest1 with
                | t2 :: rest2 =>
                    match tok_octal t2 with
                    | Some o2 =>
                        if is_octal c && is_octal (d1 + 48) then
                          let v := ((c - 48) * 8 + d1) * 8 + o2 in
                          if 255 <? v then None else lit [v] rest2
                        else None
                    | None => None
                    end
                | [] => None
                end
            | None => None
            end
        | [] => None
        end
      else match re_escapes c with
           | Some v => lit [v] rest
           | None => if is_ascii_alpha c then None else lit [92; c] rest
           end
  | t :: rest => lit t rest
  end
  end.

Definition parse_template (repl : pystr) : option (list tpiece) :=
  match re_tokens repl with
  | Some toks => parse_template_toks (S (List.length toks)) toks
  | None => None
  end.

Definition expand_template (t : list tpiece) (matched : pystr) : pystr :=
  flat_map (fun p => match p with TLit s => s | TGroup0 => matched end) t.

(** Word characters of [\b] on a [str] pattern: alphanumerics and '_'. *)
Definition is_word (c : Z) : bool :=
  is_ascii_alpha c || is_ascii_digit c || (c =? 95)
  || (negb (is_ascii_cp c) && u_isalnum c).

Definition word_opt (c : option Z) : bool :=
  match c with Some x => is_word x | None => false end.

Definition at_boundary (before after : option Z) : bool :=
  xorb (word_opt before) (word_opt after).

(** The left-to-right scan of [re.sub(r"\b" + re.escape(key) + r"\b", ...)]
    for a non-empty [key], [rep] being the expanded replacement. *)
Fixpoint sub_scan (fuel : nat) (key rep : pystr) (before : option Z) (s : pystr) : pystr :=
  match fuel with
  | O => s
  | S f =>
      match s with
      | [] => []
      | c :: t =>
          if at_boundary before (Some c) && is_prefix key s
             && at_boundary (last (map Some key) None) (nth_error s (List.length key))
          then rep ++ sub_scan f key rep (last (map Some key) None) (skipn (List.length key) s)
          else c :: sub_scan f key rep (Some c) t
      end
  end.

Definition re_sub_word (key repl s : pystr) : outcome pystr :=
  let rep := if mem_char 92 repl then
               match parse_template repl with
               | Some t => Some (expand_template t key)
               | None => None
               end
             else Some repl in
  match rep with
  | Some r => Ret (sub_scan (List.length s) key r None s)
  | None => Raise ReError
  end.

End ReSub.

(** ** scripts/missav.py: decode_packed_eval *)

Section Decoder.
Context `{PyTables}.

(** The [while n > 0] loop of [int_to_base]; running out of fuel is the
    loop not terminating (only [base = 1] does that). *)
Fixpoint int_to_base_loop (fuel : nat) (n base : Z) (digits : list pystr) : outcome pystr :=
  if 0 <? n then
    match fuel with
    | O => Diverge
    | S f =>
        if base =? 0 then Raise ZeroDivisionError
        else
          let d := n mod base in
          let digit := if d <? 10 then Ret (py_str_int d)
                       else if 1114111 <? 97 + d - 10 then Raise ValueError
                       else Ret [97 + d - 10] in
          dg <- digit ;; int_to_base_loop f (n / base) base (dg :: digits)
    end
  else Ret (List.concat digits).

Definition int_to_base (n base : Z) : outcome pystr :=
  if n =? 0 then Ret [48]
  else int_to_base_loop (size_fuel n) n base [].

(** [re.match] of the dictionary pattern
    [('(?:\\'|[^'])*'|"(?:\\"|[^"])*")\.split\('\\|'\)], a top-level
    alternation: the quoted group followed by [.split('\], or [')]. *)
Inductive kmatch := KMGroup (g : pystr) | KMNoGroup | KMNone.

Definition split_tail : pystr := s_ ".split('\".

(** The greedy [(?:\\q|[^q])*] followed by [q] and [split_tail], tried
    in backtracking order; the result is the body of the group. *)
Fixpoint k_star (q : Z) (l : pystr) : option pystr :=
  match l with
  | [] => None
  | c :: t =>
      let alt_esc := match t with
                     | c2 :: t' => if (c =? 92) && (c2 =? q)
                                   then option_map (fun b => c :: c2 :: b) (k_star q t')
                                   else None
                     | [] => None
                     end in
      match alt_esc with
      | Some b => Some b
      | None =>
          let alt_other := if negb (c =? q) then option_map (cons c) (k_star q t) else None in
          match alt_other with
          | Some b => Some b
          | None => if (c =? q) && is_prefix split_tail t then Some [] else None
          end
      end
  end.

Definition k_regex_match (s : pystr) : kmatch :=
  let group :=
    match s with
    | q :: t => if (q =? 39) || (q =? 34)
                then option_map (fun b => q :: b ++ [q]) (k_star q t) else None
    | [] => None
    end in
  match group with
  | Some g => KMGroup g
  | None => if is_prefix [39; 41] s then KMNoGroup else KMNone
  end.

(** The first loop: parenthesis depth from just after the opener. *)
Fixpoint depth_scan (l : pystr) (depth : Z) (i : nat) : Z * nat :=
  match l with
  | [] => (depth, i)
  | ch :: t =>
      if 0 <? depth then
        depth_scan t (if ch =? 40 then depth + 1 else if ch =? 41 then depth - 1 else depth) (S i)
      else (depth, i)
  end.

(** The quote- and parenthesis-aware splitter on top-level commas. *)
Fixpoint split_args_loop (l : pystr) (parts : list pystr) (cur : pystr)
    (in_sq in_dq esc : bool) (pdepth : Z) : list pystr :=
  match l with
  | [] => if is_nil cur then parts else parts ++ [py_strip (rev cur)]
  | ch :: t =>
      if esc then split_args_loop t parts (ch :: cur) in_sq in_dq false pdepth
      else if ch =? 92 then split_args_loop t parts (ch :: cur) in_sq in_dq true pdepth
      else if (ch =? 39) && negb in_dq then
        split_args_loop t parts (ch :: cur) (negb in_sq) in_dq esc pdepth
      else if (ch =? 34) && negb in_sq then
        split_args_loop t parts (ch :: cur) in_sq (negb in_dq) esc pdepth
      else if (ch =? 40) && negb in_sq && negb in_dq then
        split_args_loop t parts (ch :: cur) in_sq in_dq esc (pdepth + 1)
      else if (ch =? 41) && negb in_sq && negb in_dq then
        split_args_loop t parts (ch :: cur) in_sq in_dq esc (pdepth - 1)
      else if (ch =? 44) && negb in_sq && negb in_dq && (pdepth =? 0) then
        split_args_loop t (parts ++ [py_strip (rev cur)]) [] in_sq in_dq esc pdepth
      else split_args_loop t parts (ch :: cur) in_sq in_dq esc pdepth
  end.

Definition split_args (args_str : pystr) : list pystr :=
  split_args_loop args_str [] [] false false false 0.

Definition window : nat := Z.to_nat 20000.

Definition start_marker : pystr := s_ "eval(function(p,a,c,k,e,d)".
Definition args_marker : pystr := s_ "return p}(".

(** The text of the call's arguments, up to the matching ')' within
    the 20000-character window, when there is one. *)
Definition packed_args_str (payload : pystr) : option pystr :=
  match py_find start_marker payload with
  | None => None
  | Some start =>
      let chunk := firstn window (skipn start payload) in
      let start_args :=
        match py_find args_marker chunk with
        | Some idx => Some (idx + List.length args_marker)%nat
        | None => match py_find [41; 40] chunk with
                  | Some idx => Some (idx + 2)%nat
                  | None => None
                  end
        end in
      match start_args with
      | None => None
      | Some sa =>
          let '(depth, i) := depth_scan (skipn sa chunk) 1 sa in
          if negb (depth =? 0) then None
          else Some (firstn (i - 1 - sa) (skipn sa chunk))
      end
  end.

(** The four fields the decoder needs: payload part, base, count and
    dictionary part, when the argument list has them. *)
Definition packed_fields (payload : pystr) : option (pystr * Z * Z * pystr) :=
  match packed_args_str payload with
  | None => None
  | Some args_str =>
      let parts := split_args args_str in
      if (List.length parts <? 4)%nat then None
      else match py_int (nth 1 parts []), py_int (nth 2 parts []) with
           | Some a, Some c => Some (nth 0 parts [], a, c, nth 3 parts [])
           | _, _ => None
           end
  end.

Definition before_split (s : pystr) : pystr :=
  match py_find (s_ ".split") s with Some i => firstn i s | None => s end.

Definition dict_string (k_part : pystr) : outcome pystr :=
  match k_regex_match k_part with
  | KMGroup g => match unquote_js_string g with Some s => Ret s | None => Raise UnicodeError end
  | KMNoGroup => Raise TypeError
  | KMNone =>
      match unquote_js_string (py_strip (before_split k_part)) with
      | Some s => Ret s
      | None => Raise UnicodeError
      end
  end.

Definition payload_text (p_part : pystr) : pystr :=
  match unquote_js_string p_part with
  | Some p => p
  | None => strip_by (fun c => (c =? 39) || (c =? 34)) p_part
  end.

Definition dict_value (k : list pystr) (n : nat) (key : pystr) : pystr :=
  if (n <? List.length k)%nat && negb (is_nil (nth n k [])) then nth n k [] else key.

(** [for n in range(c - 1, -1, -1)]: [cnt] indices are left. *)
Fixpoint subst_down (cnt : nat) (a : Z) (k : list pystr) (decoded : pystr) : outcome pystr :=
  match cnt with
  | O => Ret decoded
  | S n =>
      key <- int_to_base (Z.of_nat n) a ;;
      decoded' <- re_sub_word key (dict_value k n key) decoded ;;
      subst_down n a k decoded'
  end.

Definition decode_packed_eval (payload : pystr) : outcome (option pystr) :=
  match packed_fields payload with
  | None => Ret None
  | Some (p_part, a, c, k_part) =>
      k_string <- dict_string k_part ;;
      let k := split_char 124 k_string in
      decoded <- subst_down (Z.to_nat c) a k (payload_text p_part) ;;
      Ret (Some decoded)
  end.

End Decoder.

(** ** scripts/dupe_filter.py: merge_csvs *)

Section Merge.
Context `{PyTables}.

(** [datetime.fromtimestamp(mtime).strftime("%Y-%m-%d %H:%M:%S")],
    which depends on the local time zone. *)
Variable fmt_mtime : Z -> pystr.

(** A row of [csv.DictReader]: field name to value; a short row gives
    [None] (the reader's restval) for its missing fields. *)
Definition Row := list (pystr * option pystr).

(** A snapshot file as the reader sees it: name, modification time,
    header ([reader.fieldnames], empty for an empty file) and rows. *)
Record CsvFile := {
  csv_name : pystr; csv_mtime : Z; csv_fieldnames : list pystr; csv_rows : list Row }.

Definition DEDUP_COL : pystr := s_ "page_url".
Definition OUTPUT_BASENAME : pystr := s_ "combined.csv".

Fixpoint assoc_find {A} (k : pystr) (l : list (pystr * A)) : option A :=
  match l with
  | [] => None
  | (k', v) :: t => if str_eqb k k' then Some v else assoc_find k t
  end.

Fixpoint assoc_set {A} (k : pystr) (v : A) (l : list (pystr * A)) : list (pystr * A) :=
  match l with
  | [] => []
  | (k', v') :: t => if str_eqb k k' then (k', v) :: t else (k', v') :: assoc_set k v t
  end.

(** [row.get(col, "")]. *)
Definition row_get (row : Row) (col : pystr) : option pystr :=
  match assoc_find col row with Some v => v | None => Some [] end.

Definition ends_with (suffix s : pystr) : bool := is_prefix (rev suffix) (rev s).

(** [list_csv_files()] over the directory listing, newest first. *)
Definition list_csv_files (dir : list CsvFile) : list CsvFile :=
  sort_by (fun x y => csv_mtime y <=? csv_mtime x)
    (filter (fun f => ends_with (s_ ".csv") (py_lower (csv_name f))
                      && negb (str_eqb (csv_name f) OUTPUT_BASENAME)) dir).

Definition Entry := (Z * pystr * Row)%type.

Record MergeState := {
  ms_columns : list pystr;
  ms_seen : list (pystr * Entry);
  ms_total : Z;
  ms_skipped : Z;
  ms_dups : Z }.

Definition merge_init : MergeState :=
  {| ms_columns := []; ms_seen := []; ms_total := 0; ms_skipped := 0; ms_dups := 0 |}.

(** One iteration of [for row in reader]. *)
Definition merge_row (mtime : Z) (fname : pystr) (st : MergeState) (row : Row) : MergeState :=
  let norm := normalize_url (row_get row DEDUP_COL) in
  if is_nil norm then
    {| ms_columns := ms_columns st; ms_seen := ms_seen st; ms_total := ms_total st + 1;
       ms_skipped := ms_skipped st + 1; ms_dups := ms_dups st |}
  else
    match assoc_find norm (ms_seen st) with
    | Some (prev_mtime, _, _) =>
        {| ms_columns := ms_columns st;
           ms_seen := if prev_mtime <? mtime
                      then assoc_set norm (mtime, fname, row) (ms_seen st)
                      else ms_seen st;
           ms_total := ms_total st + 1; ms_skipped := ms_skipped st;
           ms_dups := ms_dups st + 1 |}
    | None =>
        {| ms_columns := ms_columns st;
           ms_seen := ms_seen st ++ [(norm, (mtime, fname, row))];
           ms_total := ms_total st + 1; ms_skipped := ms_skipped st;
           ms_dups := ms_dups st |}
    end.

Definition add_columns (cols new : list pystr) : list pystr :=
  fold_left (fun acc c => if str_in c acc then acc else acc ++ [c]) new cols.

(** One iteration of [for fname in csv_files]. *)
Definition merge_file (st : MergeState) (f : CsvFile) : MergeState :=
  if is_nil (csv_fieldnames f) then st
  else
    let st := {| ms_columns := add_columns (ms_columns st) (csv_fieldnames f);
                 ms_seen := ms_seen st; ms_total := ms_total st;
                 ms_skipped := ms_skipped st; ms_dups := ms_dups st |} in
    if negb (str_in DEDUP_COL (csv_fieldnames f)) then st
    else fold_left (merge_row (csv_mtime f) (csv_name f)) (csv_rows f) st.

Definition merge_scan (files : list CsvFile) : MergeState :=
  fold_left merge_file files merge_init.

Definition entry_mtime (kv : pystr * Entry) : Z :=
  let '(_, (m, _, _)) := kv in m.

(** [sorted(seen.items(), key=mtime, reverse=True)]. *)
Definition merge_items (dir : list CsvFile) : list (pystr * Entry) :=
  sort_by (fun x y => entry_mtime y <=? entry_mtime x)
          (ms_seen (merge_scan (list_csv_files dir))).

Definition extras : list pystr :=
  map s_ ["normalized_page_url"; "source_file"; "source_file_mtime"]%string.

Definition out_columns (all_columns : list pystr) : list pystr :=
  fold_left (fun acc c => if str_in c acc then acc else acc ++ [c]) extras all_columns.

(** The row [writer.writerow(out_row)] writes, in the writer's column
    order ([None] is written as an empty field). *)
Definition out_row (all_columns : list pystr) (item : pystr * Entry) : list (pystr * option pystr) :=
  let '(norm, (mtime, fname, row)) := item in
  map (fun col =>
         if str_eqb col (nth 0 extras []) then (col, Some norm)
         else if str_eqb col (nth 1 extras []) then (col, Some fname)
         else if str_eqb col (nth 2 extras []) then (col, Some (fmt_mtime mtime))
         else (col, row_get row col))
      (out_columns all_columns).

Record MergeOutput := {
  mo_header : list pystr;
  mo_rows : list (list (pystr * option pystr));
  mo_total_rows : Z;
  mo_unique : Z;
  mo_duplicates : Z;
  mo_skipped : Z }.

(** [merge_csvs()]: [None] when there is no CSV file (nothing written). *)
Definition merge_csvs (dir : list CsvFile) : option MergeOutput :=
  let files := list_csv_files dir in
  if is_nil files then None
  else
    let st := merge_scan files in
    let items := sort_by (fun x y => entry_mtime y <=? entry_mtime x) (ms_seen st) in
    Some {| mo_header := out_columns (ms_columns st);
            mo_rows := map (out_row (ms_columns st)) items;
            mo_total_rows := ms_total st;
            mo_unique := Z.of_nat (List.length (ms_seen st));
            mo_duplicates := ms_dups st;
            mo_skipped := ms_skipped st |}.

End Merge.

(** ** Fetching with retries (scripts/missav.py and scripts/scraper.py)

    The network is an environment: what each attempt's request produces,
    and whether the task is cancelled while it sleeps between attempts.
    [CancelledError] derives from [BaseException], so [except Exception]
    does not catch it. *)

(** What one [session.get(url)] produces: a response, an [Exception]
    (timeouts, connection errors, ...), or the task's cancellation. *)
Inductive aio_event :=
| AioResp (status : Z) (text : pystr)
| AioExc
| AioCancel.

(** What one [crawler.arun(url)] produces: a result object (or None),
    an [Exception], or the task's cancellation. *)
Inductive crawl_event :=
| CrawlRes (success : bool) (html : option pystr)
| CrawlNone
| CrawlExc
| CrawlCancel.

Definition truthy (s : option pystr) : bool :=
  match s with Some (_ :: _) => true | _ => false end.

Section Fetch.
Context `{PyTables}.

(** [Fetcher.fetch] of missav.py; [use_crawler] is [self.crawler is not None]. *)
Definition fetcher_fetch (use_crawler : bool) (ae : aio_event) (ce : crawl_event)
  : outcome (option pystr) :=
  if use_crawler then
    match ce with
    | CrawlRes success html =>
        if negb success then Ret None
        else Ret (Some (match html with Some h => h | None => [] end))
    | CrawlNone => Ret None
    | CrawlExc => Ret None
    | CrawlCancel => Raise CancelledError
    end
  else
    match ae with
    | AioResp status text => if negb (status =? 200) then Ret None else Ret (Some text)
    | AioExc => Ret None
    | AioCancel => Raise CancelledError
    end.

(** [fetch_with_retries] of missav.py, from attempt [attempt] on;
    [fuel] is the number of attempts left. *)
Fixpoint missav_retry_loop (use_crawler : bool) (aio : nat -> aio_event)
    (crawl : nat -> crawl_event) (sleep_cancelled : nat -> bool)
    (retries : Z) (fuel attempt : nat) : outcome (option pystr) :=
  match fuel with
  | O => Ret None
  | S fuel' =>
      html <- fetcher_fetch use_crawler (aio attempt) (crawl attempt) ;;
      if truthy html then Ret html
      else if Z.of_nat attempt <? retries then
        if sleep_cancelled attempt then Raise CancelledError
        else missav_retry_loop use_crawler aio crawl sleep_cancelled retries fuel' (S attempt)
      else missav_retry_loop use_crawler aio crawl sleep_cancelled retries fuel' (S attempt)
  end.

Definition missav_fetch_with_retries (use_crawler : bool) (aio : nat -> aio_event)
    (crawl : nat -> crawl_event) (sleep_cancelled : nat -> bool) (retries : Z)
  : outcome (option pystr) :=
  missav_retry_loop use_crawler aio crawl sleep_cancelled retries
                    (Z.to_nat (retries + 1)) 0.

Definition RETRIES : Z := 3.

(** [fetch_aiohttp] of scraper.py. *)
Definition fetch_aiohttp (ae : aio_event) : outcome (option pystr) :=
  match ae with
  | AioResp status text =>
      if negb (status =? 200) then Ret None
      else if contains (s_ "cf-browser-verification") (py_lower text) then Ret None
      else Ret (Some text)
  | AioExc => Ret None
  | AioCancel => Raise CancelledError
  end.

(** [fetch_crawl4ai] of scraper.py. *)
Definition fetch_crawl4ai (ce : crawl_event) : outcome (option pystr) :=
  match ce with
  | CrawlRes _ html => if truthy html then Ret html else Ret None
  | CrawlNone => Ret None
  | CrawlExc => Ret None
  | CrawlCancel => Raise CancelledError
  end.

Fixpoint scraper_retry_loop (aio : nat -> aio_event) (fallback : crawl_event)
    (sleep_cancelled : nat -> bool) (fuel attempt : nat) : outcome (option pystr) :=
  match fuel with
  | O => Ret None
  | S fuel' =>
      html <- fetch_aiohttp (aio attempt) ;;
      if truthy html then Ret html
      else if Z.of_nat attempt =? RETRIES then fetch_crawl4ai fallback
      else if sleep_cancelled attempt then Raise CancelledError
      else scraper_retry_loop aio fallback sleep_cancelled fuel' (S attempt)
  end.

(** [fetch_with_retries] of scraper.py. *)
Definition scraper_fetch_with_retries (aio : nat -> aio_event) (fallback : crawl_event)
    (sleep_cancelled : nat -> bool) : outcome (option pystr) :=
  scraper_retry_loop aio fallback sleep_cancelled (Z.to_nat (RETRIES + 1)) 0.

(** The outcomes a fetch may have: content or not, or the task's
    cancellation. *)
Definition fetch_ok (o : outcome (option pystr)) : Prop :=
  o = Raise CancelledError \/ exists h, o = Ret h.

End Fetch.

(** ** urljoin and the listing crawler (scripts/missav.py) *)

Section Join.
Context `{PyTables}.

Record ParseResult := {
  pr_scheme : pystr; pr_netloc : pystr; pr_path : pystr;
  pr_params : pystr; pr_query : pystr; pr_fragment : pystr }.

(** [str.rfind] of one character. *)
Fixpoint rfind_char_from (c : Z) (s : pystr) (i : nat) (best : option nat) : option nat :=
  match s with
  | [] => best
  | x :: t => rfind_char_from c t (S i) (if x =? c then Some i else best)
  end.

Definition rfind_char (c : Z) (s : pystr) : option nat := rfind_char_from c s 0 None.

(** [_splitparams(url)]. *)
Definition split_params (url : pystr) : pystr * pystr :=
  if mem_char 47 url then
    let r := match rfind_char 47 url with Some r => r | None => O end in
    match find_from [59] (skipn r url) r with
    | Some i => (firstn i url, skipn (S i) url)
    | None => (url, [])
    end
  else
    match py_find [59] url with
    | Some i => (firstn i url, skipn (S i) url)
    | None => (removelast url, url)
    end.

(** [urlparse(url, scheme)]; [None] is a ValueError. *)
Definition urlparse (url scheme : pystr) : option ParseResult :=
  match urlsplit_with url scheme with
  | None => None
  | Some sr =>
      let '(path, params) :=
        if str_in (sr_scheme sr) uses_params && mem_char 59 (sr_path sr)
        then split_params (sr_path sr) else (sr_path sr, []) in
      Some {| pr_scheme := sr_scheme sr; pr_netloc := sr_netloc sr; pr_path := path;
              pr_params := params; pr_query := sr_query sr;
              pr_fragment := sr_fragment sr |}
  end.

Definition urlunparse (scheme netloc url params query fragment : pystr) : pystr :=
  let url := if is_nil params then url else url ++ [59] ++ params in
  urlunsplit scheme netloc url query fragment.

Definition last_str (l : list pystr) : pystr := last l [].

(** [segments[1:-1] = filter(None, segments[1:-1])]. *)
Definition filter_inner (segs : list pystr) : list pystr :=
  match segs with
  | [] => []
  | [x] => [x]
  | x :: rest => x :: filter (fun s => negb (is_nil s)) (removelast rest) ++ [last_str rest]
  end.

Definition resolve_seg (resolved : list pystr) (seg : pystr) : list pystr :=
  if str_eqb seg (s_ "..") then removelast resolved
  else if str_eqb seg (s_ ".") then resolved
  else resolved ++ [seg].

(** [urljoin(base, url)]; [None] is a ValueError. *)
Definition urljoin (base url : pystr) : option pystr :=
  if is_nil base then Some url
  else if is_nil url then Some base
  else
    match urlparse base [] with
    | None => None
    | Some b =>
    match urlparse url (pr_scheme b) with
    | None => None
    | Some u =>
      let scheme := pr_scheme u in
      if negb (str_eqb scheme (pr_scheme b)) || negb (str_in scheme uses_relative)
      then Some url
      else if str_in scheme uses_netloc && negb (is_nil (pr_netloc u)) then
        Some (urlunparse scheme (pr_netloc u) (pr_path u) (pr_params u)
                         (pr_query u) (pr_fragment u))
      else
        let netloc := if str_in scheme uses_netloc then pr_netloc b else pr_netloc u in
        let path := pr_path u in
        if is_nil path && is_nil (pr_params u) then
          Some (urlunparse scheme netloc (pr_path b) (pr_params b)
                  (if is_nil (pr_query u) then pr_query b else pr_query u)
                  (pr_fragment u))
        else
          let base_parts := split_char 47 (pr_path b) in
          let base_parts := if is_nil (last_str base_parts) then base_parts
                            else removelast base_parts in
          let segments := if is_prefix [47] path then split_char 47 path
                          else filter_inner (base_parts ++ split_char 47 path) in
          let resolved := fold_left resolve_seg segments [] in
          let resolved := if str_eqb (last_str segments) (s_ ".")
                             || str_eqb (last_str segments) (s_ "..")
                          then resolved ++ [[]] else resolved in
          let rpath := join [47] resolved in
          Some (urlunparse scheme netloc (if is_nil rpath then [47] else rpath)
                           (pr_params u) (pr_query u) (pr_fragment u))
    end
    end.

(** The parsed document, as BeautifulSoup presents it: for each
    [div.thumbnail] card the [href] of its first [a[href]] (None when the
    card has no such link), and the stripped [href] of the first link
    [find_next_page_url] selects. *)
Variable thumbnail_hrefs : pystr -> list (option pystr).
Variable next_href : pystr -> option pystr.

(** A Python [set] of strings, built by [add] in order. *)
Definition set_add (s : list pystr) (x : pystr) : list pystr :=
  if str_in x s then s else s ++ [x].

Definition sorted_set (s : list pystr) : list pystr := sort_by str_leb s.

Definition en_marker : pystr := s_ "/en/".

(** [extract_posts(html)]. *)
Definition extract_posts (html : pystr) : list pystr :=
  let posts :=
    fold_left (fun posts card =>
                 match card with
                 | None => posts
                 | Some href =>
                     let href := py_strip href in
                     if is_nil href then posts
                     else if contains en_marker href then set_add posts href
                     else posts
                 end) (thumbnail_hrefs html) [] in
  sorted_set posts.

(** [find_next_page_url(html, base_url)]. *)
Definition find_next_page_url (html base_url : pystr) : outcome (option pystr) :=
  match next_href html with
  | None => Ret None
  | Some h => match urljoin base_url h with
              | Some u => Ret (Some u)
              | None => Raise ValueError
              end
  end.

(** [for p in posts: all_posts.add(urljoin(url, p))]. *)
Fixpoint add_joined (url : pystr) (posts all_posts : list pystr) : outcome (list pystr) :=
  match posts with
  | [] => Ret all_posts
  | p :: ps => match urljoin url p with
               | Some j => add_joined url ps (set_add all_posts j)
               | None => Raise ValueError
               end
  end.

(** The [while] loop of [crawl_listing_posts]; [fetch] is
    [fetch_with_retries(fetcher, url, retries=3)]. *)
Fixpoint crawl_loop (fetch : pystr -> outcome (option pystr)) (max_pages : Z)
    (fuel : nat) (all_posts seen_pages : list pystr) (url : option pystr)
    (page_num : Z) : outcome (list pystr) :=
  match fuel with
  | O => Ret all_posts
  | S fuel' =>
      match url with
      | Some u =>
          if truthy url && negb (str_in u seen_pages) && (page_num <? max_pages) then
            let seen_pages := set_add seen_pages u in
            html <- fetch u ;;
            match html with
            | Some h =>
                if is_nil h then Ret all_posts
                else
                  all_posts <- add_joined u (extract_posts h) all_posts ;;
                  next <- find_next_page_url h u ;;
                  crawl_loop fetch max_pages fuel' all_posts seen_pages next (page_num + 1)
            | None => Ret all_posts
            end
          else Ret all_posts
      | None => Ret all_posts
      end
  end.

(** [crawl_listing_posts(start_url, fetcher, max_pages)]. *)
Definition crawl_listing_posts (fetch : pystr -> outcome (option pystr))
    (start_url : pystr) (max_pages : Z) : outcome (list pystr) :=
  all_posts <- crawl_loop fetch max_pages (Z.to_nat max_pages) [] [] (Some start_url) 0 ;;
  Ret (sorted_set all_posts).

End Join.

(** ** Reference definitions used in the statements *)

Section Reference.
Context `{PyTables}.

(** The digit of value [d] as the specification describes it: '0'-'9',
    then lowercase letters from 'a'. *)
Definition spec_digit (d : Z) : Z := if d <? 10 then 48 + d else 97 + (d - 10).

Fixpoint base_repr (fuel : nat) (n a : Z) : pystr :=
  match fuel with
  | O => []
  | S f => if n <? a then [spec_digit n]
           else base_repr f (n / a) a ++ [spec_digit (n mod a)]
  end.

(** [n] written in base [a]. *)
Definition spec_key (n a : Z) : pystr := base_repr (S (Z.to_nat n)) n a.

(** Every occurrence of [key] that is neither preceded nor followed by
    a word character, replaced by [val], left to right; [prev] is the
    character before [s] in the text. *)
Fixpoint replace_whole_words (fuel : nat) (key val : pystr) (prev : option Z) (s : pystr) : pystr :=
  match fuel with
  | O => s
  | S f =>
      match s with
      | [] => []
      | c :: t =>
          if negb (word_opt prev) && is_prefix key s
             && negb (word_opt (nth_error s (List.length key)))
          then val ++ replace_whole_words f key val (last (map Some key) None)
                                          (skipn (List.length key) s)
          else c :: replace_whole_words f key val (Some c) t
      end
  end.

(** The substitution as the specification describes it: [n] from
    [cnt - 1] down to [0]. *)
Fixpoint spec_substitute (cnt : nat) (a : Z) (k : list pystr) (text : pystr) : pystr :=
  match cnt with
  | O => text
  | S n =>
      let key := spec_key (Z.of_nat n) a in
      let val := match nth_error k n with
                 | Some v => if is_nil v then key else v
                 | None => key
                 end in
      spec_substitute n a k (replace_whole_words (List.length text) key val None text)
  end.

(** The rows [merge_csvs] reads, in reading order, with the snapshot
    they come from: only files with a header that has [page_url]. *)
Definition file_events (f : CsvFile) : list Entry :=
  if negb (is_nil (csv_fieldnames f)) && str_in DEDUP_COL (csv_fieldnames f)
  then map (fun r => (csv_mtime f, csv_name f, r)) (csv_rows f) else [].

Definition merge_events (dir : list CsvFile) : list Entry :=
  flat_map file_events (list_csv_files dir).

Definition entry_key (e : Entry) : pystr :=
  let '(_, _, row) := e in normalize_url (row_get row DEDUP_COL).

Definition entry_time (e : Entry) : Z := let '(m, _, _) := e in m.

(** One row of the merge loop, given with its snapshot. *)
Definition merge_entry (st : MergeState) (e : Entry) : MergeState :=
  let '(m, f, r) := e in merge_row m f st r.

(** The part of the merge state that the rows determine. *)
Definition merge_core (st : MergeState) : list (pystr * Entry) * Z * Z * Z :=
  (ms_seen st, ms_total st, ms_skipped st, ms_dups st).

(** The rows of snapshots whose normalized page URL is [k]. *)
Definition occurrences (dir : list CsvFile) (k : pystr) : list Entry :=
  filter (fun e => str_eqb (entry_key e) k) (merge_events dir).

(** Distinct strings in order of first appearance. *)
Definition str_dedup (l : list pystr) : list pystr :=
  fold_left (fun acc x => if str_in x acc then acc else acc ++ [x]) l [].

(** The distinct usable keys, in order of first appearance. *)
Definition usable_keys (dir : list CsvFile) : list pystr :=
  str_dedup (filter (fun k => negb (is_nil k)) (map entry_key (merge_events dir))).

Definition count_unusable (dir : list CsvFile) : Z :=
  Z.of_nat (List.length (filter (fun e => is_nil (entry_key e)) (merge_events dir))).

Definition out_field (name : string) (r : list (pystr * option pystr)) : option (option pystr) :=
  assoc_find (s_ name) r.

(** Order of two elements in a list. *)
Definition before {A} (l : list A) (x y : A) : Prop :=
  exists l1 l2 l3, l = l1 ++ x :: l2 ++ y :: l3.

(** A URL is absolute when [urlsplit] finds a scheme in it. *)
Definition is_absolute (u : pystr) : bool :=
  match urlsplit u with Some sr => negb (is_nil (sr_scheme sr)) | None => false end.

(** A member of the crawl's result: an extracted post of a fetched
    listing page, joined with the page's URL. *)
Definition crawled_post (thumbnail_hrefs : pystr -> list (option pystr))
    (fetch : pystr -> outcome (option pystr)) (x : pystr) : Prop :=
  exists u h p, fetch u = Ret (Some h) /\ In p (extract_posts thumbnail_hrefs h) /\
                urljoin u p = Some x.

End Reference.

(** ** Labels of media references *)

Section Labels.
Context `{PyTables}.

(** Known resolution digit groups, best quality first. *)
Variable resolutions : list pystr.
(** The label shown for a digit group (the specification's example
    shows "720p" for "720"). *)
Variable res_label : pystr -> pystr.
(** "unknown" or "playlist". *)
Variable default_label : pystr.

(** Modelled from the spec: the code that labels extracted URLs is not
    part of the sources (missav.py writes bare URLs, and the build
    scripts only read the [quality] and [source] columns).  Section 4.4
    of the specification: the quality label comes from the first known
    resolution digit group, in descending quality order, that occurs in
    the URL, with a default label otherwise. *)
Definition quality_label (u : pystr) : pystr :=
  match find (fun r => contains r u) resolutions with
  | Some r => res_label r
  | None => default_label
  end.

(** Modelled from the spec: the source label is the URL's host,
    lowercased, read as [urlsplit(url).netloc.lower()] as
    build_sitemap.py does. *)
Definition source_label (u : pystr) : option pystr :=
  option_map (fun sr => py_lower (sr_netloc sr)) (urlsplit u).

(** Modelled from the spec: a surviving URL with its two labels. *)
Definition media_reference (u : pystr) : pystr * pystr * option pystr :=
  (u, quality_label u, source_label u).

End Labels.

(** ** Reading keys and arguments back *)

Section ReadBack.

(** [int(key, a)] for a key of digits and lowercase letters. *)
Definition key_value (a : Z) (key : pystr) : Z :=
  fold_left (fun acc c => acc * a + (if c <=? 57 then c - 48 else c - 87)) key 0.

(** A character the argument splitter of [decode_packed_eval] treats as
    plain text outside quotes: no quote, parenthesis, comma or
    backslash. *)
Definition plain_arg_char (c : Z) : bool :=
  negb ((c =? 39) || (c =? 34) || (c =? 40) || (c =? 41) || (c =? 44) || (c =? 92)).

(** The body of a JavaScript string literal quoted with [q]: characters
    other than [q] and the backslash, and backslash escapes. *)
Inductive quoted_body (q : Z) : pystr -> Prop :=
| qb_nil : quoted_body q []
| qb_char c b : c <> q -> c <> 92 -> quoted_body q b -> quoted_body q (c :: b)
| qb_esc c b : quoted_body q b -> quoted_body q (92 :: c :: b).

(** An argument with no parentheses outside its string literals: plain
    characters and complete string literals. *)
Inductive simple_arg : pystr -> Prop :=
| sa_nil : simple_arg []
| sa_plain c r : plain_arg_char c = true -> simple_arg r -> simple_arg (c :: r)
| sa_quoted q b r : (q = 39 \/ q = 34) -> quoted_body q b -> simple_arg r ->
    simple_arg (q :: b ++ q :: r).

End ReadBack.

(** ** scripts/scraper.py: links, rows and the snapshot *)

Section Scraper.
Context `{PyTables}.

(** [\d] of a [str] pattern: a Unicode decimal digit. *)
Definition re_digit (c : Z) : bool :=
  is_ascii_digit c
  || (negb (is_ascii_cp c) && match u_decimal c with Some _ => true | None => false end).

(** The longest prefix whose characters satisfy [p], and the rest. *)
Fixpoint span (p : Z -> bool) (s : pystr) : pystr * pystr :=
  match s with
  | c :: t => if p c then let '(a, b) := span p t in (c :: a, b) else ([], s)
  | [] => ([], [])
  end.

Definition strip_prefix (p s : pystr) : option pystr :=
  if is_prefix p s then Some (skipn (List.length p) s) else None.

(** [POST_PATTERN.match(href)] for [^https?://jav\.guru/\d+/.+]; the
    greedy [s?] and [\d+] never backtrack, as ':' is not 's' and '/' is
    not a digit. *)
Definition post_pattern_match (href : pystr) : bool :=
  match strip_prefix (s_ "http") href with
  | None => false
  | Some r =>
      let r := match r with 115 :: t => t | _ => r end in
      match strip_prefix (s_ "://jav.guru/") r with
      | None => false
      | Some r2 =>
          let '(ds, r3) := span re_digit r2 in
          negb (is_nil ds) && match r3 with 47 :: c :: _ => negb (c =? 10) | _ => false end
      end
  end.

(** An anchor of [soup.find_all("a", href=True)]: its [href], and for its
    first [img] descendant (None when it has none) the [src] attribute
    (None when absent). *)
Definition Anchor := (pystr * option (option pystr))%type.

Definition pair_eqb (x y : pystr * pystr) : bool :=
  str_eqb (fst x) (fst y) && str_eqb (snd x) (snd y).

(** [s.add(x)] on a Python set of pairs. *)
Definition pair_set_add (s : list (pystr * pystr)) (x : pystr * pystr) : list (pystr * pystr) :=
  if existsb (pair_eqb x) s then s else s ++ [x].

(** [extract_links(html)], the anchors of the page in document order. *)
Definition extract_links (anchors : list Anchor) : list (pystr * pystr) :=
  fold_left (fun found (a : Anchor) =>
               let '(href, img) := a in
               if post_pattern_match href then
                 match img with
                 | Some (Some src) => if is_nil src then found else pair_set_add found (href, src)
                 | _ => found
                 end
               else found) anchors [].

(** The anchors of a fetched page, as BeautifulSoup parses it. *)
Variable page_anchors : pystr -> list Anchor.

(** The part of [process_page] after the fetch: [results.update(found)]
    for a page whose html is truthy. *)
Definition process_page (results : list (pystr * pystr)) (html : option pystr) : list (pystr * pystr) :=
  match html with
  | Some h => if is_nil h then results
              else fold_left pair_set_add (extract_links (page_anchors h)) results
  | None => results
  end.

(** [sorted(results)] in [main], the pages' fetch results taken in the
    order their tasks update [results]. *)
Definition scraper_rows (htmls : list (option pystr)) : list (pystr * pystr) :=
  sort_by pair_leb (fold_left process_page htmls []).

(** The rows [main] writes: the header, then one row per pair. *)
Definition scraper_csv (htmls : list (option pystr)) : list (list pystr) :=
  [s_ "page_url"; s_ "image_url"] :: map (fun r => [fst r; snd r]) (scraper_rows htmls).

(** The snapshot [main] writes, as [csv.DictReader] reads it back (the
    csv module quotes what needs quoting, so every field reads back as
    written). *)
Definition scraper_snapshot (name : pystr) (mtime : Z) (htmls : list (option pystr)) : CsvFile :=
  {| csv_name := name; csv_mtime := mtime;
     csv_fieldnames := [s_ "page_url"; s_ "image_url"];
     csv_rows := map (fun r => [(s_ "page_url", Some (fst r)); (s_ "image_url", Some (snd r))])
                     (scraper_rows htmls) |}.

End Scraper.

(** ** scripts/missav.py: playlist URLs, [process_url] and the output loop *)

Section Playlist.
Context `{PyTables}.

(** The class [[A-Za-z0-9\-\._/~%]]. *)
Definition url_char (c : Z) : bool :=
  is_ascii_alpha c || is_ascii_digit c || (c =? 45) || (c =? 46) || (c =? 95)
  || (c =? 47) || (c =? 126) || (c =? 37).

(** The negated class of the query group: no whitespace ([\s] of a
    [str] pattern is [str.isspace]), no quote of either kind, no '<'
    and no '>'. *)
Definition qs_char (c : Z) : bool :=
  negb (py_isspace c || (c =? 39) || (c =? 34) || (c =? 60) || (c =? 62)).

(** [https?://]: the optional 's' is tried first; without it the next
    character would have to be ':' where the 's' is. *)
Definition scheme_len (s : pystr) : option nat :=
  if is_prefix (s_ "https://") s then Some 8%nat
  else if is_prefix (s_ "http://") s then Some 7%nat
  else None.

(** Backtracking of the greedy [[...]+] before a literal: the counts
    [p], [p - 1], ..., 1 are tried in turn. *)
Fixpoint back_search (marker body : pystr) (p : nat) : option nat :=
  match p with
  | O => None
  | S q => if is_prefix marker (skipn p body) then Some p else back_search marker body q
  end.

(** A greedy optional group [(?:<lead><cls>+)?] at the end of the
    pattern: nothing follows it, so its first choice is kept. *)
Definition opt_group (lead : Z) (cls : Z -> bool) (s : pystr) : pystr :=
  match s with
  | c :: t => if c =? lead then match fst (span cls t) with [] => [] | w => c :: w end else []
  | [] => []
  end.

(** The length of the match of the pattern
    [https?://[A-Za-z0-9\-\._/~%]+<marker>(?:\.\w+)?(?:\?<qs_char>+)?]
    at the start of [s] ([ext] says whether the [(?:\.\w+)?] group is
    in the pattern). *)
Definition playlist_match (marker : pystr) (ext : bool) (s : pystr) : option nat :=
  match scheme_len s with
  | None => None
  | Some n =>
      let body := skipn n s in
      match back_search marker body (List.length (fst (span url_char body))) with
      | None => None
      | Some p =>
          let after := skipn (p + List.length marker) body in
          let e := if ext then opt_group 46 is_word after else [] in
          let q := opt_group 63 qs_char (skipn (List.length e) after) in
          Some (n + p + List.length marker + List.length e + List.length q)%nat
      end
  end.

(** [re.findall]: a match is tried at each position; after a match the
    search goes on at its end.  Every step consumes a character. *)
Fixpoint findall_loop (marker : pystr) (ext : bool) (fuel : nat) (s : pystr) : list pystr :=
  match fuel with
  | O => []
  | S f =>
      match s with
      | [] => []
      | _ :: t =>
          match playlist_match marker ext s with
          | Some k => firstn k s :: findall_loop marker ext f (skipn k s)
          | None => findall_loop marker ext f t
          end
      end
  end.

Definition re_findall (marker : pystr) (ext : bool) (s : pystr) : list pystr :=
  findall_loop marker ext (List.length s) s.

(** [extract_playlist_urls(text)]. *)
Definition extract_playlist_urls (text : pystr) : list pystr :=
  fold_left set_add (re_findall (s_ ".m3u8") false text ++ re_findall (s_ "/playlist") true text) [].

(** [process_url(url, fetcher, sem)], given the outcome of its
    [fetch_with_retries]. *)
Definition process_url (url : pystr) (fetched : outcome (option pystr)) : outcome (pystr * list pystr) :=
  html <- fetched ;;
  if negb (truthy html) then Ret (url, [])
  else
    let h := match html with Some h => h | None => [] end in
    decoded <- decode_packed_eval h ;;
    match decoded with
    | Some d =>
        if is_nil d then Ret (url, extract_playlist_urls h)
        else
          let urls := extract_playlist_urls d in
          if is_nil urls then Ret (url, extract_playlist_urls h) else Ret (url, urls)
    | None => Ret (url, extract_playlist_urls h)
    end.

(** An item of [asyncio.gather] with [return_exceptions=True]: a
    result, an [Exception], or a [CancelledError] (which is not an
    [Exception]). *)
Inductive task_result :=
| TaskOk (page_url : pystr) (urls : list pystr)
| TaskExc
| TaskCancelled.

(** The item [gather] collects for a task; a task that never finishes
    ([Diverge]) leaves [gather] waiting. *)
Definition task_of (o : outcome (pystr * list pystr)) : option task_result :=
  match o with
  | Ret (u, l) => Some (TaskOk u l)
  | Raise CancelledError => Some TaskCancelled
  | Raise _ => Some TaskExc
  | Diverge => None
  end.

Definition url_line_kept (u : pystr) : bool :=
  contains (s_ "missav") u || contains (s_ "playlist") u.

(** The inner [for item in results] loop of [main]: the text it appends
    to the output file, and the exception that stops it
    ([page_url, urls = item] on a [CancelledError] raises
    [TypeError]). *)
Fixpoint write_results (results : list task_result) : pystr * option pyexc :=
  match results with
  | [] => ([], None)
  | TaskExc :: t => write_results t
  | TaskCancelled :: _ => ([], Some TypeError)
  | TaskOk page_url urls :: t =>
      if is_nil urls then write_results t
      else
        let '(w, e) := write_results t in
        (page_url ++ [10]
           ++ flat_map (fun u => if url_line_kept u then u ++ [10] else []) urls
           ++ [10] ++ w, e)
  end.

(** The outer [for item in results] loop of [main]: every item that is
    not an [Exception] runs the inner loop over all the results. *)
Fixpoint output_loop (results rest : list task_result) : pystr * option pyexc :=
  match rest with
  | [] => ([], None)
  | TaskExc :: t => output_loop results t
  | _ :: t =>
      let '(w, e) := write_results results in
      match e with
      | None => let '(w', e') := output_loop results t in (w ++ w', e')
      | Some x => (w, Some x)
      end
  end.

(** The text [main] appends to docs/Missav_links.txt, and the exception
    it ends with. *)
Definition missav_output (results : list task_result) : pystr * option pyexc :=
  output_loop results results.

End Playlist.

(** ** Invariants and shapes the proofs state *)

Section Shapes.
Context `{PyTables}.

(** The merge counters: every row read is skipped, kept or a duplicate. *)
Definition counters_ok (st : MergeState) : Prop :=
  ms_total st = ms_skipped st + Z.of_nat (List.length (ms_seen st)) + ms_dups st /\
  0 <= ms_skipped st /\ 0 <= ms_dups st.

(** An anchor's link as [extract_links] takes it. *)
Definition link_of (anchors : list Anchor) (x : pystr * pystr) : Prop :=
  post_pattern_match (fst x) = true /\ snd x <> [] /\ In (fst x, Some (Some (snd x))) anchors.

(** A link of one of the pages fetched with non-empty html. *)
Definition page_link (page_anchors : pystr -> list Anchor) (htmls : list (option pystr)) (x : pystr * pystr) : Prop :=
  exists h, In (Some h) htmls /\ h <> [] /\ link_of (page_anchors h) x.

(** The shape of a match of one of the two playlist patterns. *)
Definition playlist_shape (m : pystr) (ext : bool) (u : pystr) : Prop :=
  exists sch pre e q,
    u = sch ++ pre ++ m ++ e ++ q /\
    (sch = s_ "https://" \/ sch = s_ "http://") /\
    pre <> [] /\ Forall (fun c => url_char c = true) pre /\
    (ext = false -> e = []) /\
    (e = [] \/ exists w, e = 46 :: w /\ w <> [] /\ Forall (fun c => is_word c = true) w) /\
    (q = [] \/ exists w, q = 63 :: w /\ w <> [] /\ Forall (fun c => qs_char c = true) w).

End Shapes.

(** ** Sample inputs *)

Definition fmt0 (_ : Z) : pystr := [].

Definition no_output : MergeOutput :=
  {| mo_header := []; mo_rows := []; mo_total_rows := 0; mo_unique := 0;
     mo_duplicates := 0; mo_skipped := 0 |}.

Definition get_output (o : option MergeOutput) : MergeOutput :=
  match o with Some x => x | None => no_output end.

Definition page_row (u t : string) : Row :=
  [(DEDUP_COL, Some (s_ u)); (s_ "title", Some (s_ t))].

Definition csv_file (name : string) (mtime : Z) (cols : list string) (rows : list Row) : CsvFile :=
  {| csv_name := s_ name; csv_mtime := mtime; csv_fieldnames := map s_ cols; csv_rows := rows |}.

(** Two snapshots with the same page, the older one listed first. *)
Definition D1 : list CsvFile :=
  [csv_file "old.csv" 1 ["page_url"; "title"]%string [page_row "https://A.com/p#top" "old"];
   csv_file "new.csv" 2 ["page_url"; "title"]%string [page_row "https://a.com/p" "new"]].

Definition K1 : pystr := s_ "https://a.com/p".
Definition E1old : Entry := (1, s_ "old.csv", page_row "https://A.com/p#top" "old").
Definition E1new : Entry := (2, s_ "new.csv", page_row "https://a.com/p" "new").

(** One snapshot whose rows come in decreasing key order. *)
Definition D4 : list CsvFile :=
  [csv_file "a.csv" 1 ["page_url"]%string [[(DEDUP_COL, Some (s_ "https://b.com/"))];
                                     [(DEDUP_COL, Some (s_ "https://a.com/"))]]].

(** Snapshots of different times, with a duplicate. *)
Definition D4w : list CsvFile :=
  [csv_file "x.csv" 1 ["page_url"]%string [[(DEDUP_COL, Some (s_ "https://x.com/"))]];
   csv_file "y.csv" 3 ["page_url"]%string [[(DEDUP_COL, Some (s_ "https://y.com/"))];
                                     [(DEDUP_COL, Some (s_ "https://x.com/"))]]].

(** A snapshot whose header has no [page_url] column. *)
Definition D9 : list CsvFile :=
  [csv_file "a.csv" 1 ["url"]%string [[(s_ "url", Some (s_ "https://a.com/"))]]].

(** A blank page URL, a duplicate, and a snapshot without [page_url]. *)
Definition D9w : list CsvFile :=
  [csv_file "a.csv" 2 ["page_url"]%string [[(DEDUP_COL, Some (s_ "  "))];
                                     [(DEDUP_COL, Some (s_ "https://a.com/"))];
                                     [(DEDUP_COL, Some (s_ "https://a.com/#x"))]];
   csv_file "b.csv" 1 ["url"]%string [[(s_ "url", Some (s_ "https://b.com/"))]]].

(** Packed payloads. *)
Definition P2w : pystr :=
  s_ "<script>eval(function(p,a,c,k,e,d){return p}('0 1.b(0)',12,12,'hi|there||||||||||say'.split('|')))</script>".

Definition P2 : pystr :=
  s_ "eval(function(p,a,c,k,e,d){return p}('0',10,1,'\d'.split('|')))".

Definition P5 : pystr :=
  s_ "eval(function(p,a,c,k,e,d){return p}('x',10,1,'a|b)".

Definition P3u : pystr :=
  s_ "eval(function(p,a,c,k,e,d){return p}('0 1',1,2,'a|b'.split('|')))".

Definition P3z : pystr :=
  s_ "eval(function(p,a,c,k,e,d){return p}('0 1',0,2,'a|b'.split('|')))".

(** Resolution digit groups, their labels and a playlist URL. *)
Definition R8 : list pystr := [s_ "1080"; s_ "720"; s_ "480"].

Definition L8 (r : pystr) : pystr := r ++ s_ "p".

Definition U8 : pystr := s_ "https://Ex.com/720/a.m3u8".

(** Two listing pages: the first one links a post twice and the next
    page, the second one links a post already seen and a non-post. *)
Definition T10 (h : pystr) : list (option pystr) :=
  if str_eqb h (s_ "<p1>") then [Some (s_ "/en/b"); Some (s_ " /en/a "); Some (s_ "/en/b"); None]
  else [Some (s_ "/en/a"); Some (s_ "/x")].

Definition N10 (h : pystr) : option pystr :=
  if str_eqb h (s_ "<p1>") then Some (s_ "/page/2") else None.

Definition F10 (u : pystr) : outcome (option pystr) :=
  if str_eqb u (s_ "https://s.com/") then Ret (Some (s_ "<p1>"))
  else if str_eqb u (s_ "https://s.com/page/2") then Ret (Some (s_ "<p2>"))
  else Ret None.

Definition W10 : list pystr := [s_ "https://s.com/en/a"; s_ "https://s.com/en/b"].

(** A listing page whose only post link has an unbalanced bracket in
    its host. *)
Definition T10c (_ : pystr) : list (option pystr) := [Some (s_ "//[x/en/")].

Definition F10c (u : pystr) : outcome (option pystr) :=
  if str_eqb u (s_ "https://a.com/") then Ret (Some (s_ "<html>")) else Ret None.

(** Two listing pages of jav.guru: their anchors (a post link with an
    image, a link to another site, a post link whose image has no
    [src]). *)
Definition PA (h : pystr) : list Anchor :=
  if str_eqb h (s_ "p1")
  then [(s_ "https://jav.guru/12/a", Some (Some (s_ "i.jpg")));
        (s_ "https://x.com/1/a", Some (Some (s_ "j.jpg")))]
  else [(s_ "https://jav.guru/3/b", Some (Some (s_ "k.jpg")));
        (s_ "https://jav.guru/3/c", Some None);
        (s_ "http://jav.guru/3/b", Some (Some (s_ "k.jpg")))].

Definition HT : list (option pystr) := [Some (s_ "p1"); None; Some (s_ "p2")].

Definition HTp : list (option pystr) := [Some (s_ "p2"); Some (s_ "p1"); None].

Definition DS : list CsvFile :=
  [scraper_snapshot PA (s_ "jav_links_1.csv") 5 HT;
   scraper_snapshot PA (s_ "jav_links_2.csv") 7 [Some (s_ "p2")]].

(** Task results as [asyncio.gather] returns them to missav.py's [main]. *)
Definition R_out : list task_result :=
  [TaskOk (s_ "https://jav.guru/1/") [s_ "https://x.missav.ws/a/playlist.m3u8"; s_ "https://cdn.net/v.m3u8"];
   TaskExc;
   TaskOk (s_ "https://jav.guru/2/") []].

(** * Proofs *)

(** ** Strings, membership and sorting *)

Section BasicFacts.
Context `{PyTables}.

Lemma is_nil_true {A} (l : list A) : is_nil l = true <-> l = [].
Proof. destruct l; simpl; split; congruence. Qed.

Lemma is_nil_false {A} (l : list A) : is_nil l = false <-> l <> [].
Proof. destruct l; simpl; split; congruence. Qed.

Lemma str_eqb_eq (a b : pystr) : str_eqb a b = true <-> a = b.
Proof.
  revert b; induction a as [|x a IH]; intros [|y b]; simpl; try (split; congruence).
  rewrite Bool.andb_true_iff, Z.eqb_eq, IH. split; [intros [-> ->]; auto | intros E; inversion E; auto].
Qed.

Lemma str_eqb_refl (a : pystr) : str_eqb a a = true.
Proof. apply str_eqb_eq; reflexivity. Qed.

Lemma str_eqb_neq (a b : pystr) : str_eqb a b = false <-> a <> b.
Proof.
  rewrite <- str_eqb_eq. destruct (str_eqb a b); split; congruence.
Qed.

Lemma str_in_iff (x : pystr) (l : list pystr) : str_in x l = true <-> In x l.
Proof.
  unfold str_in. rewrite existsb_exists. split.
  - intros [y [Hy E]]. apply str_eqb_eq in E. subst; auto.
  - intros Hx. exists x. split; auto. apply str_eqb_refl.
Qed.

Lemma str_in_false (x : pystr) (l : list pystr) : str_in x l = false <-> ~ In x l.
Proof. rewrite <- str_in_iff. destruct (str_in x l); split; congruence. Qed.

Lemma str_ltb_irrefl (a : pystr) : str_ltb a a = false.
Proof.
  induction a as [|x a IH]; simpl; auto. rewrite Z.ltb_irrefl, Z.eqb_refl, IH; auto.
Qed.

Lemma str_ltb_trans (a b c : pystr) :
  str_ltb a b = true -> str_ltb b c = true -> str_ltb a c = true.
Proof.
  revert b c; induction a as [|x a IH]; intros [|y b] [|z c]; simpl; try congruence.
  rewrite !Bool.orb_true_iff, !Bool.andb_true_iff, !Z.ltb_lt, !Z.eqb_eq.
  intros [Hxy | [-> Hab]] [Hyz | [-> Hbc]].
  - left; lia.
  - left; lia.
  - left; lia.
  - right; split; auto. eapply IH; eauto.
Qed.

Lemma str_ltb_total (a b : pystr) :
  a <> b -> str_ltb a b = true \/ str_ltb b a = true.
Proof.
  revert b; induction a as [|x a IH]; intros [|y b] Hne; simpl; auto; try congruence.
  rewrite !Bool.orb_true_iff, !Bool.andb_true_iff, !Z.ltb_lt, !Z.eqb_eq.
  destruct (Z.lt_trichotomy x y) as [Hl | [-> | Hg]].
  - left; left; lia.
  - assert (a <> b) as Hab by congruence.
    destruct (IH b Hab); [left | right]; right; auto.
  - right; left; lia.
Qed.

Lemma str_ltb_asym (a b : pystr) : str_ltb a b = true -> str_ltb b a = false.
Proof.
  intros H1. destruct (str_ltb b a) eqn:H2; auto.
  pose proof (str_ltb_trans _ _ _ H1 H2) as H3. rewrite str_ltb_irrefl in H3. discriminate.
Qed.

Lemma str_leb_total (a b : pystr) : str_leb a b = false -> str_leb b a = true.
Proof.
  unfold str_leb. rewrite Bool.orb_false_iff, str_eqb_neq. intros [Hl Hne].
  destruct (str_ltb_total a b Hne) as [E | E]; [congruence | rewrite E; auto].
Qed.

Lemma str_leb_trans (a b c : pystr) :
  str_leb a b = true -> str_leb b c = true -> str_leb a c = true.
Proof.
  unfold str_leb. rewrite !Bool.orb_true_iff, !str_eqb_eq.
  intros [H1 | ->] [H2 | ->]; auto. left; eapply str_ltb_trans; eauto.
Qed.

Lemma Sorted_weaken {A} (R S : A -> A -> Prop) (HRS : forall x y, R x y -> S x y) l :
  Sorted R l -> Sorted S l.
Proof.
  induction 1 as [|x l Hs IH Hh]; constructor; auto.
  destruct Hh; constructor; auto.
Qed.

(** Insertion sort: a permutation, sorted for a total relation, stable. *)

Lemma insert_by_perm {A} (le : A -> A -> bool) x l :
  Permutation (insert_by le x l) (x :: l).
Proof.
  induction l as [|y l IH]; simpl; auto.
  destruct (le x y); auto.
  rewrite IH. apply perm_swap.
Qed.

Lemma sort_by_perm {A} (le : A -> A -> bool) l : Permutation (sort_by le l) l.
Proof.
  induction l as [|x l IH]; simpl; auto.
  rewrite insert_by_perm. auto.
Qed.

Lemma insert_by_sorted {A} (le : A -> A -> bool)
  (Htot : forall x y, le x y = false -> le y x = true) x l :
  Sorted (fun a b => le a b = true) l -> Sorted (fun a b => le a b = true) (insert_by le x l).
Proof.
  induction 1 as [|y l Hs IH Hh]; simpl.
  - repeat constructor.
  - destruct (le x y) eqn:E.
    + constructor; auto.
    + constructor; auto.
      destruct l as [|z l]; simpl; [constructor; auto|].
      inversion Hh; subst.
      destruct (le x z); constructor; auto.
Qed.

Lemma sort_by_sorted {A} (le : A -> A -> bool)
  (Htot : forall x y, le x y = false -> le y x = true) l :
  Sorted (fun a b => le a b = true) (sort_by le l).
Proof.
  induction l; simpl; auto. apply insert_by_sorted; auto.
Qed.

Lemma sort_by_sorted_id {A} (le : A -> A -> bool) l :
  Sorted (fun a b => le a b = true) l -> sort_by le l = l.
Proof.
  induction 1 as [|x l Hs IH Hh]; simpl; auto.
  rewrite IH. destruct l as [|y l]; simpl; auto.
  inversion Hh; subst. rewrite H1. reflexivity.
Qed.

(** Sorting by a key in descending order keeps the relative order of
    the elements that share a key. *)
Lemma insert_desc_filter {A} (key : A -> Z) x l t :
  filter (fun z => key z =? t)
         (insert_by (fun a b => key b <=? key a) x l)
  = filter (fun z => key z =? t) (x :: l).
Proof.
  induction l as [|y l IH]; simpl; auto.
  destruct (key y <=? key x) eqn:E; simpl; auto.
  rewrite IH. simpl.
  apply Z.leb_gt in E.
  destruct (key x =? t) eqn:Ex, (key y =? t) eqn:Ey; auto.
  apply Z.eqb_eq in Ex, Ey. lia.
Qed.

Lemma sort_desc_filter {A} (key : A -> Z) l t :
  filter (fun z => key z =? t) (sort_by (fun a b => key b <=? key a) l)
  = filter (fun z => key z =? t) l.
Proof.
  induction l as [|x l IH]; simpl; auto.
  rewrite insert_desc_filter. simpl. rewrite IH. reflexivity.
Qed.

Lemma sort_desc_sorted {A} (key : A -> Z) l :
  Sorted (fun a b => key b <= key a) (sort_by (fun a b => key b <=? key a) l).
Proof.
  assert (Sorted (fun a b => (key b <=? key a) = true) (sort_by (fun a b => key b <=? key a) l)) as Hs.
  { apply sort_by_sorted. intros x y E. apply Z.leb_gt in E. apply Z.leb_le. lia. }
  eapply Sorted_weaken; [|exact Hs]. intros x y E; apply Z.leb_le; auto.
Qed.

Lemma filter_app_inv {A} (p : A -> bool) l a b :
  filter p l = a ++ b -> exists l1 l2, l = l1 ++ l2 /\ filter p l1 = a /\ filter p l2 = b.
Proof.
  revert a; induction l as [|z l IH]; intros a E; simpl in E.
  - destruct a; [|discriminate]. destruct b; [|discriminate]. exists [], []; auto.
  - destruct (p z) eqn:Pz.
    + destruct a as [|w a]; simpl in E.
      * exists [], (z :: l). simpl. rewrite Pz. auto.
      * injection E as -> E. destruct (IH a E) as (l1 & l2 & -> & E1 & E2).
        exists (w :: l1), l2. simpl. rewrite Pz, E1. auto.
    + destruct (IH a E) as (l1 & l2 & -> & E1 & E2).
      exists (z :: l1), l2. simpl. rewrite Pz. auto.
Qed.

Lemma filter_cons_inv {A} (p : A -> bool) l x r :
  filter p l = x :: r -> exists l1 l2, l = l1 ++ x :: l2 /\ filter p l2 = r.
Proof.
  induction l as [|z l IH]; simpl; intros E; [discriminate|].
  destruct (p z) eqn:Pz.
  - injection E as -> E. exists [], l; auto.
  - destruct (IH E) as (l1 & l2 & -> & E2). exists (z :: l1), l2; auto.
Qed.

Lemma before_filter {A} (p : A -> bool) l x y :
  before (filter p l) x y -> before l x y.
Proof.
  intros (a1 & a2 & a3 & E).
  destruct (filter_app_inv p l a1 _ E) as (b1 & b2 & -> & _ & E2).
  destruct (filter_cons_inv p b2 x _ E2) as (c1 & c2 & -> & E3).
  destruct (filter_app_inv p c2 a2 _ E3) as (d1 & d2 & -> & _ & E4).
  destruct (filter_cons_inv p d2 y _ E4) as (e1 & e2 & -> & _).
  exists (b1 ++ c1), (d1 ++ e1), e2.
  repeat rewrite <- app_assoc; simpl; repeat rewrite <- app_assoc; reflexivity.
Qed.

Lemma before_filter_in {A} (p : A -> bool) l x y :
  before l x y -> p x = true -> p y = true -> before (filter p l) x y.
Proof.
  intros (l1 & l2 & l3 & ->) Px Py.
  exists (filter p l1), (filter p l2), (filter p l3).
  rewrite !filter_app. simpl. rewrite Px, filter_app. simpl. rewrite Py. reflexivity.
Qed.

Lemma before_map {A B} (f : A -> B) l x y :
  before l x y -> before (map f l) (f x) (f y).
Proof.
  intros (l1 & l2 & l3 & ->). exists (map f l1), (map f l2), (map f l3).
  rewrite map_app. simpl. rewrite map_app. reflexivity.
Qed.

End BasicFacts.

(** ** The merge loop *)

Section MergeFacts.
Context `{PyTables}.

Lemma merge_row_core m f r st1 st2 :
  merge_core st1 = merge_core st2 ->
  merge_core (merge_row m f st1 r) = merge_core (merge_row m f st2 r).
Proof.
  destruct st1, st2; unfold merge_core; simpl; intros E; inversion E; subst.
  unfold merge_row; simpl.
  destruct (is_nil _); [reflexivity|].
  destruct (assoc_find _ _) as [[[pm pf] pr]|]; reflexivity.
Qed.

Lemma merge_rows_core m f rows st1 st2 :
  merge_core st1 = merge_core st2 ->
  merge_core (fold_left (merge_row m f) rows st1)
  = merge_core (fold_left merge_entry (map (fun r => (m, f, r)) rows) st2).
Proof.
  revert st1 st2; induction rows as [|r rows IH]; intros st1 st2 E; simpl; auto.
  apply IH. apply merge_row_core; auto.
Qed.

Lemma merge_files_core files st1 st2 :
  merge_core st1 = merge_core st2 ->
  merge_core (fold_left merge_file files st1)
  = merge_core (fold_left merge_entry (flat_map file_events files) st2).
Proof.
  revert st1 st2; induction files as [|f files IH]; intros st1 st2 E; simpl; auto.
  rewrite fold_left_app. apply IH.
  unfold merge_file, file_events.
  destruct (is_nil (csv_fieldnames f)) eqn:Ef; simpl; auto.
  destruct (str_in DEDUP_COL (csv_fieldnames f)) eqn:Ed; simpl.
  - apply merge_rows_core. destruct st1; unfold merge_core in *; simpl in *; auto.
  - destruct st1; unfold merge_core in *; simpl in *; auto.
Qed.

Lemma merge_scan_core dir :
  merge_core (merge_scan (list_csv_files dir))
  = merge_core (fold_left merge_entry (merge_events dir) merge_init).
Proof. apply merge_files_core. reflexivity. Qed.

(** Distinct strings in order of first appearance. *)

Lemma str_dedup_snoc l x :
  str_dedup (l ++ [x]) =
  if str_in x (str_dedup l) then str_dedup l else str_dedup l ++ [x].
Proof. unfold str_dedup. rewrite fold_left_app. reflexivity. Qed.

Lemma str_dedup_in l : forall x, In x (str_dedup l) <-> In x l.
Proof.
  induction l as [|y l IH] using rev_ind; intros x; [simpl; tauto|].
  rewrite str_dedup_snoc, (in_app_iff l [y] x).
  destruct (str_in y (str_dedup l)) eqn:E.
  - apply str_in_iff in E. rewrite IH in E |- *. split; [auto|].
    intros [? | [<- | []]]; auto.
  - rewrite in_app_iff, IH. tauto.
Qed.

Lemma str_dedup_nodup l : NoDup (str_dedup l).
Proof.
  induction l as [|y l IH] using rev_ind; [constructor|].
  rewrite str_dedup_snoc.
  destruct (str_in y (str_dedup l)) eqn:E; auto.
  apply str_in_false in E.
  apply NoDup_app; auto.
  - repeat constructor; auto.
  - intros z Hz [<- | []]. auto.
Qed.

(** Association lists. *)

Lemma assoc_find_in {A} k (l : list (pystr * A)) v :
  assoc_find k l = Some v -> In (k, v) l.
Proof.
  induction l as [|[k' v'] l IH]; simpl; [discriminate|].
  destruct (str_eqb k k') eqn:E.
  - apply str_eqb_eq in E. intros Hv; inversion Hv; subst; auto.
  - intros Hf; right; auto.
Qed.

Lemma assoc_find_none {A} k (l : list (pystr * A)) :
  assoc_find k l = None <-> ~ In k (map fst l).
Proof.
  induction l as [|[k' v'] l IH]; simpl; [tauto|].
  destruct (str_eqb k k') eqn:E.
  - apply str_eqb_eq in E. subst. split; [discriminate|]. intros Hn; exfalso; auto.
  - apply str_eqb_neq in E. rewrite IH. split; [intros Hn [? | ?]; auto | auto].
Qed.

Lemma assoc_find_nodup {A} k (l : list (pystr * A)) v :
  NoDup (map fst l) -> In (k, v) l -> assoc_find k l = Some v.
Proof.
  induction l as [|[k' v'] l IH]; simpl; [tauto|].
  intros Hnd Hin. inversion Hnd; subst.
  destruct (str_eqb k k') eqn:E.
  - apply str_eqb_eq in E. subst.
    destruct Hin as [Hin | Hin]; [inversion Hin; auto|].
    exfalso. apply H2. apply (in_map fst) in Hin. auto.
  - apply str_eqb_neq in E. destruct Hin as [Hin | Hin]; [inversion Hin; congruence|]. auto.
Qed.

Lemma assoc_set_keys {A} k (v : A) l : map fst (assoc_set k v l) = map fst l.
Proof.
  induction l as [|[k' v'] l IH]; simpl; auto.
  destruct (str_eqb k k'); simpl; congruence.
Qed.

Lemma assoc_set_in {A} k (v : A) l k' v' :
  In (k', v') (assoc_set k v l) -> (k' = k /\ v' = v) \/ In (k', v') l.
Proof.
  induction l as [|[k0 v0] l IH]; simpl; [tauto|].
  destruct (str_eqb k k0) eqn:E; simpl.
  - apply str_eqb_eq in E; subst. intros [Hh | Ht]; [inversion Hh; auto | auto].
  - intros [Hh | Ht]; auto. destruct (IH Ht); auto.
Qed.

Lemma assoc_set_in_nodup {A} k (v : A) l k' v' :
  NoDup (map fst l) -> In (k', v') (assoc_set k v l) ->
  (k' = k /\ v' = v) \/ (k' <> k /\ In (k', v') l).
Proof.
  induction l as [|[k0 v0] l IH]; simpl; [tauto|].
  intros Hnd. inversion Hnd as [|? ? Hn Hnd']; subst.
  destruct (str_eqb k k0) eqn:E; simpl.
  - apply str_eqb_eq in E; subst. intros [Hh | Ht]; [inversion Hh; auto|].
    right. split; [|auto]. intros ->. apply Hn. apply (in_map fst) in Ht. exact Ht.
  - apply str_eqb_neq in E.
    intros [Hh | Ht]; [inversion Hh; subst; right; auto|].
    destruct (IH Hnd' Ht) as [? | [? ?]]; auto.
Qed.

Lemma in_map_fst {A} (l : list (pystr * A)) k v : In (k, v) l -> In k (map fst l).
Proof. intros Hin. apply (in_map fst) in Hin. exact Hin. Qed.

End MergeFacts.

Section MergeInvariant.
Context `{PyTables}.

Lemma dedup_nonempty (l : list pystr) k :
  In k (str_dedup (@filter pystr (fun k => negb (is_nil k)) l)) -> k <> [].
Proof.
  rewrite str_dedup_in, filter_In. intros [_ Hk]. destruct k; simpl in Hk; congruence.
Qed.

Lemma dedup_filter_in (l : list pystr) k :
  In k l -> k <> [] -> In k (str_dedup (@filter pystr (fun k => negb (is_nil k)) l)).
Proof.
  intros Hin Hk. rewrite str_dedup_in, filter_In. split; auto.
  destruct k; simpl; congruence.
Qed.

(** The invariant of the merge loop after the rows [E]: the keys of
    [seen] are the usable keys of [E] in order of first appearance, each
    stored row has its key and a newest timestamp among the rows of that
    key, and the counters count the rows and the unusable rows. *)
Lemma merge_fold_inv (E : list Entry) :
  let st := fold_left merge_entry E merge_init in
  map fst (ms_seen st) = str_dedup (@filter pystr (fun k => negb (is_nil k)) (map entry_key E)) /\
  (forall k e, In (k, e) (ms_seen st) ->
     entry_key e = k /\ In e E /\
     forall e', In e' E -> entry_key e' = k -> entry_time e' <= entry_time e) /\
  ms_total st = Z.of_nat (List.length E) /\
  ms_skipped st = Z.of_nat (List.length (filter (fun e => is_nil (entry_key e)) E)).
Proof.
  induction E as [|e E IH] using rev_ind; simpl.
  { repeat split; simpl; tauto. }
  rewrite fold_left_app. simpl.
  destruct IH as (K & I2 & Tot & Sk).
  set (st := fold_left merge_entry E merge_init) in *.
  assert (Hnd : NoDup (map fst (ms_seen st))) by (rewrite K; apply str_dedup_nodup).
  rewrite map_app, filter_app, filter_app, length_app, length_app.
  destruct e as [[m f] r].
  set (k := entry_key (m, f, r)).
  assert (Hk : normalize_url (row_get r DEDUP_COL) = k) by reflexivity.
  unfold merge_entry, merge_row. simpl filter. rewrite !Hk.
  destruct (is_nil k) eqn:Ek; simpl.
  - (* unusable row: only the counters move *)
    rewrite app_nil_r. refine (conj K (conj _ (conj _ _))).
    + intros k0 e0 Hin. destruct (I2 k0 e0 Hin) as (Hk0 & Hin0 & Hmax).
      split; [|split]; auto.
      * apply in_app_iff; auto.
      * intros e' He' Hke'. apply in_app_iff in He'. destruct He' as [He' | [<- | []]]; auto.
        exfalso. apply is_nil_true in Ek. assert (k0 <> []) as Hne.
        { apply (dedup_nonempty (map entry_key E)). rewrite <- K. apply (in_map_fst _ _ _ Hin). }
        apply Hne. rewrite <- Hke'. exact Ek.
    + rewrite Tot. lia.
    + rewrite Sk. lia.
  - destruct (assoc_find k (ms_seen st)) as [[[pm pf] pr]|] eqn:Ef; simpl.
    + (* a known key *)
      pose proof (assoc_find_in _ _ _ Ef) as Hold.
      assert (Hkin : str_in k (str_dedup (@filter pystr (fun k => negb (is_nil k)) (map entry_key E))) = true).
      { apply str_in_iff. rewrite <- K. apply (in_map_fst _ _ _ Hold). }
      destruct (I2 _ _ Hold) as (_ & _ & Hmax_old).
      refine (conj _ (conj _ (conj _ _))).
      * rewrite str_dedup_snoc, Hkin.
        destruct (pm <? m); simpl; [rewrite assoc_set_keys|]; auto.
      * intros k0 e0 Hin.
        destruct (pm <? m) eqn:Elt.
        -- apply Z.ltb_lt in Elt.
           destruct (assoc_set_in_nodup _ _ _ _ _ Hnd Hin) as [[-> ->] | [Hne Hin0]].
           ++ split; [|split]; auto.
              ** apply in_app_iff; simpl; auto.
              ** intros e' He' Hke'. apply in_app_iff in He'.
                 destruct He' as [He' | [<- | []]]; simpl.
                 --- pose proof (Hmax_old e' He' Hke'). simpl in *. lia.
                 --- lia.
           ++ destruct (I2 _ _ Hin0) as (Hk0 & Hin1 & Hmax).
              split; [|split]; auto.
              ** apply in_app_iff; auto.
              ** intros e' He' Hke'. apply in_app_iff in He'.
                 destruct He' as [He' | [<- | []]]; auto.
                 exfalso. apply Hne. rewrite <- Hke'. reflexivity.
        -- apply Z.ltb_ge in Elt.
           destruct (I2 _ _ Hin) as (Hk0 & Hin1 & Hmax).
           split; [|split]; auto.
           ++ apply in_app_iff; auto.
           ++ intros e' He' Hke'. apply in_app_iff in He'.
              destruct He' as [He' | [<- | []]]; auto.
              assert (Heq : k0 = k) by (rewrite <- Hke'; reflexivity). rewrite Heq in Hin.
              pose proof (assoc_find_nodup _ _ _ Hnd Hin) as Hf. rewrite Ef in Hf.
              inversion Hf; subst. simpl. lia.
      * rewrite Tot. lia.
      * rewrite Sk. simpl. lia.
    + (* a new key *)
      apply assoc_find_none in Ef.
      assert (Hkin : str_in k (str_dedup (@filter pystr (fun k => negb (is_nil k)) (map entry_key E))) = false).
      { apply str_in_false. rewrite <- K. exact Ef. }
      refine (conj _ (conj _ (conj _ _))).
      * rewrite str_dedup_snoc, Hkin, map_app, K. reflexivity.
      * intros k0 e0 Hin. apply in_app_iff in Hin. destruct Hin as [Hin | [Hin | []]].
        -- destruct (I2 _ _ Hin) as (Hk0 & Hin1 & Hmax).
           split; [|split]; auto.
           ++ apply in_app_iff; auto.
           ++ intros e' He' Hke'. apply in_app_iff in He'.
              destruct He' as [He' | [<- | []]]; auto.
              exfalso. apply Ef. assert (Heq : k0 = k) by (rewrite <- Hke'; reflexivity).
              rewrite Heq in Hin. apply (in_map_fst _ _ _ Hin).
        -- inversion Hin; subst k0 e0. split; [|split]; auto.
           ++ apply in_app_iff; simpl; auto.
           ++ intros e' He' Hke'. apply in_app_iff in He'.
              destruct He' as [He' | [<- | []]]; [|simpl; lia].
              exfalso. apply Ef. rewrite K. apply dedup_filter_in.
              ** rewrite <- Hke'. apply in_map; auto.
              ** apply is_nil_false; auto.
      * rewrite Tot. lia.
      * rewrite Sk. simpl. lia.
Qed.

End MergeInvariant.

(** ** What the merge emits *)

Section MergeResults.
Context `{PyTables}.

Lemma merge_seen_eq dir :
  ms_seen (merge_scan (list_csv_files dir))
  = ms_seen (fold_left merge_entry (merge_events dir) merge_init).
Proof. pose proof (merge_scan_core dir) as E. unfold merge_core in E. congruence. Qed.

Lemma merge_total_eq dir :
  ms_total (merge_scan (list_csv_files dir))
  = ms_total (fold_left merge_entry (merge_events dir) merge_init).
Proof. pose proof (merge_scan_core dir) as E. unfold merge_core in E. congruence. Qed.

Lemma merge_skipped_eq dir :
  ms_skipped (merge_scan (list_csv_files dir))
  = ms_skipped (fold_left merge_entry (merge_events dir) merge_init).
Proof. pose proof (merge_scan_core dir) as E. unfold merge_core in E. congruence. Qed.

Lemma merge_items_perm dir :
  Permutation (merge_items dir) (ms_seen (fold_left merge_entry (merge_events dir) merge_init)).
Proof. unfold merge_items. rewrite merge_seen_eq. apply sort_by_perm. Qed.

Lemma merge_items_keys dir :
  Permutation (map fst (merge_items dir)) (usable_keys dir).
Proof.
  destruct (merge_fold_inv (merge_events dir)) as (K & _).
  unfold usable_keys. change (filter (fun k => negb (is_nil k)) (map entry_key (merge_events dir)))
    with (@filter pystr (fun k => negb (is_nil k)) (map entry_key (merge_events dir))).
  rewrite <- K. apply Permutation_map, merge_items_perm.
Qed.

Lemma merge_items_nodup dir : NoDup (map fst (merge_items dir)).
Proof.
  eapply Permutation_NoDup; [symmetry; apply merge_items_keys|].
  apply str_dedup_nodup.
Qed.

Lemma occurrences_in dir k e :
  In e (occurrences dir k) <-> In e (merge_events dir) /\ entry_key e = k.
Proof. unfold occurrences. rewrite filter_In, str_eqb_eq. tauto. Qed.

Lemma merge_items_newest dir k e :
  In (k, e) (merge_items dir) ->
  entry_key e = k /\ In e (occurrences dir k) /\
  forall e', In e' (occurrences dir k) -> entry_time e' <= entry_time e.
Proof.
  intros Hin. eapply Permutation_in in Hin; [|apply merge_items_perm].
  destruct (merge_fold_inv (merge_events dir)) as (_ & I2 & _).
  destruct (I2 _ _ Hin) as (Hk & He & Hmax).
  split; [|split]; auto.
  - apply occurrences_in; auto.
  - intros e' He'. apply occurrences_in in He'. destruct He'. auto.
Qed.

Lemma merge_items_key_in dir k :
  In k (usable_keys dir) -> exists e, In (k, e) (merge_items dir).
Proof.
  intros Hk. eapply Permutation_in in Hk; [|symmetry; apply merge_items_keys].
  apply in_map_iff in Hk. destruct Hk as ([k' e] & E & Hin). simpl in E. subst.
  eauto.
Qed.

Lemma usable_keys_in dir k :
  In k (usable_keys dir) <-> k <> [] /\ exists e, In e (occurrences dir k).
Proof.
  unfold usable_keys. rewrite str_dedup_in, filter_In, in_map_iff.
  split.
  - intros [(e & Ek & He) Hne]. split.
    + destruct k; simpl in Hne; congruence.
    + exists e. apply occurrences_in; auto.
  - intros [Hne (e & He)]. apply occurrences_in in He. destruct He as [He Ek].
    split; [eauto|]. destruct k; simpl; congruence.
Qed.

Lemma merge_counts dir :
  ms_total (merge_scan (list_csv_files dir)) = Z.of_nat (List.length (merge_events dir)) /\
  ms_skipped (merge_scan (list_csv_files dir)) = count_unusable dir.
Proof.
  rewrite merge_total_eq, merge_skipped_eq.
  destruct (merge_fold_inv (merge_events dir)) as (_ & _ & T & S). auto.
Qed.

(** The columns of the output and the fields of an emitted row. *)

Lemma add_columns_in cols cs c : In c cols -> In c (add_columns cols cs).
Proof.
  unfold add_columns. revert cols; induction cs as [|d cs IH]; intros cols Hc; simpl; auto.
  apply IH. destruct (str_in d cols); auto. apply in_app_iff; auto.
Qed.

Lemma add_columns_new cols cs c : In c cs -> In c (add_columns cols cs).
Proof.
  unfold add_columns. revert cols; induction cs as [|d cs IH]; intros cols Hc; simpl in *; [tauto|].
  destruct Hc as [-> | Hc]; auto.
  apply add_columns_in. destruct (str_in c cols) eqn:E.
  - apply str_in_iff; auto.
  - apply in_app_iff; simpl; auto.
Qed.

Lemma out_columns_cols cols c : In c cols -> In c (out_columns cols).
Proof. apply add_columns_in. Qed.

Lemma out_columns_extras cols c : In c extras -> In c (out_columns cols).
Proof. apply add_columns_new. Qed.

Lemma assoc_find_graph {A} (g : pystr -> A) cs c :
  In c cs -> assoc_find c (map (fun col => (col, g col)) cs) = Some (g c).
Proof.
  induction cs as [|d cs IH]; simpl; [tauto|]. intros Hc.
  destruct (str_eqb c d) eqn:E.
  - apply str_eqb_eq in E; subst; auto.
  - apply str_eqb_neq in E. destruct Hc as [-> | Hc]; [congruence | auto].
Qed.

Lemma out_row_graph fmt cols k m f r :
  out_row fmt cols (k, (m, f, r))
  = map (fun col => (col,
           if str_eqb col (nth 0 extras []) then Some k
           else if str_eqb col (nth 1 extras []) then Some f
           else if str_eqb col (nth 2 extras []) then Some (fmt m)
           else row_get r col)) (out_columns cols).
Proof.
  unfold out_row. apply map_ext. intros col.
  destruct (str_eqb col (nth 0 extras [])); auto.
  destruct (str_eqb col (nth 1 extras [])); auto.
  destruct (str_eqb col (nth 2 extras [])); auto.
Qed.

(** An emitted row carries its normalized key, its snapshot's name and
    formatted time, and the stored row's value in every input column. *)
Lemma out_row_fields fmt cols k m f r :
  out_field "normalized_page_url" (out_row fmt cols (k, (m, f, r))) = Some (Some k) /\
  out_field "source_file" (out_row fmt cols (k, (m, f, r))) = Some (Some f) /\
  out_field "source_file_mtime" (out_row fmt cols (k, (m, f, r))) = Some (Some (fmt m)) /\
  forall c, In c cols -> ~ In c extras ->
    assoc_find c (out_row fmt cols (k, (m, f, r))) = Some (row_get r c).
Proof.
  unfold out_field. rewrite out_row_graph.
  split; [|split; [|split]].
  - rewrite assoc_find_graph; [reflexivity|]. apply out_columns_extras, in_map. simpl; auto.
  - rewrite assoc_find_graph; [reflexivity|]. apply out_columns_extras, in_map. simpl; auto.
  - rewrite assoc_find_graph; [reflexivity|]. apply out_columns_extras, in_map. simpl; auto.
  - intros c Hc Hx. rewrite assoc_find_graph by (apply out_columns_cols; auto).
    assert (Hn : forall i, (i < 3)%nat -> str_eqb c (nth i extras []) = false).
    { intros i Hi. apply str_eqb_neq. intros E. apply Hx. rewrite E. apply nth_In. cbn. lia. }
    rewrite !Hn by lia. reflexivity.
Qed.

Lemma merge_csvs_some fmt dir out :
  merge_csvs fmt dir = Some out ->
  mo_rows out = map (out_row fmt (ms_columns (merge_scan (list_csv_files dir)))) (merge_items dir) /\
  mo_total_rows out = ms_total (merge_scan (list_csv_files dir)) /\
  mo_unique out = Z.of_nat (List.length (ms_seen (merge_scan (list_csv_files dir)))) /\
  mo_skipped out = ms_skipped (merge_scan (list_csv_files dir)).
Proof.
  unfold merge_csvs. destruct (is_nil (list_csv_files dir)); [discriminate|].
  intros E. injection E as <-. simpl. auto.
Qed.

Lemma merge_events_in dir e :
  In e (merge_events dir) <->
  exists f r, In f (list_csv_files dir) /\ csv_fieldnames f <> [] /\
              In DEDUP_COL (csv_fieldnames f) /\ In r (csv_rows f) /\
              e = (csv_mtime f, csv_name f, r).
Proof.
  unfold merge_events. rewrite in_flat_map. split.
  - intros [f [Hf He]]. unfold file_events in He.
    destruct (is_nil (csv_fieldnames f)) eqn:E1, (str_in DEDUP_COL (csv_fieldnames f)) eqn:E2;
      simpl in He; try contradiction.
    apply in_map_iff in He. destruct He as [r [<- Hr]].
    apply is_nil_false in E1. apply str_in_iff in E2. exists f, r. auto 10.
  - intros (f & r & Hf & Hn & Hd & Hr & ->). exists f. split; auto.
    unfold file_events. apply is_nil_false in Hn. apply str_in_iff in Hd.
    rewrite Hn, Hd. simpl. apply in_map_iff. eauto.
Qed.

Lemma NoDup_map_inj {A B} (g : A -> B) l :
  (forall x y, g x = g y -> x = y) -> NoDup l -> NoDup (map g l).
Proof.
  intros Hg. induction 1 as [|x l Hx Hl IH]; simpl; constructor; auto.
  intros Hin. apply in_map_iff in Hin. destruct Hin as [y [Ey Hy]].
  apply Hg in Ey. subst. contradiction.
Qed.

Lemma out_rows_keys fmt cols (items : list (pystr * Entry)) :
  map (out_field "normalized_page_url") (map (out_row fmt cols) items)
  = map (fun k => Some (Some k)) (map fst items).
Proof.
  rewrite !map_map. apply map_ext. intros [k [[m f] r]]. cbv beta.
  destruct (out_row_fields fmt cols k m f r) as (Hk & _). exact Hk.
Qed.

Lemma merge_items_sorted dir :
  Sorted (fun x y => entry_mtime y <= entry_mtime x) (merge_items dir).
Proof. apply sort_desc_sorted. Qed.

(** Among rows of equal snapshot time the output keeps the order in
    which their keys were first met. *)
Lemma merge_items_ties dir x y :
  before (merge_items dir) x y -> entry_mtime x = entry_mtime y ->
  before (usable_keys dir) (fst x) (fst y).
Proof.
  intros Hb Et.
  apply (before_filter_in (fun z => entry_mtime z =? entry_mtime x)) in Hb;
    [| apply Z.eqb_refl | apply Z.eqb_eq; auto].
  unfold merge_items in Hb. rewrite sort_desc_filter in Hb.
  apply before_filter in Hb. rewrite merge_seen_eq in Hb.
  apply (before_map fst) in Hb.
  destruct (merge_fold_inv (merge_events dir)) as (K & _).
  simpl in K. unfold usable_keys.
  change (filter (fun k => negb (is_nil k)) (map entry_key (merge_events dir)))
    with (@filter pystr (fun k => negb (is_nil k)) (map entry_key (merge_events dir))).
  rewrite <- K. exact Hb.
Qed.

End MergeResults.

(** ** The substitution loop of the decoder *)

Section DecoderFacts.
Context `{PyTables}.

Lemma size_nat_bound p : Zpos p < 2 ^ Z.of_nat (Pos.size_nat p).
Proof.
  induction p as [p IH|p IH|]; simpl Pos.size_nat; try (simpl; lia);
    rewrite Nat2Z.inj_succ, Z.pow_succ_r by lia; lia.
Qed.

Lemma py_str_int_digit d : 0 <= d < 10 -> py_str_int d = [48 + d].
Proof.
  intros Hd.
  assert (d = 0 \/ d = 1 \/ d = 2 \/ d = 3 \/ d = 4 \/ d = 5 \/ d = 6 \/ d = 7 \/ d = 8 \/ d = 9)
    as Hc by lia.
  repeat destruct Hc as [-> | Hc]; try reflexivity. subst; reflexivity.
Qed.

Lemma int_to_base_loop_spec a (Ha : 2 <= a <= 36) :
  forall f1 f2 n ds, 0 < n -> n < 2 ^ Z.of_nat f1 -> n < Z.of_nat f2 ->
  int_to_base_loop f1 n a ds = Ret (base_repr f2 n a ++ List.concat ds).
Proof.
  induction f1 as [|f IH]; intros f2 n ds Hn H1 H2.
  { simpl in H1. lia. }
  destruct f2 as [|f2]; [lia|].
  cbn [int_to_base_loop]. replace (0 <? n) with true by (symmetry; apply Z.ltb_lt; lia).
  replace (a =? 0) with false by (symmetry; apply Z.eqb_neq; lia).
  assert (Hm : 0 <= n mod a < a) by (apply Z.mod_pos_bound; lia).
  assert (Hdig : (if n mod a <? 10 then Ret (py_str_int (n mod a))
                  else if 1114111 <? 97 + n mod a - 10 then Raise ValueError
                  else Ret [97 + n mod a - 10]) = Ret [spec_digit (n mod a)]).
  { unfold spec_digit. destruct (n mod a <? 10) eqn:E.
    - apply Z.ltb_lt in E. rewrite py_str_int_digit by lia. reflexivity.
    - replace (1114111 <? 97 + n mod a - 10) with false by (symmetry; apply Z.ltb_ge; lia).
      f_equal. f_equal. lia. }
  rewrite Hdig. simpl obind. simpl base_repr.
  destruct (n <? a) eqn:Ena.
  - apply Z.ltb_lt in Ena.
    rewrite Z.div_small, Z.mod_small by lia.
    destruct f; simpl; reflexivity.
  - apply Z.ltb_ge in Ena.
    assert (Hq : 0 < n / a) by (apply Z.div_str_pos; lia).
    assert (Hq1 : n / a < n) by (apply Z.div_lt; lia).
    assert (Hq2 : n / a < 2 ^ Z.of_nat f).
    { apply Z.div_lt_upper_bound; [lia|].
      rewrite Nat2Z.inj_succ, Z.pow_succ_r in H1 by lia.
      assert (0 < 2 ^ Z.of_nat f) by (apply Z.pow_pos_nonneg; lia). nia. }
    rewrite (IH f2) by lia. simpl. rewrite <- app_assoc. reflexivity.
Qed.

Lemma int_to_base_spec n a :
  0 <= n -> 2 <= a <= 36 -> int_to_base n a = Ret (spec_key n a).
Proof.
  intros Hn Ha. unfold int_to_base, spec_key.
  destruct (n =? 0) eqn:E0.
  - apply Z.eqb_eq in E0. subst. simpl.
    replace (0 <? a) with true by (symmetry; apply Z.ltb_lt; lia). reflexivity.
  - apply Z.eqb_neq in E0.
    rewrite (int_to_base_loop_spec a Ha _ (S (Z.to_nat n))) by
      (try lia; unfold size_fuel; rewrite Nat2Z.inj_succ, Z.pow_succ_r by lia;
       pose proof (size_nat_bound (Z.to_pos n)) as B; rewrite Z2Pos.id in B by lia; lia).
    simpl. rewrite app_nil_r. reflexivity.
Qed.

Lemma is_word_digit x : 48 <= x <= 57 -> is_word x = true.
Proof.
  intros Hx. unfold is_word.
  replace (is_ascii_digit x) with true
    by (symmetry; unfold is_ascii_digit; apply andb_true_intro; split; apply Z.leb_le; lia).
  rewrite orb_true_r. reflexivity.
Qed.

Lemma is_word_lower x : 97 <= x <= 122 -> is_word x = true.
Proof.
  intros Hx. unfold is_word, is_ascii_alpha.
  replace (is_ascii_lower x) with true
    by (symmetry; unfold is_ascii_lower; apply andb_true_intro; split; apply Z.leb_le; lia).
  rewrite orb_true_r. reflexivity.
Qed.

Lemma spec_digit_word a d : a <= 36 -> 0 <= d < a -> is_word (spec_digit d) = true.
Proof.
  intros Ha Hd. unfold spec_digit. destruct (d <? 10) eqn:E.
  - apply Z.ltb_lt in E. apply is_word_digit. lia.
  - apply Z.ltb_ge in E. apply is_word_lower. lia.
Qed.

Lemma base_repr_word a (Ha : 2 <= a <= 36) :
  forall fuel n x, 0 <= n -> In x (base_repr fuel n a) -> is_word x = true /\ x <> 92.
Proof.
  assert (Hd : forall d, 0 <= d < a -> is_word (spec_digit d) = true /\ spec_digit d <> 92).
  { intros d Hdd. split; [apply (spec_digit_word a); lia|].
    unfold spec_digit. destruct (d <? 10) eqn:E; [apply Z.ltb_lt in E | apply Z.ltb_ge in E]; lia. }
  induction fuel as [|f IH]; intros n x Hn Hx; simpl in Hx; [contradiction|].
  destruct (n <? a) eqn:E.
  - apply Z.ltb_lt in E. destruct Hx as [<- | []]. apply Hd. lia.
  - apply in_app_iff in Hx. destruct Hx as [Hx | [<- | []]].
    + apply (IH (n / a)); auto. apply Z.div_pos; lia.
    + apply Hd. apply Z.mod_pos_bound. lia.
Qed.

Lemma base_repr_nonempty fuel n a : base_repr (S fuel) n a <> [].
Proof.
  simpl. destruct (n <? a); [discriminate|].
  intros E. apply app_eq_nil in E. destruct E as [_ E]. discriminate E.
Qed.

Lemma is_prefix_app (p s : pystr) : is_prefix p s = true -> exists r, s = p ++ r.
Proof.
  revert s; induction p as [|x p IH]; intros s E; [exists s; reflexivity|].
  destruct s as [|y s]; simpl in E; [discriminate|].
  apply andb_true_iff in E. destruct E as [Exy E]. apply Z.eqb_eq in Exy. subst.
  destruct (IH s E) as [r ->]. exists r. reflexivity.
Qed.

Lemma last_map_word (key : pystr) :
  key <> [] -> (forall x, In x key -> is_word x = true) ->
  exists w, last (map Some key) None = Some w /\ is_word w = true.
Proof.
  induction key as [|x key IH]; intros Hne Hw; [congruence|].
  destruct key as [|y key].
  - exists x. split; auto. apply Hw. simpl; auto.
  - destruct IH as [w [E Hw']]; [discriminate | intros z Hz; apply Hw; simpl in *; tauto |].
    exists w. split; auto.
Qed.

(** For a key of word characters, [\b key \b] matches exactly the
    occurrences of [key] with no word character on either side. *)
Lemma sub_scan_whole_words (key rep : pystr) :
  key <> [] -> (forall x, In x key -> is_word x = true) ->
  forall fuel before s,
  sub_scan fuel key rep before s = replace_whole_words fuel key rep before s.
Proof.
  intros Hne Hw. destruct (last_map_word key Hne Hw) as [w [Hl Hww]].
  induction fuel as [|f IH]; intros before s; simpl; auto.
  destruct s as [|c t]; auto.
  assert (Hc : at_boundary before (Some c) && is_prefix key (c :: t)
               && at_boundary (last (map Some key) None) (nth_error (c :: t) (List.length key))
             = negb (word_opt before) && is_prefix key (c :: t)
               && negb (word_opt (nth_error (c :: t) (List.length key)))).
  { destruct (is_prefix key (c :: t)) eqn:Ep; [|rewrite !andb_false_r; reflexivity].
    destruct (is_prefix_app _ _ Ep) as [r Er].
    destruct key as [|k0 key']; [congruence|]. simpl in Er. inversion Er as [[Ec Et]]. subst k0.
    unfold at_boundary. rewrite Hl. simpl word_opt at 2 3.
    assert (Hc0 : is_word c = true) by (apply Hw; left; reflexivity).
    rewrite Hc0, Hww.
    destruct (word_opt before), (word_opt (nth_error (c :: key' ++ r) (List.length (c :: key'))));
      reflexivity. }
  rewrite Hc. rewrite !IH. reflexivity.
Qed.

Lemma mem_char_false c (s : pystr) : mem_char c s = false <-> ~ In c s.
Proof.
  unfold mem_char. split.
  - intros E Hin. assert (existsb (Z.eqb c) s = true) by (apply existsb_exists; exists c; split; auto; apply Z.eqb_refl). congruence.
  - intros Hn. destruct (existsb (Z.eqb c) s) eqn:E; auto.
    apply existsb_exists in E. destruct E as [x [Hx Ex]]. apply Z.eqb_eq in Ex. subst. contradiction.
Qed.

Lemma re_sub_word_literal (key val s : pystr) :
  key <> [] -> (forall x, In x key -> is_word x = true) -> ~ In 92 val ->
  re_sub_word key val s = Ret (replace_whole_words (List.length s) key val None s).
Proof.
  intros Hne Hw Hv. unfold re_sub_word.
  apply mem_char_false in Hv. rewrite Hv. rewrite sub_scan_whole_words; auto.
Qed.

Lemma dict_value_spec (k : list pystr) n key :
  dict_value k n key = match nth_error k n with
                       | Some v => if is_nil v then key else v
                       | None => key
                       end.
Proof.
  unfold dict_value. destruct (nth_error k n) as [v|] eqn:E.
  - assert (Hl : (n < List.length k)%nat) by (apply nth_error_Some; congruence).
    apply Nat.ltb_lt in Hl. rewrite Hl. rewrite (nth_error_nth k n [] E).
    destruct (is_nil v); reflexivity.
  - apply nth_error_None in E. apply Nat.ltb_ge in E. rewrite E. reflexivity.
Qed.

Lemma split_char_in c (s v : pystr) x : In v (split_char c s) -> In x v -> In x s.
Proof.
  revert v; induction s as [|y s IH]; intros v Hv Hx; simpl in Hv.
  - destruct Hv as [<- | []]. contradiction.
  - destruct (y =? c).
    + destruct Hv as [<- | Hv]; [contradiction|]. right. eauto.
    + destruct (split_char c s) as [|p ps] eqn:E.
      * destruct Hv as [<- | []]. destruct Hx as [<- | []]. left; auto.
      * destruct Hv as [<- | Hv].
        -- destruct Hx as [<- | Hx]; [left; auto | right; apply (IH p); [try rewrite E; left; auto | exact Hx]].
        -- right. apply (IH v); [try rewrite E; right; exact Hv | exact Hx].
Qed.

(** The loop [for n in range(c - 1, -1, -1)] is the substitution of the
    specification when the base is 2..36 and no dictionary entry holds a
    backslash. *)
Lemma subst_down_spec a (k : list pystr) :
  2 <= a <= 36 -> (forall v, In v k -> ~ In 92 v) ->
  forall cnt text, subst_down cnt a k text = Ret (spec_substitute cnt a k text).
Proof.
  intros Ha Hk. induction cnt as [|n IH]; intros text; [reflexivity|].
  cbn [subst_down spec_substitute].
  rewrite int_to_base_spec by lia. cbn [obind].
  assert (Hne : spec_key (Z.of_nat n) a <> []) by apply base_repr_nonempty.
  assert (Hw : forall x, In x (spec_key (Z.of_nat n) a) -> is_word x = true /\ x <> 92).
  { intros x Hx. apply (base_repr_word a Ha (S (Z.to_nat (Z.of_nat n))) (Z.of_nat n)); auto. lia. }
  rewrite re_sub_word_literal; auto.
  - cbn [obind]. rewrite dict_value_spec. apply IH.
  - intros x Hx. apply Hw; auto.
  - rewrite dict_value_spec. destruct (nth_error k n) as [v|] eqn:E.
    + destruct (is_nil v).
      * intros Hx. apply Hw in Hx. tauto.
      * apply Hk. eapply nth_error_In; eauto.
    + intros Hx. apply Hw in Hx. tauto.
Qed.

Lemma decode_packed_eval_spec payload p_part a c k_part kstr :
  packed_fields payload = Some (p_part, a, c, k_part) ->
  dict_string k_part = Ret kstr -> 2 <= a <= 36 -> ~ In 92 kstr ->
  decode_packed_eval payload
  = Ret (Some (spec_substitute (Z.to_nat c) a (split_char 124 kstr) (payload_text p_part))).
Proof.
  intros Hf Hd Ha Hk. unfold decode_packed_eval. rewrite Hf, Hd. cbn [obind].
  rewrite subst_down_spec; auto.
  intros v Hv Hin. apply Hk. eapply split_char_in; eauto.
Qed.

Lemma decode_packed_eval_ret_none payload :
  decode_packed_eval payload = Ret None <-> packed_fields payload = None.
Proof.
  unfold decode_packed_eval. split.
  - destruct (packed_fields payload) as [[[[p a] c] kp]|]; auto.
    destruct (dict_string kp); cbn [obind]; try discriminate.
    destruct (subst_down (Z.to_nat c) a (split_char 124 a0) (payload_text p)); cbn [obind]; discriminate.
  - intros ->. reflexivity.
Qed.

Lemma decode_packed_eval_no_marker payload :
  py_find start_marker payload = None -> decode_packed_eval payload = Ret None.
Proof.
  intros E. apply decode_packed_eval_ret_none. unfold packed_fields, packed_args_str.
  rewrite E. reflexivity.
Qed.

End DecoderFacts.

(** ** Fetching with retries *)

Section FetchFacts.
Context `{PyTables}.

Lemma fetcher_fetch_ok uc ae ce : fetch_ok (fetcher_fetch uc ae ce).
Proof.
  unfold fetch_ok, fetcher_fetch. destruct uc.
  - destruct ce as [[] html| | |]; simpl; eauto.
  - destruct ae as [st t| |]; simpl; try destruct (st =? 200); simpl; eauto.
Qed.

Lemma fetch_aiohttp_ok ae : fetch_ok (fetch_aiohttp ae).
Proof.
  unfold fetch_ok, fetch_aiohttp. destruct ae as [st t| |]; eauto.
  destruct (st =? 200); simpl; eauto. destruct (contains _ _); eauto.
Qed.

Lemma fetch_crawl4ai_ok ce : fetch_ok (fetch_crawl4ai ce).
Proof.
  unfold fetch_ok, fetch_crawl4ai. destruct ce as [b html| | |]; eauto.
  destruct (truthy html); eauto.
Qed.

Lemma missav_loop_ok uc aio crawl sc retries :
  forall fuel attempt, fetch_ok (missav_retry_loop uc aio crawl sc retries fuel attempt).
Proof.
  unfold fetch_ok. induction fuel as [|f IH]; intros attempt; simpl; eauto.
  destruct (fetcher_fetch_ok uc (aio attempt) (crawl attempt)) as [-> | [h ->]]; simpl; auto.
  destruct (truthy h); eauto.
  destruct (Z.of_nat attempt <? retries); auto. destruct (sc attempt); auto.
Qed.

Lemma scraper_loop_ok aio fb sc :
  forall fuel attempt, fetch_ok (scraper_retry_loop aio fb sc fuel attempt).
Proof.
  unfold fetch_ok. induction fuel as [|f IH]; intros attempt; simpl; eauto.
  destruct (fetch_aiohttp_ok (aio attempt)) as [-> | [h ->]]; simpl; auto.
  destruct (truthy h); eauto.
  destruct (Z.of_nat attempt =? RETRIES); [apply fetch_crawl4ai_ok|].
  destruct (sc attempt); auto.
Qed.

Lemma fetch_ok_cases (o : outcome (option pystr)) :
  fetch_ok o -> o <> Diverge /\ forall e, o = Raise e -> e = CancelledError.
Proof.
  intros [-> | [h ->]]; split; try discriminate; intros e E; inversion E; auto.
Qed.

Lemma missav_loop_none uc aio crawl sc retries :
  (forall n, exists h, fetcher_fetch uc (aio n) (crawl n) = Ret h /\ truthy h = false) ->
  (forall n, sc n = false) ->
  forall fuel attempt, missav_retry_loop uc aio crawl sc retries fuel attempt = Ret None.
Proof.
  intros Hf Hs. induction fuel as [|f IH]; intros attempt; simpl; auto.
  destruct (Hf attempt) as [h [-> Ht]]. simpl. rewrite Ht, Hs.
  destruct (Z.of_nat attempt <? retries); auto.
Qed.

Lemma missav_loop_ret uc aio crawl sc retries :
  (forall n, aio n <> AioCancel) -> (forall n, crawl n <> CrawlCancel) -> (forall n, sc n = false) ->
  forall fuel attempt, exists h, missav_retry_loop uc aio crawl sc retries fuel attempt = Ret h.
Proof.
  intros Ha Hc Hs. induction fuel as [|f IH]; intros attempt; simpl; eauto.
  destruct (fetcher_fetch_ok uc (aio attempt) (crawl attempt)) as [E | [h ->]].
  - exfalso. unfold fetcher_fetch in E. destruct uc.
    + destruct (crawl attempt) as [[] html| | |] eqn:Ec; try discriminate; apply (Hc attempt); auto.
    + destruct (aio attempt) as [st t| |] eqn:Ea; try (destruct (st =? 200); discriminate);
        try discriminate. apply (Ha attempt); auto.
  - simpl. destruct (truthy h); eauto. rewrite Hs.
    destruct (Z.of_nat attempt <? retries); auto.
Qed.

Lemma scraper_loop_none aio fb sc :
  (forall n, exists h, fetch_aiohttp (aio n) = Ret h /\ truthy h = false) ->
  fetch_crawl4ai fb = Ret None ->
  (forall n, sc n = false) ->
  forall fuel attempt, (Z.of_nat attempt <= RETRIES)%Z -> (Z.to_nat RETRIES + 1 - attempt <= fuel)%nat ->
  scraper_retry_loop aio fb sc fuel attempt = Ret None.
Proof.
  intros Hf Eb Hs. induction fuel as [|f IH]; intros attempt Ha Hfu.
  { unfold RETRIES in *. lia. }
  simpl. destruct (Hf attempt) as [h [-> Ht]]. simpl. rewrite Ht.
  destruct (Z.of_nat attempt =? RETRIES) eqn:Er.
  - exact Eb.
  - rewrite Hs. apply Z.eqb_neq in Er. apply IH; unfold RETRIES in *; lia.
Qed.

Lemma scraper_loop_ret aio fb sc :
  (forall n, aio n <> AioCancel) -> fb <> CrawlCancel -> (forall n, sc n = false) ->
  forall fuel attempt, exists h, scraper_retry_loop aio fb sc fuel attempt = Ret h.
Proof.
  intros Ha Hc Hs. induction fuel as [|f IH]; intros attempt; simpl; eauto.
  destruct (fetch_aiohttp_ok (aio attempt)) as [E | [h ->]].
  - exfalso. unfold fetch_aiohttp in E.
    destruct (aio attempt) as [st t| |] eqn:Ea; try discriminate.
    + destruct (st =? 200); try discriminate. destruct (contains _ _); discriminate.
    + apply (Ha attempt); auto.
  - simpl. destruct (truthy h); eauto.
    destruct (Z.of_nat attempt =? RETRIES).
    + destruct (fetch_crawl4ai_ok fb) as [E | [h' ->]]; eauto.
      exfalso. unfold fetch_crawl4ai in E. destruct fb as [b html| | |]; try discriminate; auto.
      destruct (truthy html); discriminate.
    + rewrite Hs. auto.
Qed.

End FetchFacts.

(** ** Splitting URLs with an authority *)

Section UrlFacts.
Context `{PyTables}.

Lemma filter_all {A} (p : A -> bool) l : (forall x, In x l -> p x = true) -> filter p l = l.
Proof.
  induction l as [|x l IH]; intros Hp; simpl; auto.
  rewrite (Hp x) by (simpl; auto). rewrite IH; auto. intros y Hy; apply Hp; simpl; auto.
Qed.

Lemma firstn_length_app {A} (a b : list A) : firstn (List.length a) (a ++ b) = a.
Proof. induction a as [|x a IH]; simpl; f_equal; auto. Qed.

Lemma skipn_length_app {A} (a b : list A) : skipn (List.length a) (a ++ b) = b.
Proof. induction a as [|x a IH]; simpl; auto. Qed.

Lemma find_from_char_app (c : Z) (a t : pystr) i :
  ~ In c a -> find_from [c] (a ++ c :: t) i = Some (i + List.length a)%nat.
Proof.
  revert i; induction a as [|x a IH]; intros i Hn; simpl.
  - rewrite Z.eqb_refl. simpl. f_equal. lia.
  - replace (c =? x) with false by (symmetry; apply Z.eqb_neq; intros ->; apply Hn; simpl; auto).
    simpl. rewrite IH by (intros Hin; apply Hn; simpl; auto). f_equal. lia.
Qed.

Lemma split_netloc_rest_app (host rest : pystr) :
  (forall c, In c host -> c <> 47 /\ c <> 63 /\ c <> 35) ->
  match rest with [] => True | c :: _ => c = 47 \/ c = 63 \/ c = 35 end ->
  split_netloc_rest (host ++ rest) = (host, rest).
Proof.
  intros Hh Hr. induction host as [|x host IH]; simpl.
  - destruct rest as [|c t]; simpl; auto.
    destruct Hr as [-> | [-> | ->]]; reflexivity.
  - destruct (Hh x) as (H1 & H2 & H3); [simpl; auto|].
    replace ((x =? 47) || (x =? 63) || (x =? 35)) with false
      by (symmetry; repeat rewrite orb_false_iff; repeat split; apply Z.eqb_neq; auto).
    rewrite IH; auto. intros c Hc; apply Hh; simpl; auto.
Qed.

Lemma scheme_chars_ok c :
  scheme_chars c = true -> c <> 58 /\ url_ctl c = false /\ 32 < c.
Proof.
  unfold scheme_chars, is_ascii_alpha, is_ascii_upper, is_ascii_lower, is_ascii_digit, url_ctl.
  intros E. repeat rewrite orb_true_iff in E. repeat rewrite andb_true_iff in E.
  repeat rewrite Z.leb_le in E. repeat rewrite Z.eqb_eq in E.
  assert (32 < c /\ c <> 58) by lia.
  repeat split; try lia.
Qed.

(** [urlsplit] of ["scheme://host" ++ rest]: the scheme, lowercased, and
    the host come back; the rest is split at ['#'] and ['?']. *)
Lemma urlsplit_authority_gen (d sc host rest : pystr) :
  match sc with c :: _ => is_ascii_alpha c | [] => false end = true ->
  forallb scheme_chars sc = true ->
  (forall c, In c host ->
     is_ascii_cp c = true /\ c <> 47 /\ c <> 63 /\ c <> 35 /\ c <> 91 /\ c <> 93 /\ url_ctl c = false) ->
  (forall c, In c rest -> url_ctl c = false) ->
  match rest with [] => True | c :: _ => c = 47 \/ c = 63 \/ c = 35 end ->
  urlsplit_with (sc ++ [58; 47; 47] ++ host ++ rest) d =
    let '(url, fragment) := match split_once 35 rest with
                            | Some (a, b) => (a, b) | None => (rest, []) end in
    let '(url, query) := match split_once 63 url with
                         | Some (a, b) => (a, b) | None => (url, []) end in
    Some {| sr_scheme := py_lower sc; sr_netloc := host; sr_path := url;
            sr_query := query; sr_fragment := fragment |}.
Proof.
  intros Ha Hs Hh Hr Hrest.
  assert (Hsc : forall c, In c sc -> scheme_chars c = true) by (apply forallb_forall; auto).
  destruct sc as [|c0 sc']; [discriminate|].
  assert (Hc0 := scheme_chars_ok c0 (Hsc c0 (or_introl eq_refl))).
  unfold urlsplit_with.
  set (U := (c0 :: sc') ++ [58; 47; 47] ++ host ++ rest).
  assert (HU1 : lstrip_by WHATWG_C0_CONTROL_OR_SPACE U = U).
  { unfold U. simpl. unfold WHATWG_C0_CONTROL_OR_SPACE.
    replace ((0 <=? c0) && (c0 <=? 32)) with false
      by (symmetry; apply andb_false_iff; right; apply Z.leb_gt; lia). reflexivity. }
  assert (HU2 : filter (fun c => negb ((c =? 9) || (c =? 13) || (c =? 10))) U = U).
  { apply filter_all. intros x Hx. unfold U in Hx. fold (url_ctl x). rewrite in_app_iff in Hx.
    destruct Hx as [Hx | Hx]; [apply Hsc, scheme_chars_ok in Hx; destruct Hx as (_ & -> & _); auto|].
    simpl in Hx. destruct Hx as [<- | [<- | [<- | Hx]]]; try reflexivity.
    apply in_app_iff in Hx. destruct Hx as [Hx | Hx].
    - destruct (Hh x Hx) as (_ & _ & _ & _ & _ & _ & ->). reflexivity.
    - rewrite (Hr x Hx). reflexivity. }
  rewrite HU1, HU2.
  assert (Hf : py_find [58] U = Some (List.length (c0 :: sc'))).
  { unfold py_find, U. change ([58; 47; 47] ++ host ++ rest) with (58 :: [47; 47] ++ host ++ rest).
    rewrite find_from_char_app; auto.
    intros Hin. apply Hsc, scheme_chars_ok in Hin. tauto. }
  rewrite Hf.
  assert (Hfirst : firstn (List.length (c0 :: sc')) U = c0 :: sc') by apply firstn_length_app.
  assert (Hskip : skipn (S (List.length (c0 :: sc'))) U = [47; 47] ++ host ++ rest).
  { unfold U. replace (S (List.length (c0 :: sc'))) with (List.length ((c0 :: sc') ++ [58]))
      by (rewrite length_app; simpl; lia).
    change ([58; 47; 47] ++ host ++ rest) with ([58] ++ [47; 47] ++ host ++ rest).
    rewrite app_assoc. apply skipn_length_app. }
  rewrite Hfirst, Hskip.
  replace (forallb scheme_chars (c0 :: sc')) with true by (symmetry; exact Hs).
  unfold U at 1. simpl (match _ with c :: _ => is_ascii_alpha c | [] => false end).
  rewrite Ha. simpl (((0 <? _)%nat && true) && true).
  cbn [app is_prefix Z.eqb Pos.eqb andb skipn].
  rewrite split_netloc_rest_app.
  2: { intros c Hc. destruct (Hh c Hc) as (_ & ? & ? & ? & _). auto. }
  2: exact Hrest.
  replace (mem_char 91 host) with false
    by (symmetry; apply mem_char_false; intros Hin; destruct (Hh 91 Hin) as (_ & _ & _ & _ & ? & _); auto).
  replace (mem_char 93 host) with false
    by (symmetry; apply mem_char_false; intros Hin; destruct (Hh 93 Hin) as (_ & _ & _ & _ & _ & ? & _); auto).
  simpl (false && _ || _).
  replace (checknetloc host) with true.
  2: { symmetry. unfold checknetloc. replace (is_ascii_str host) with true; [rewrite orb_true_r; reflexivity|].
       symmetry. apply forallb_forall. intros c Hc. apply (Hh c Hc). }
  destruct (split_once 35 rest) as [[a b]|];
    [destruct (split_once 63 a) as [[a' b']|] | destruct (split_once 63 rest) as [[a' b']|]];
    reflexivity.
Qed.

Lemma urlsplit_authority (d sc host rest : pystr) :
  match sc with c :: _ => is_ascii_alpha c | [] => false end = true ->
  forallb scheme_chars sc = true ->
  (forall c, In c host ->
     is_ascii_cp c = true /\ c <> 47 /\ c <> 63 /\ c <> 35 /\ c <> 91 /\ c <> 93 /\ url_ctl c = false) ->
  (forall c, In c rest -> url_ctl c = false) ->
  match rest with [] => True | c :: _ => c = 47 \/ c = 63 \/ c = 35 end ->
  exists sr, urlsplit_with (sc ++ [58; 47; 47] ++ host ++ rest) d = Some sr /\
             sr_scheme sr = py_lower sc /\ sr_netloc sr = host.
Proof.
  intros Ha Hs Hh Hr Hrest. rewrite urlsplit_authority_gen by auto.
  destruct (split_once 35 rest) as [[a b]|];
    [destruct (split_once 63 a) as [[a' b']|] | destruct (split_once 63 rest) as [[a' b']|]];
    eexists; split; eauto.
Qed.

End UrlFacts.

(** ** Normalizing URLs *)

Section NormalizeFacts.
Context `{PyTables}.

Lemma pair_leb_total x y : pair_leb x y = false -> pair_leb y x = true.
Proof.
  unfold pair_leb. destruct x as [a b], y as [c d]; simpl.
  destruct (str_eqb a c) eqn:E.
  - apply str_eqb_eq in E. rewrite <- E, str_eqb_refl, str_ltb_irrefl. simpl.
    apply str_leb_total.
  - apply str_eqb_neq in E. destruct (str_ltb_total a c E) as [E' | E'].
    + rewrite E'. discriminate.
    + rewrite E'. reflexivity.
Qed.

Lemma pair_leb_key x y : pair_leb x y = true -> str_leb (fst x) (fst y) = true.
Proof.
  unfold pair_leb, str_leb. rewrite !orb_true_iff, andb_true_iff. intuition.
Qed.

Lemma normalize_url_unfold (u : pystr) :
  normalize_url (Some u) =
    if is_nil (py_strip u) then []
    else match normalize_try (py_strip u) with Some r => r | None => py_strip u end.
Proof. reflexivity. Qed.

End NormalizeFacts.

(** ** The listing crawler *)

Section CrawlFacts.
Context `{PyTables}.
Variable thumbnail_hrefs : pystr -> list (option pystr).
Variable next_href : pystr -> option pystr.
Variable fetch : pystr -> outcome (option pystr).

Lemma obind_ret_inv {A B} (m : outcome A) (k : A -> outcome B) r :
  obind m k = Ret r -> exists x, m = Ret x /\ k x = Ret r.
Proof. destruct m as [x| |]; simpl; try discriminate. eauto. Qed.

Lemma set_add_in s x y : In y (set_add s x) <-> In y s \/ y = x.
Proof.
  unfold set_add. destruct (str_in x s) eqn:E.
  - apply str_in_iff in E. split; [auto|]. intros [Hy | ->]; auto.
  - rewrite in_app_iff. simpl. intuition.
Qed.

Lemma set_add_nodup s x : NoDup s -> NoDup (set_add s x).
Proof.
  unfold set_add. destruct (str_in x s) eqn:E; auto.
  apply str_in_false in E. intros Hn.
  apply NoDup_app; auto; [constructor; auto; constructor|].
  intros y Hy [<- | []]. auto.
Qed.

Lemma add_joined_inv u ps acc r :
  add_joined u ps acc = Ret r ->
  NoDup acc ->
  NoDup r /\ (forall x, In x r -> In x acc \/ exists p, In p ps /\ urljoin u p = Some x).
Proof.
  revert acc. induction ps as [|p ps IH]; intros acc E Hn; simpl in E.
  - injection E as <-. auto.
  - destruct (urljoin u p) as [j|] eqn:J; [|discriminate].
    destruct (IH _ E (set_add_nodup _ _ Hn)) as [Hr Hin]. split; auto.
    intros x Hx. destruct (Hin x Hx) as [Hs | (p' & Hp' & Hj)].
    + apply set_add_in in Hs. destruct Hs as [Hs | ->]; auto.
      right. exists p. simpl; auto.
    + right. exists p'. simpl; auto.
Qed.

Lemma crawl_loop_inv max_pages fuel all seen url pn r :
  crawl_loop thumbnail_hrefs next_href fetch max_pages fuel all seen url pn = Ret r ->
  NoDup all -> (forall x, In x all -> crawled_post thumbnail_hrefs fetch x) ->
  NoDup r /\ (forall x, In x r -> crawled_post thumbnail_hrefs fetch x).
Proof.
  revert all seen url pn. induction fuel as [|fuel IH]; intros all seen url pn E Hn Hp;
    simpl in E.
  - injection E as <-. auto.
  - destruct url as [u|]; [|injection E as <-; auto].
    destruct (truthy (Some u) && negb (str_in u seen) && (pn <? max_pages)); [|injection E as <-; auto].
    apply obind_ret_inv in E. destruct E as (html & Ef & E).
    destruct html as [h|]; [|injection E as <-; auto].
    destruct (is_nil h); [injection E as <-; auto|].
    apply obind_ret_inv in E. destruct E as (all' & Ea & E).
    apply obind_ret_inv in E. destruct E as (next & _ & E).
    destruct (add_joined_inv _ _ _ _ Ea Hn) as [Hn' Hin].
    apply (IH _ _ _ _ E Hn'). intros x Hx.
    destruct (Hin x Hx) as [Ha | (p & Hp' & Hj)]; auto.
    exists u, h, p. auto.
Qed.

End CrawlFacts.

Lemma sorted_nodup_strict (l : list pystr) :
  Sorted (fun a b => str_leb a b = true) l -> NoDup l ->
  Sorted (fun a b => str_ltb a b = true) l.
Proof.
  induction 1 as [|a l Hs IH Hh]; intros Hn; constructor.
  - apply IH. inversion Hn; auto.
  - destruct Hh as [|b l' Hab]; constructor.
    inversion Hn as [|? ? Hnot]. unfold str_leb in Hab.
    apply orb_true_iff in Hab. destruct Hab as [Hab | Hab]; auto.
    apply str_eqb_eq in Hab. subst b. exfalso. apply Hnot. simpl; auto.
Qed.

Lemma strict_strongly (l : list pystr) :
  Sorted (fun a b => str_ltb a b = true) l -> StronglySorted (fun a b => str_ltb a b = true) l.
Proof.
  apply Sorted_StronglySorted. intros a b c H1 H2. eapply str_ltb_trans; eauto.
Qed.

Lemma strict_sorted_unique (l l' : list pystr) :
  Sorted (fun a b => str_ltb a b = true) l -> Sorted (fun a b => str_ltb a b = true) l' ->
  (forall x, In x l <-> In x l') -> l = l'.
Proof.
  intros Hs Hs'. apply strict_strongly in Hs, Hs'. revert l' Hs'.
  induction Hs as [|a l Hs IH Ha]; intros l' Hs' Hiff.
  - destruct l' as [|b l']; auto. exfalso. apply (proj2 (Hiff b)). simpl; auto.
  - destruct Hs' as [|b l' Hs' Hb].
    + exfalso. apply (proj1 (Hiff a)). simpl; auto.
    + assert (a = b) as <-.
      { destruct (proj1 (Hiff a) (or_introl eq_refl)) as [-> | Ha'] ; auto.
        destruct (proj2 (Hiff b) (or_introl eq_refl)) as [Hb' | Hb']; auto.
        pose proof (proj1 (Forall_forall _ _) Hb a Ha') as H1.
        pose proof (proj1 (Forall_forall _ _) Ha b Hb') as H2.
        pose proof (str_ltb_trans _ _ _ H1 H2) as H3. rewrite str_ltb_irrefl in H3. discriminate. }
      f_equal. apply IH; auto. intros x. split; intros Hx.
      * destruct (proj1 (Hiff x) (or_intror Hx)) as [E | ?]; auto. rewrite <- E in Hx.
        pose proof (proj1 (Forall_forall _ _) Ha a Hx) as H1. cbv beta in H1. rewrite str_ltb_irrefl in H1. discriminate.
      * destruct (proj2 (Hiff x) (or_intror Hx)) as [E | ?]; auto. rewrite <- E in Hx.
        pose proof (proj1 (Forall_forall _ _) Hb a Hx) as H1. cbv beta in H1. rewrite str_ltb_irrefl in H1. discriminate.
Qed.

(** ** UTF-8 and percent-encoding round trips *)

(** Rewrites a comparison of integers to its value when [lia] decides it. *)
Ltac zcmp :=
  repeat first
    [ rewrite (proj2 (Z.leb_le _ _)) by lia
    | rewrite (proj2 (Z.leb_gt _ _)) by lia
    | rewrite (proj2 (Z.ltb_lt _ _)) by lia
    | rewrite (proj2 (Z.ltb_ge _ _)) by lia
    | rewrite (proj2 (Z.eqb_eq _ _)) by lia
    | rewrite (proj2 (Z.eqb_neq _ _)) by lia ].

(** Proves that bytes lie in the ranges UTF-8 decoding expects. *)
Ltac in_ranges :=
  repeat (apply Forall2_cons; [cbv [cont_range fst snd]; lia|]); apply Forall2_nil.

Section CodecFacts.
Context `{PyTables}.

Lemma utf8_take_conts (rs : list (Z * Z)) (cs r : list Z) :
  List.length rs = List.length cs ->
  Forall2 (fun lh b => fst lh <= b <= snd lh) rs cs ->
  utf8_take rs (cs ++ r) = (cs, List.length cs).
Proof.
  intros _ HF. induction HF as [|[lo hi] b rs cs Hb HF IH]; simpl.
  - destruct r; reflexivity.
  - unfold in_range. simpl in Hb. zcmp. simpl. rewrite IH. reflexivity.
Qed.

Lemma some_eq {A} (x y : A) : Some x = Some y -> y = x.
Proof. congruence. Qed.

Lemma utf8_decode_replace_cons (f : nat) (b : Z) (rest : list Z) :
  utf8_decode_replace (S f) (b :: rest) =
    if b <? 128 then b :: utf8_decode_replace f rest
    else match utf8_follow b with
         | None => 65533 :: utf8_decode_replace f rest
         | Some rs =>
             let '(taken, n) := utf8_take rs rest in
             if (n =? List.length rs)%nat
             then utf8_value b taken :: utf8_decode_replace f (skipn n rest)
             else 65533 :: utf8_decode_replace f (skipn n rest)
         end.
Proof. reflexivity. Qed.

(** One encoded code point decodes back, whatever follows it. *)
Lemma utf8_char_decode (c : Z) (bs r : list Z) (f : nat) :
  utf8_char c = Some bs ->
  utf8_decode_replace (S f) (bs ++ r) = c :: utf8_decode_replace f r.
Proof.
  unfold utf8_char. intros E.
  destruct (Z.ltb_spec c 0); [discriminate|].
  destruct (Z.ltb_spec c 128).
  { apply some_eq in E; subst bs. rewrite <- app_comm_cons, utf8_decode_replace_cons. zcmp. reflexivity. }
  pose proof (Z.div_mod c 64 ltac:(lia)) as Dq.
  pose proof (Z.mod_pos_bound c 64 ltac:(lia)) as Bq.
  set (q := c / 64) in *. set (m := c mod 64) in *.
  destruct (Z.ltb_spec c 2048).
  { apply some_eq in E; subst bs. rewrite <- app_comm_cons, utf8_decode_replace_cons.
    assert (194 <= 192 + q <= 223) by lia.
    zcmp. unfold utf8_follow, in_range. zcmp. cbn [andb orb].
    rewrite (utf8_take_conts [cont_range] [128 + m] r) by (reflexivity || in_ranges).
    cbn [List.length Nat.eqb skipn].
    unfold utf8_value. cbn [List.length Nat.eqb fold_left]. f_equal. lia. }
  destruct ((55296 <=? c) && (c <=? 57343)) eqn:Hs; [discriminate|].
  assert (Hs' : c < 55296 \/ 57343 < c).
  { apply andb_false_iff in Hs. destruct Hs as [Hs | Hs]; [apply Z.leb_gt in Hs | apply Z.leb_gt in Hs]; lia. }
  pose proof (Z.div_mod q 64 ltac:(lia)) as Dq2.
  pose proof (Z.mod_pos_bound q 64 ltac:(lia)) as Bq2.
  assert (E4096 : c / 4096 = q / 64) by (unfold q; rewrite Z.div_div by lia; reflexivity).
  rewrite E4096 in E.
  set (a := q / 64) in *. set (b := q mod 64) in *.
  destruct (Z.ltb_spec c 65536).
  { apply some_eq in E; subst bs. rewrite <- app_comm_cons, utf8_decode_replace_cons.
    assert (224 <= 224 + a <= 239) by lia. zcmp.
    assert (Hcase : a = 0 \/ (1 <= a <= 12) \/ a = 13 \/ (14 <= a <= 15)) by lia.
    assert (Hfol : exists rs, utf8_follow (224 + a) = Some rs /\ List.length rs = 2%nat /\
              Forall2 (fun lh x => fst lh <= x <= snd lh) rs [128 + b; 128 + m]).
    { unfold utf8_follow, in_range.
      destruct Hcase as [Ha | [Ha | [Ha | Ha]]]; zcmp; cbn [andb orb]; zcmp; cbn [andb orb];
        (eexists; split; [reflexivity | split; [reflexivity | in_ranges]]). }
    destruct Hfol as (rs & Hf & Hl & HF). rewrite Hf.
    rewrite utf8_take_conts by (auto; rewrite Hl; reflexivity). rewrite Hl. cbn [List.length Nat.eqb skipn].
    unfold utf8_value. cbn [List.length Nat.eqb fold_left]. f_equal. lia. }
  destruct (Z.leb_spec c 1114111); [|discriminate].
  apply some_eq in E; subst bs.
  pose proof (Z.div_mod a 64 ltac:(lia)) as Dq3.
  pose proof (Z.mod_pos_bound a 64 ltac:(lia)) as Bq3.
  assert (E262 : c / 262144 = a / 64).
  { unfold a, q. rewrite !Z.div_div by lia. reflexivity. }
  rewrite E262. set (t := a / 64) in *. set (a' := a mod 64) in *.
  rewrite <- app_comm_cons, utf8_decode_replace_cons. assert (240 <= 240 + t <= 244) by lia. zcmp.
  assert (Hcase : t = 0 \/ (1 <= t <= 3) \/ t = 4) by lia.
  assert (Hfol : exists rs, utf8_follow (240 + t) = Some rs /\ List.length rs = 3%nat /\
            Forall2 (fun lh x => fst lh <= x <= snd lh) rs [128 + a'; 128 + b; 128 + m]).
  { unfold utf8_follow, in_range.
    destruct Hcase as [Ha | [Ha | Ha]]; zcmp; cbn [andb orb]; zcmp; cbn [andb orb];
      (eexists; split; [reflexivity | split; [reflexivity | in_ranges]]). }
  destruct Hfol as (rs & Hf & Hl & HF). rewrite Hf.
  rewrite utf8_take_conts by (auto; rewrite Hl; reflexivity). rewrite Hl. cbn [List.length Nat.eqb skipn].
  unfold utf8_value. cbn [List.length Nat.eqb fold_left]. f_equal. lia.
Qed.

Lemma utf8_char_nonempty c b : utf8_char c = Some b -> (1 <= List.length b)%nat.
Proof.
  unfold utf8_char. intros E.
  repeat match type of E with
         | context [if ?t then _ else _] => destruct t
         end; try discriminate; apply some_eq in E; subst b; simpl; lia.
Qed.

Lemma utf8_encode_length s bs : utf8_encode s = Some bs -> (List.length s <= List.length bs)%nat.
Proof.
  revert bs; induction s as [|c t IH]; intros bs E; simpl in E.
  - apply some_eq in E; subst; simpl; lia.
  - destruct (utf8_char c) as [b|] eqn:Ec; [|discriminate].
    destruct (utf8_encode t) as [r|] eqn:Et; [|discriminate].
    apply some_eq in E; subst bs. apply utf8_char_nonempty in Ec.
    specialize (IH r eq_refl). rewrite length_app. simpl. lia.
Qed.

Lemma utf8_encode_decode_fuel s bs f :
  utf8_encode s = Some bs -> (List.length s <= f)%nat -> utf8_decode_replace f bs = s.
Proof.
  revert bs f; induction s as [|c t IH]; intros bs f E Hf; simpl in E.
  - apply some_eq in E; subst. destruct f; reflexivity.
  - destruct (utf8_char c) as [b|] eqn:Ec; [|discriminate].
    destruct (utf8_encode t) as [r|] eqn:Et; [|discriminate].
    apply some_eq in E; subst bs. destruct f as [|f]; [simpl in Hf; lia|].
    rewrite (utf8_char_decode c b r f Ec). f_equal. apply IH; auto. simpl in Hf. lia.
Qed.

(** [bytes.decode] after [str.encode] gives the string back. *)
Lemma utf8_encode_decode s bs : utf8_encode s = Some bs -> utf8_decode bs = s.
Proof.
  intros E. unfold utf8_decode. apply utf8_encode_decode_fuel; auto.
  apply utf8_encode_length; auto.
Qed.

Lemma utf8_char_bytes c b : utf8_char c = Some b -> Forall (fun x => 0 <= x < 256) b.
Proof.
  unfold utf8_char. intros E.
  repeat match type of E with
         | context [if ?t then _ else _] => destruct t eqn:?
         end; try discriminate; apply some_eq in E; subst b;
  repeat match goal with H : (_ <? _) = _ |- _ => first [apply Z.ltb_lt in H | apply Z.ltb_ge in H] end;
  repeat match goal with H : (_ <=? _) = _ |- _ => first [apply Z.leb_le in H | apply Z.leb_gt in H] end;
  repeat constructor; Z.to_euclidean_division_equations; lia.
Qed.

Lemma utf8_encode_bytes s bs : utf8_encode s = Some bs -> Forall (fun x => 0 <= x < 256) bs.
Proof.
  revert bs; induction s as [|c t IH]; intros bs E; simpl in E.
  - apply some_eq in E; subst; constructor.
  - destruct (utf8_char c) as [b|] eqn:Ec; [|discriminate].
    destruct (utf8_encode t) as [r|] eqn:Et; [|discriminate].
    apply some_eq in E; subst bs. apply Forall_app. split; [eapply utf8_char_bytes; eauto | auto].
Qed.

Lemma utf8_encode_ascii s : is_ascii_str s = true -> utf8_encode s = Some s.
Proof.
  induction s as [|c t IH]; simpl; auto. unfold is_ascii_cp.
  rewrite !andb_true_iff, Z.leb_le, Z.ltb_lt. intros [[H1 H2] Ht].
  unfold utf8_char. zcmp. rewrite IH; auto.
Qed.

Lemma utf8_decode_ascii_fuel s f :
  is_ascii_str s = true -> (List.length s <= f)%nat -> utf8_decode_replace f s = s.
Proof.
  revert f; induction s as [|c t IH]; intros f Ha Hf; [destruct f; reflexivity|].
  destruct f as [|f]; [simpl in Hf; lia|].
  simpl in Ha. apply andb_true_iff in Ha. destruct Ha as [Hc Ht].
  unfold is_ascii_cp in Hc. rewrite andb_true_iff, Z.leb_le, Z.ltb_lt in Hc.
  rewrite utf8_decode_replace_cons. zcmp. f_equal. apply IH; auto. simpl in Hf. lia.
Qed.

Lemma hex_val_digit n : 0 <= n < 16 -> hex_val (hex_digit_upper n) = Some n.
Proof.
  intros Hn. unfold hex_digit_upper, hex_val, is_ascii_digit, in_range.
  destruct (Z.ltb_spec n 10); zcmp; cbn [andb orb]; zcmp; cbn [andb orb]; f_equal; lia.
Qed.

Lemma hex_digit_safe n : 0 <= n < 16 -> always_safe (hex_digit_upper n) = true.
Proof.
  intros Hn. unfold hex_digit_upper, always_safe, is_ascii_alpha, is_ascii_upper, is_ascii_digit.
  destruct (Z.ltb_spec n 10); zcmp; rewrite ?orb_true_r; reflexivity.
Qed.

Lemma always_safe_chars c :
  always_safe c = true -> is_ascii_cp c = true /\ c <> 37 /\ c <> 43 /\ c <> 32 /\ c <> 38 /\
    c <> 61 /\ c <> 35 /\ c <> 63 /\ c <> 47 /\ url_ctl c = false.
Proof.
  unfold always_safe, is_ascii_alpha, is_ascii_upper, is_ascii_lower, is_ascii_digit, is_ascii_cp, url_ctl.
  intros E. repeat rewrite orb_true_iff in E. repeat rewrite andb_true_iff in E.
  repeat rewrite Z.leb_le in E. repeat rewrite Z.eqb_eq in E.
  repeat split; try lia.
Qed.

Lemma split_char_noc c (x : pystr) : ~ In c x -> split_char c x = [x].
Proof.
  induction x as [|a t IH]; intros Hn; simpl; auto.
  replace (a =? c) with false by (symmetry; apply Z.eqb_neq; intros ->; apply Hn; simpl; auto).
  rewrite IH; auto. intros Hin; apply Hn; simpl; auto.
Qed.

Lemma split_char_app c (x y : pystr) : ~ In c x -> split_char c (x ++ c :: y) = x :: split_char c y.
Proof.
  induction x as [|a t IH]; intros Hn; simpl.
  - rewrite Z.eqb_refl. reflexivity.
  - replace (a =? c) with false by (symmetry; apply Z.eqb_neq; intros ->; apply Hn; simpl; auto).
    rewrite IH; auto. intros Hin; apply Hn; simpl; auto.
Qed.

Lemma split_char_join c (l : list pystr) :
  l <> [] -> (forall x, In x l -> ~ In c x) -> split_char c (join [c] l) = l.
Proof.
  induction l as [|x t IH]; intros Hne Hn; [congruence|].
  destruct t as [|y t].
  - simpl. apply split_char_noc. apply Hn. simpl; auto.
  - change (join [c] (x :: y :: t)) with (x ++ c :: join [c] (y :: t)).
    rewrite split_char_app by (apply Hn; simpl; auto).
    f_equal. apply IH; [discriminate|]. intros z Hz. apply Hn. simpl; auto.
Qed.

Lemma ascii_runs_ascii (x : pystr) : x <> [] -> is_ascii_str x = true -> ascii_runs x = [(true, x)].
Proof.
  induction x as [|a t IH]; intros Hne Ha; [congruence|].
  simpl in Ha. apply andb_true_iff in Ha. destruct Ha as [Ha Ht]. simpl.
  destruct t as [|b t].
  - rewrite Ha. reflexivity.
  - rewrite IH by (auto; discriminate). rewrite Ha. reflexivity.
Qed.

(** On ASCII text [unquote] decodes the bytes of [unquote_to_bytes]. *)
Lemma unquote_ascii (x : pystr) :
  is_ascii_str x = true -> unquote x = utf8_decode (unquote_to_bytes x).
Proof.
  intros Ha. unfold unquote.
  destruct (mem_char 37 x) eqn:E; simpl.
  - rewrite ascii_runs_ascii; auto.
    + simpl. rewrite app_nil_r. reflexivity.
    + intros ->. discriminate.
  - unfold unquote_to_bytes. rewrite utf8_encode_ascii by auto.
    apply mem_char_false in E. rewrite split_char_noc by auto. simpl. rewrite app_nil_r.
    symmetry. unfold utf8_decode. apply utf8_decode_ascii_fuel; auto.
Qed.

Lemma unquote_items_enc (bs : list Z) :
  Forall (fun x => 0 <= x < 256) bs ->
  match split_char 37
          (map (fun c => if c =? 43 then 32 else c)
             (flat_map (fun b => if always_safe b then [b]
                                 else if b =? 32 then [43]
                                 else [37; hex_digit_upper (b / 16); hex_digit_upper (b mod 16)]) bs))
  with
  | [] => False
  | b0 :: items => b0 ++ flat_map unquote_item items = bs
  end.
Proof.
  induction 1 as [|b bs Hb Hbs IH]; [simpl; reflexivity|].
  cbn [flat_map]. rewrite map_app.
  destruct (split_char 37 _) as [|b0 items] eqn:Es; [contradiction|].
  destruct (always_safe b) eqn:Ea.
  - destruct (always_safe_chars b Ea) as (_ & H37 & H43 & _).
    cbn [map app]. replace (b =? 43) with false by (symmetry; apply Z.eqb_neq; auto).
    cbn [split_char]. replace (b =? 37) with false by (symmetry; apply Z.eqb_neq; auto).
    rewrite Es. simpl. f_equal. exact IH.
  - destruct (Z.eqb_spec b 32) as [-> | Hn32].
    + cbn [map app split_char]. simpl (43 =? 43). simpl (32 =? 37). rewrite Es. simpl. f_equal. exact IH.
    + assert (Hh : 0 <= b / 16 < 16 /\ 0 <= b mod 16 < 16) by (Z.to_euclidean_division_equations; lia).
      destruct Hh as [Hh Hl].
      destruct (always_safe_chars _ (hex_digit_safe _ Hh)) as (_ & Hh37 & Hh43 & _).
      destruct (always_safe_chars _ (hex_digit_safe _ Hl)) as (_ & Hl37 & Hl43 & _).
      cbn [map app]. simpl (37 =? 43).
      replace (hex_digit_upper (b / 16) =? 43) with false by (symmetry; apply Z.eqb_neq; auto).
      replace (hex_digit_upper (b mod 16) =? 43) with false by (symmetry; apply Z.eqb_neq; auto).
      cbn [split_char]. simpl (37 =? 37).
      replace (hex_digit_upper (b / 16) =? 37) with false by (symmetry; apply Z.eqb_neq; auto).
      replace (hex_digit_upper (b mod 16) =? 37) with false by (symmetry; apply Z.eqb_neq; auto).
      rewrite Es. cbn [app flat_map unquote_item].
      rewrite (hex_val_digit _ Hh), (hex_val_digit _ Hl).
      rewrite <- IH. simpl. f_equal.
      Z.to_euclidean_division_equations; lia.
Qed.

(** The characters [quote_plus] produces. *)
Lemma quote_plus_chars (s e : pystr) :
  quote_plus s = Some e -> forall c, In c e -> always_safe c = true \/ c = 43 \/ c = 37.
Proof.
  unfold quote_plus. destruct (utf8_encode s) as [bs|] eqn:Eb; [|discriminate].
  intros E. apply some_eq in E. subst e.
  assert (Hbytes := utf8_encode_bytes _ _ Eb).
  intros c Hc. apply in_flat_map in Hc. destruct Hc as (b & Hb & Hc).
  destruct (always_safe b) eqn:Ea; [destruct Hc as [<- | []]; auto|].
  destruct (b =? 32); [destruct Hc as [<- | []]; auto|].
  assert (0 <= b < 256) by (rewrite Forall_forall in Hbytes; auto).
  assert (Hh : 0 <= b / 16 < 16 /\ 0 <= b mod 16 < 16) by (Z.to_euclidean_division_equations; lia).
  destruct Hc as [<- | [<- | [<- | []]]]; auto; left; apply hex_digit_safe; tauto.
Qed.

Lemma quote_plus_ascii (s e : pystr) :
  quote_plus s = Some e -> is_ascii_str (map (fun c => if c =? 43 then 32 else c) e) = true.
Proof.
  intros E. unfold is_ascii_str. apply forallb_forall. intros c Hc.
  apply in_map_iff in Hc. destruct Hc as (c0 & <- & Hc0).
  destruct (quote_plus_chars s e E c0 Hc0) as [Ha | [-> | ->]]; [|reflexivity|reflexivity].
  destruct (always_safe_chars c0 Ha) as (Hasc & _ & H43 & _).
  replace (c0 =? 43) with false by (symmetry; apply Z.eqb_neq; auto). exact Hasc.
Qed.

(** [unquote] undoes [quote_plus] once '+' is read as a space, as
    [parse_qsl] does. *)
Lemma quote_plus_unquote (s e : pystr) :
  quote_plus s = Some e -> unquote (map (fun c => if c =? 43 then 32 else c) e) = s.
Proof.
  unfold quote_plus. destruct (utf8_encode s) as [bs|] eqn:Eb; [|discriminate].
  intros E. apply some_eq in E. subst e.
  assert (Hbytes := utf8_encode_bytes _ _ Eb).
  rewrite unquote_ascii.
  - unfold unquote_to_bytes. rewrite utf8_encode_ascii.
    + pose proof (unquote_items_enc bs Hbytes) as Hi.
      destruct (split_char 37 _) as [|b0 items]; [contradiction|].
      rewrite Hi. apply utf8_encode_decode; auto.
    + apply (quote_plus_ascii s). unfold quote_plus. rewrite Eb. reflexivity.
  - apply (quote_plus_ascii s). unfold quote_plus. rewrite Eb. reflexivity.
Qed.

Lemma split_once_app c (x y : pystr) : ~ In c x -> split_once c (x ++ c :: y) = Some (x, y).
Proof.
  induction x as [|a t IH]; intros Hn; simpl.
  - rewrite Z.eqb_refl. reflexivity.
  - replace (a =? c) with false by (symmetry; apply Z.eqb_neq; intros ->; apply Hn; simpl; auto).
    rewrite IH; auto. intros Hin; apply Hn; simpl; auto.
Qed.

Lemma split_once_none c (x : pystr) : ~ In c x -> split_once c x = None.
Proof.
  induction x as [|a t IH]; intros Hn; simpl; auto.
  replace (a =? c) with false by (symmetry; apply Z.eqb_neq; intros ->; apply Hn; simpl; auto).
  rewrite IH; auto. intros Hin; apply Hn; simpl; auto.
Qed.

Lemma in_join c sep (l : list pystr) : In c (join sep l) -> In c sep \/ exists x, In x l /\ In c x.
Proof.
  induction l as [|x t IH]; simpl; [tauto|].
  destruct t as [|y t].
  - intros Hc. right. exists x. simpl; auto.
  - rewrite !in_app_iff. intros [Hc | [Hc | Hc]].
    + right. exists x. auto.
    + left. auto.
    + destruct (IH Hc) as [? | (z & Hz & Hcz)]; auto. right. exists z. simpl in Hz |- *. tauto.
Qed.

Lemma urlencode_fields q fields :
  urlencode q = Some fields ->
  flat_map parse_qsl_field fields = q /\
  (forall f c, In f fields -> In c f -> always_safe c = true \/ c = 43 \/ c = 37 \/ c = 61) /\
  (forall f, In f fields -> f <> []).
Proof.
  revert fields. induction q as [|[k v] t IH]; intros fields E; simpl in E.
  - apply some_eq in E. subst. simpl. repeat split; intros; contradiction.
  - destruct (quote_plus k) as [k'|] eqn:Ek; [|discriminate].
    destruct (quote_plus v) as [v'|] eqn:Ev; [|discriminate].
    destruct (urlencode t) as [r|] eqn:Et; [|discriminate].
    apply some_eq in E. subst fields.
    destruct (IH r eq_refl) as (Hr & Hc & Hne).
    refine (conj _ (conj _ _)).
    + cbn [flat_map]. rewrite Hr.
      unfold parse_qsl_field.
      replace (is_nil (k' ++ 61 :: v')) with false by (destruct k'; reflexivity).
      rewrite split_once_app.
      * rewrite (quote_plus_unquote k k' Ek), (quote_plus_unquote v v' Ev). reflexivity.
      * intros Hin. destruct (quote_plus_chars k k' Ek 61 Hin) as [Ha | [Ha | Ha]];
          try discriminate; try (apply always_safe_chars in Ha; tauto).
    + intros f c [<- | Hf] Hcf; [|eauto].
      rewrite !in_app_iff in Hcf. destruct Hcf as [Hcf | [<- | Hcf]].
      * destruct (quote_plus_chars k k' Ek c Hcf) as [? | [? | ?]]; auto.
      * auto.
      * destruct (quote_plus_chars v v' Ev c Hcf) as [? | [? | ?]]; auto.
    + intros f [<- | Hf]; auto. destruct k'; discriminate.
Qed.

(** [parse_qsl] reads back what [urlencode] wrote. *)
Lemma urlencode_parse_qsl q s : urlencode_str q = Some s -> parse_qsl s = q.
Proof.
  unfold urlencode_str. destruct (urlencode q) as [fields|] eqn:E; [|discriminate].
  simpl. intros Es. apply some_eq in Es. subst s.
  destruct (urlencode_fields q fields E) as (Hq & Hc & Hne).
  unfold parse_qsl. destruct fields as [|f fs].
  - simpl. simpl in Hq. exact Hq.
  - replace (is_nil (join [38] (f :: fs))) with false.
    + rewrite split_char_join; auto; [discriminate|].
      intros x Hx Hin. destruct (Hc x 38 Hx Hin) as [Ha | [Ha | [Ha | Ha]]];
        try discriminate; try (apply always_safe_chars in Ha; tauto).
    + destruct fs as [|g fs].
      * simpl. destruct f; [exfalso; apply (Hne [] (or_introl eq_refl)); auto|reflexivity].
      * cbn [join]. destruct f; [exfalso; apply (Hne [] (or_introl eq_refl)); auto|reflexivity].
Qed.

Lemma urlencode_str_chars q s :
  urlencode_str q = Some s -> forall c, In c s ->
  always_safe c = true \/ c = 43 \/ c = 37 \/ c = 61 \/ c = 38.
Proof.
  unfold urlencode_str. destruct (urlencode q) as [fields|] eqn:E; [|discriminate].
  simpl. intros Es. apply some_eq in Es. subst s.
  destruct (urlencode_fields q fields E) as (_ & Hc & _).
  intros c Hin. apply in_join in Hin. destruct Hin as [[<- | []] | (f & Hf & Hcf)]; [tauto|].
  destruct (Hc f c Hf Hcf) as [? | [? | [? | ?]]]; auto.
Qed.

End CodecFacts.

(** ** What [urlsplit] returns *)

Section SplitFacts.
Context `{PyTables}.

Lemma split_netloc_rest_spec (s a b : pystr) :
  split_netloc_rest s = (a, b) ->
  s = a ++ b /\ (forall c, In c a -> c <> 47 /\ c <> 63 /\ c <> 35) /\
  match b with [] => True | c :: _ => c = 47 \/ c = 63 \/ c = 35 end.
Proof.
  revert a b. induction s as [|x t IH]; intros a b E; simpl in E.
  - injection E as <- <-. simpl. repeat split; intros; contradiction.
  - destruct ((x =? 47) || (x =? 63) || (x =? 35)) eqn:Ex.
    + injection E as <- <-. simpl. split; [reflexivity|]. split; [intros; contradiction|].
      repeat rewrite orb_true_iff in Ex. repeat rewrite Z.eqb_eq in Ex. tauto.
    + destruct (split_netloc_rest t) as [a' b'] eqn:Et. injection E as <- <-.
      destruct (IH a' b' eq_refl) as (-> & Ha & Hb). split; [reflexivity|]. split; auto.
      intros c [<- | Hc]; auto.
      repeat rewrite orb_false_iff in Ex. repeat rewrite Z.eqb_neq in Ex. tauto.
Qed.

Lemma split_once_some c (s a b : pystr) : split_once c s = Some (a, b) -> s = a ++ c :: b /\ ~ In c a.
Proof.
  revert a b. induction s as [|x t IH]; intros a b E; simpl in E; [discriminate|].
  destruct (Z.eqb_spec x c) as [-> | Hne].
  - injection E as <- <-. simpl. split; auto.
  - destruct (split_once c t) as [[a' b']|] eqn:Et; [|discriminate].
    injection E as <- <-. destruct (IH a' b' eq_refl) as [-> Hn]. split; [reflexivity|].
    intros [Hx | Hin]; auto.
Qed.

Lemma split_once_none_inv c (s : pystr) : split_once c s = None -> ~ In c s.
Proof.
  induction s as [|x t IH]; simpl; auto. destruct (Z.eqb_spec x c); [discriminate|].
  destruct (split_once c t) as [[]|]; [discriminate|]. intros _ [Hx | Hin]; auto. apply IH; auto.
Qed.

Lemma ascii_lower_id c : is_ascii_upper c = false -> ascii_lower c = c.
Proof. unfold ascii_lower. intros ->. reflexivity. Qed.

Lemma ascii_lower_facts c :
  is_ascii_cp c = true ->
  is_ascii_cp (ascii_lower c) = true /\ ascii_lower (ascii_lower c) = ascii_lower c /\
  scheme_chars (ascii_lower c) = scheme_chars c /\ is_ascii_alpha (ascii_lower c) = is_ascii_alpha c /\
  (c = 47 \/ c = 63 \/ c = 35 \/ c = 91 \/ c = 93 \/ url_ctl c = true -> ascii_lower c = c).
Proof.
  unfold is_ascii_cp, ascii_lower, scheme_chars, is_ascii_alpha, is_ascii_upper, is_ascii_lower,
    is_ascii_digit, url_ctl.
  intros Ha. rewrite andb_true_iff, Z.leb_le, Z.ltb_lt in Ha.
  destruct ((65 <=? c) && (c <=? 90)) eqn:E.
  - rewrite andb_true_iff, !Z.leb_le in E.
    zcmp. cbn [andb orb]. zcmp. cbn [andb orb]. rewrite ?orb_true_r.
    repeat split; try reflexivity.
    intros Hc. repeat rewrite orb_true_iff in Hc. repeat rewrite Z.eqb_eq in Hc. lia.
  - repeat rewrite E. cbn [andb orb]. zcmp. repeat split; auto.
Qed.

Lemma py_lower_ascii (s : pystr) : is_ascii_str s = true -> py_lower s = map ascii_lower s.
Proof.
  induction s as [|c t IH]; simpl; auto. rewrite andb_true_iff. intros [Hc Ht].
  rewrite Hc, IH; auto.
Qed.

Lemma py_lower_idem (s : pystr) :
  is_ascii_str s = true -> is_ascii_str (py_lower s) = true /\ py_lower (py_lower s) = py_lower s.
Proof.
  intros Ha. rewrite py_lower_ascii by auto.
  assert (Hm : is_ascii_str (map ascii_lower s) = true).
  { unfold is_ascii_str in *. rewrite forallb_forall in *. intros c Hc.
    apply in_map_iff in Hc. destruct Hc as (c0 & <- & Hc0). apply ascii_lower_facts; auto. }
  split; auto. rewrite py_lower_ascii by auto. rewrite map_map.
  unfold is_ascii_str in Ha. rewrite forallb_forall in Ha.
  apply map_ext_in. intros c Hc. destruct (ascii_lower_facts c (Ha c Hc)) as (_ & E & _). exact E.
Qed.

Lemma scheme_chars_ascii c : scheme_chars c = true -> is_ascii_cp c = true.
Proof.
  unfold scheme_chars, is_ascii_alpha, is_ascii_upper, is_ascii_lower, is_ascii_digit, is_ascii_cp.
  intros E. repeat rewrite orb_true_iff in E. repeat rewrite andb_true_iff in E.
  repeat rewrite Z.leb_le in E. repeat rewrite Z.eqb_eq in E.
  apply andb_true_iff. rewrite Z.leb_le, Z.ltb_lt. lia.
Qed.

Lemma in_skipn_sub {A} (n : nat) (l : list A) x : In x (skipn n l) -> In x l.
Proof. intros Hx. rewrite <- (firstn_skipn n l). apply in_app_iff. auto. Qed.

Lemma scheme_lower (x : pystr) :
  match x with c :: _ => is_ascii_alpha c | [] => false end = true ->
  forallb scheme_chars x = true ->
  match py_lower x with c :: _ => is_ascii_alpha c | [] => false end = true /\
  forallb scheme_chars (py_lower x) = true /\ py_lower (py_lower x) = py_lower x.
Proof.
  intros Hh Hs.
  assert (Ha : is_ascii_str x = true).
  { unfold is_ascii_str. rewrite forallb_forall in *. intros c Hc. apply scheme_chars_ascii; auto. }
  destruct (py_lower_idem x Ha) as [_ Hid]. rewrite (py_lower_ascii x Ha) in Hid |- *.
  split; [|split; auto].
  - destruct x as [|c t]; [discriminate|]. simpl in Ha. apply andb_true_iff in Ha.
    simpl. destruct (ascii_lower_facts c (proj1 Ha)) as (_ & _ & _ & -> & _). exact Hh.
  - rewrite forallb_forall in *. intros c Hc. apply in_map_iff in Hc.
    destruct Hc as (c0 & <- & Hc0). unfold is_ascii_str in Ha. rewrite forallb_forall in Ha.
    destruct (ascii_lower_facts c0 (Ha c0 Hc0)) as (_ & _ & -> & _). auto.
Qed.

(** What [urlsplit] guarantees about the parts it returns. *)
Lemma urlsplit_inv (url : pystr) (parts : SplitResult) :
  urlsplit url = Some parts ->
  (sr_scheme parts = [] \/
     (match sr_scheme parts with c :: _ => is_ascii_alpha c | [] => false end = true /\
      forallb scheme_chars (sr_scheme parts) = true /\ py_lower (sr_scheme parts) = sr_scheme parts)) /\
  (forall c, In c (sr_netloc parts) -> c <> 47 /\ c <> 63 /\ c <> 35 /\ url_ctl c = false) /\
  (forall c, In c (sr_path parts) -> c <> 35 /\ c <> 63 /\ url_ctl c = false) /\
  (sr_netloc parts <> [] -> match sr_path parts with [] => True | c :: _ => c = 47 end).
Proof.
  unfold urlsplit, urlsplit_with. cbv zeta. intros E.
  set (url0 := filter _ (lstrip_by WHATWG_C0_CONTROL_OR_SPACE url)) in E.
  assert (H0 : forall c, In c url0 -> url_ctl c = false).
  { intros c Hc. apply filter_In in Hc. destruct Hc as [_ Hc]. apply negb_true_iff in Hc. exact Hc. }
  change (filter (fun c : Z => negb ((c =? 9) || (c =? 13) || (c =? 10)))
            (strip_by WHATWG_C0_CONTROL_OR_SPACE [])) with (@nil Z) in E.
  lazymatch type of E with context [match ?M with pair _ _ => _ end] =>
    destruct M as [sch u1] eqn:Es end.
  cbv beta iota in E.
  assert (Hs : (sch = [] /\ u1 = url0) \/
               (exists i, sch = py_lower (firstn i url0) /\ u1 = skipn (S i) url0 /\ (0 < i)%nat /\
                  match url0 with c :: _ => is_ascii_alpha c | [] => false end = true /\
                  forallb scheme_chars (firstn i url0) = true)).
  { destruct (py_find [58] url0) as [i|].
    - lazymatch type of Es with context [if ?b then _ else _] => destruct b eqn:Eb end;
        apply pair_equal_spec in Es; destruct Es as [<- <-]; auto.
      right. exists i. rewrite !andb_true_iff, Nat.ltb_lt in Eb. tauto.
    - apply pair_equal_spec in Es; destruct Es as [<- <-]; auto. }
  assert (H1 : forall c, In c u1 -> url_ctl c = false).
  { destruct Hs as [[_ ->] | (i & _ & -> & _)]; auto. intros c Hc. apply H0. eapply in_skipn_sub; eauto. }
  lazymatch type of E with context [match ?M with pair _ _ => _ end] =>
    destruct M as [nl u2] eqn:En end.
  cbv beta iota in E.
  assert (Hn : (nl = [] /\ u2 = u1) \/
               (skipn 2 u1 = nl ++ u2 /\ (forall c, In c nl -> c <> 47 /\ c <> 63 /\ c <> 35) /\
                match u2 with [] => True | c :: _ => c = 47 \/ c = 63 \/ c = 35 end)).
  { destruct (is_prefix [47; 47] u1).
    - right. apply split_netloc_rest_spec; auto.
    - left. apply pair_equal_spec in En. destruct En as [<- <-]. auto. }
  assert (H2 : forall c, In c nl \/ In c u2 -> url_ctl c = false).
  { destruct Hn as [[-> ->] | (Hk & _ & _)].
    - intros c [[] | Hc]. auto.
    - intros c Hc. apply H1. apply (in_skipn_sub 2). rewrite Hk. apply in_app_iff. auto. }
  lazymatch type of E with context [if ?b then None else _] => destruct b; [discriminate|] end.
  lazymatch type of E with context [if ?b then None else _] => destruct b; [discriminate|] end.
  lazymatch type of E with context [match ?M with pair _ _ => _ end] =>
    destruct M as [u3 frag] eqn:Ef end.
  cbv beta iota in E.
  lazymatch type of E with context [match ?M with pair _ _ => _ end] =>
    destruct M as [u4 qy] eqn:Eq end.
  cbv beta iota in E.
  destruct (negb (checknetloc nl)); [discriminate|]. apply some_eq in E. subst parts. cbn.
  assert (H3 : (exists w, u2 = u3 ++ w) /\ ~ In 35 u3).
  { destruct (split_once 35 u2) as [[a b]|] eqn:Eo; apply pair_equal_spec in Ef; destruct Ef as [<- <-].
    - apply split_once_some in Eo. destruct Eo as [-> Hn3]. eauto.
    - apply split_once_none_inv in Eo. split; auto. exists []. rewrite app_nil_r. reflexivity. }
  assert (H4 : (exists w, u3 = u4 ++ w) /\ ~ In 63 u4).
  { destruct (split_once 63 u3) as [[a b]|] eqn:Eo; apply pair_equal_spec in Eq; destruct Eq as [<- <-].
    - apply split_once_some in Eo. destruct Eo as [-> Hn4]. eauto.
    - apply split_once_none_inv in Eo. split; auto. exists []. rewrite app_nil_r. reflexivity. }
  destruct H3 as [[w3 Hw3] Hn3]. destruct H4 as [[w4 Hw4] Hn4].
  refine (conj _ (conj _ (conj _ _))).
  - destruct Hs as [[-> _] | (i & -> & _ & Hi & Hh & Hsc)]; [left; reflexivity|right].
    apply scheme_lower; auto.
    destruct url0 as [|c t]; [discriminate|]. destruct i as [|i]; [lia|]. exact Hh.
  - intros c Hc. destruct Hn as [[-> _] | (_ & Hc' & _)]; [contradiction|].
    destruct (Hc' c Hc) as (? & ? & ?). repeat split; auto.
  - intros c Hc. repeat split.
    + intros ->. apply Hn3. rewrite Hw4. apply in_app_iff. auto.
    + intros ->. auto.
    + apply H2. right. rewrite Hw3, Hw4. rewrite !in_app_iff. auto.
  - intros Hne. destruct Hn as [[-> _] | (_ & _ & Hh)]; [congruence|].
    rewrite Hw3, Hw4 in Hh. destruct u4 as [|c t]; auto.
    simpl in Hh. destruct Hh as [Hh | [-> | ->]]; auto; exfalso.
    + apply Hn4. simpl. auto.
    + apply Hn3. rewrite Hw4. simpl. auto.
Qed.

End SplitFacts.

(** ** Normalizing a normalized URL *)

Section IdempotenceFacts.
Context `{PyTables}.

Lemma lstrip_suffix (p : Z -> bool) (s : pystr) : exists w, s = w ++ lstrip_by p s.
Proof.
  induction s as [|c t IH]; simpl; [exists []; reflexivity|].
  destruct (p c); [|exists []; reflexivity].
  destruct IH as [w Hw]. exists (c :: w). simpl. f_equal. exact Hw.
Qed.

Lemma lstrip_head (p : Z -> bool) (s : pystr) :
  match lstrip_by p s with c :: _ => p c = false | [] => True end.
Proof.
  induction s as [|c t IH]; simpl; auto. destruct (p c) eqn:E; auto.
Qed.

Lemma lstrip_noop (p : Z -> bool) (s : pystr) :
  match s with c :: _ => p c = false | [] => True end -> lstrip_by p s = s.
Proof. destruct s as [|c t]; simpl; auto. intros ->. reflexivity. Qed.

Lemma strip_idem (p : Z -> bool) (s : pystr) : strip_by p (strip_by p s) = strip_by p s.
Proof.
  unfold strip_by, rstrip_by.
  assert (Ht := lstrip_head p s). set (t := lstrip_by p s) in *.
  destruct (lstrip_suffix p (rev t)) as [w Hw].
  set (m := lstrip_by p (rev t)) in *.
  assert (Et : t = rev m ++ rev w)
    by (rewrite <- rev_app_distr, <- Hw, rev_involutive; reflexivity).
  rewrite (lstrip_noop p (rev m)).
  - rewrite rev_involutive, (lstrip_noop p m (lstrip_head p (rev t))). reflexivity.
  - revert Et. destruct (rev m) as [|c r]; auto. intros Et. rewrite Et in Ht. exact Ht.
Qed.

Lemma normalize_url_blank (u : pystr) :
  is_nil (py_strip u) = true -> normalize_url (Some (normalize_url (Some u))) = normalize_url (Some u).
Proof. intros E. rewrite (normalize_url_unfold u), E. reflexivity. Qed.

Lemma normalize_url_fallback (u : pystr) :
  normalize_try (py_strip u) = None ->
  normalize_url (Some (normalize_url (Some u))) = normalize_url (Some u).
Proof.
  intros E. rewrite (normalize_url_unfold u), E.
  destruct (is_nil (py_strip u)) eqn:En; [reflexivity|].
  rewrite normalize_url_unfold.
  replace (py_strip (py_strip u)) with (py_strip u) by (symmetry; apply strip_idem).
  rewrite En, E. reflexivity.
Qed.

Lemma ascii_lower_cases c : ascii_lower c = c \/ 97 <= ascii_lower c <= 122.
Proof.
  unfold ascii_lower, is_ascii_upper. destruct ((65 <=? c) && (c <=? 90)) eqn:E; auto.
  right. rewrite andb_true_iff, !Z.leb_le in E. lia.
Qed.

(** [urlunsplit] with a scheme, a host, a path that is empty or
    absolute, and no fragment. *)
Lemma urlunsplit_shape (sc nl path query : pystr) :
  sc <> [] -> nl <> [] -> match path with [] => True | c :: _ => c = 47 end ->
  urlunsplit sc nl path query [] =
    sc ++ [58; 47; 47] ++ nl ++ path ++ (if is_nil query then [] else 63 :: query).
Proof.
  intros Hs Hn Hp. unfold urlunsplit.
  replace (is_nil nl) with false by (symmetry; apply is_nil_false; auto).
  replace (is_nil sc) with false by (symmetry; apply is_nil_false; auto).
  assert (Hp' : (if negb (is_nil path) && negb (is_prefix [47] path) then 47 :: path else path) = path).
  { destruct path as [|c t]; [reflexivity|]. rewrite Hp. reflexivity. }
  cbn [negb orb]. rewrite Hp'. cbn [is_nil].
  destruct (is_nil query); rewrite ?app_nil_r, <- ?app_assoc; reflexivity.
Qed.

(** [urlsplit] of what [urlunsplit_shape] builds gives its parts back. *)
Lemma urlsplit_authority_exact (d sc host path query : pystr) :
  match sc with c :: _ => is_ascii_alpha c | [] => false end = true ->
  forallb scheme_chars sc = true ->
  (forall c, In c host ->
     is_ascii_cp c = true /\ c <> 47 /\ c <> 63 /\ c <> 35 /\ c <> 91 /\ c <> 93 /\ url_ctl c = false) ->
  (forall c, In c path -> c <> 35 /\ c <> 63 /\ url_ctl c = false) ->
  (forall c, In c query -> c <> 35 /\ url_ctl c = false) ->
  match path with [] => True | c :: _ => c = 47 end ->
  urlsplit_with (sc ++ [58; 47; 47] ++ host ++ path ++ (if is_nil query then [] else 63 :: query)) d =
    Some {| sr_scheme := py_lower sc; sr_netloc := host; sr_path := path;
            sr_query := query; sr_fragment := [] |}.
Proof.
  intros Ha Hs Hh Hp Hq Hp0.
  set (rest := path ++ (if is_nil query then [] else 63 :: query)).
  assert (Hr : forall c, In c rest -> c <> 35 /\ url_ctl c = false).
  { intros c Hc. unfold rest in Hc. apply in_app_iff in Hc. destruct Hc as [Hc | Hc].
    - destruct (Hp c Hc) as (? & _ & ?). auto.
    - destruct (is_nil query); [destruct Hc|].
      destruct Hc as [<- | Hc]; [split; [discriminate | reflexivity] | auto]. }
  assert (Hctl : forall c, In c rest -> url_ctl c = false) by (intros c Hc; apply Hr; auto).
  assert (Hst : match rest with [] => True | c :: _ => c = 47 \/ c = 63 \/ c = 35 end).
  { unfold rest. destruct path as [|c t].
    - destruct (is_nil query); simpl; auto.
    - simpl. left. exact Hp0. }
  rewrite (urlsplit_authority_gen d sc host rest Ha Hs Hh Hctl Hst).
  rewrite (split_once_none 35 rest) by (intros Hin; apply (Hr 35 Hin); reflexivity).
  cbv beta iota. unfold rest. destruct (is_nil query) eqn:Eq.
  - apply is_nil_true in Eq. subst query. rewrite app_nil_r, split_once_none; [reflexivity|].
    intros Hin. destruct (Hp 63 Hin) as (_ & H63 & _). apply H63. reflexivity.
  - rewrite split_once_app; [reflexivity|].
    intros Hin. destruct (Hp 63 Hin) as (_ & H63 & _). apply H63. reflexivity.
Qed.

End IdempotenceFacts.

(** * The claims *)

(** ** Merging snapshots *)

(** C1: the rows [merge_csvs] writes are the stored entries of
    [merge_items], one per normalized page URL (the keys, and the
    [normalized_page_url] fields of the written rows, are duplicate
    free); the entry kept for a key is a row of that key with the
    greatest snapshot time among all rows of that key; in particular
    when a key occurs in exactly two rows with different snapshot
    times, the newer row is kept and the older one discarded. *)
Theorem merge_csvs_keeps_newest `{PyTables} (fmt : Z -> pystr) (dir : list CsvFile) (out : MergeOutput) :
  merge_csvs fmt dir = Some out ->
  mo_rows out = map (out_row fmt (ms_columns (merge_scan (list_csv_files dir)))) (merge_items dir) /\
  NoDup (map fst (merge_items dir)) /\
  NoDup (map (out_field "normalized_page_url") (mo_rows out)) /\
  (forall k e, In (k, e) (merge_items dir) ->
     entry_key e = k /\ In e (occurrences dir k) /\
     forall e', In e' (occurrences dir k) -> entry_time e' <= entry_time e) /\
  (forall k e1 e2, k <> [] -> Permutation (occurrences dir k) [e1; e2] ->
     entry_time e1 < entry_time e2 ->
     In (k, e2) (merge_items dir) /\ ~ In (k, e1) (merge_items dir)).
Proof.
  intros Hm. destruct (merge_csvs_some fmt dir out Hm) as (Hrows & _).
  split; [exact Hrows|]. split; [apply merge_items_nodup|]. split.
  { rewrite Hrows, out_rows_keys. apply NoDup_map_inj; [|apply merge_items_nodup].
    intros x y E. injection E as E. exact E. }
  split; [apply merge_items_newest|].
  intros k e1 e2 Hne Hp Hlt.
  assert (He1 : In e1 (occurrences dir k)) by (eapply Permutation_in; [symmetry; exact Hp | simpl; auto]).
  destruct (merge_items_key_in dir k) as [e He].
  { apply usable_keys_in. eauto. }
  destruct (merge_items_newest dir k e He) as (_ & Hocc & Hmax).
  apply (Permutation_in _ Hp) in Hocc. simpl in Hocc.
  split.
  - destruct Hocc as [<- | [<- | []]]; auto.
    assert (entry_time e2 <= entry_time e1).
    { apply Hmax. eapply Permutation_in; [symmetry; exact Hp | simpl; auto]. }
    lia.
  - intros Hin1. destruct (merge_items_newest dir k e1 Hin1) as (_ & _ & Hmax1).
    assert (entry_time e2 <= entry_time e1).
    { apply Hmax1. eapply Permutation_in; [symmetry; exact Hp | simpl; auto]. }
    lia.
Qed.

Lemma merge_csvs_keeps_newest_witness :
  merge_csvs fmt0 D1 = Some (get_output (merge_csvs fmt0 D1)) /\
  In (K1, E1new) (merge_items D1) /\ ~ In (K1, E1old) (merge_items D1).
Proof.
  assert (Hm : merge_csvs fmt0 D1 = Some (get_output (merge_csvs fmt0 D1)))
    by (vm_compute; reflexivity).
  split; [exact Hm|].
  destruct (merge_csvs_keeps_newest fmt0 D1 _ Hm) as (_ & _ & _ & _ & H5).
  apply H5.
  - vm_compute. intros E. discriminate E.
  - vm_compute. apply perm_swap.
  - vm_compute. reflexivity.
Defined.

(** C4 (as the code has it): the written rows are the stored entries in
    descending snapshot time; two rows of equal snapshot time are written
    in the order in which their keys were first met while the snapshots
    were read newest first (not in key order); and each written row
    carries its normalized key, its snapshot's file name and its
    snapshot's formatted time, next to the stored row's columns. *)
Theorem merge_csvs_order `{PyTables} (fmt : Z -> pystr) (dir : list CsvFile) (out : MergeOutput) :
  merge_csvs fmt dir = Some out ->
  let cols := ms_columns (merge_scan (list_csv_files dir)) in
  mo_rows out = map (out_row fmt cols) (merge_items dir) /\
  Sorted (fun x y => entry_mtime y <= entry_mtime x) (merge_items dir) /\
  (forall x y, before (merge_items dir) x y -> entry_mtime x = entry_mtime y ->
     before (usable_keys dir) (fst x) (fst y)) /\
  (forall k m f r, In (k, (m, f, r)) (merge_items dir) ->
     In (m, f, r) (occurrences dir k) /\
     out_field "normalized_page_url" (out_row fmt cols (k, (m, f, r))) = Some (Some k) /\
     out_field "source_file" (out_row fmt cols (k, (m, f, r))) = Some (Some f) /\
     out_field "source_file_mtime" (out_row fmt cols (k, (m, f, r))) = Some (Some (fmt m)) /\
     forall c, In c cols -> ~ In c extras ->
       assoc_find c (out_row fmt cols (k, (m, f, r))) = Some (row_get r c)).
Proof.
  intros Hm cols. destruct (merge_csvs_some fmt dir out Hm) as (Hrows & _).
  split; [exact Hrows|]. split; [apply merge_items_sorted|]. split; [apply merge_items_ties|].
  intros k m f r Hin. destruct (merge_items_newest dir k _ Hin) as (_ & Hocc & _).
  split; [exact Hocc|]. apply out_row_fields.
Qed.

Lemma merge_csvs_order_witness :
  merge_csvs fmt0 D4w = Some (get_output (merge_csvs fmt0 D4w)) /\
  before (usable_keys D4w) (s_ "https://y.com/") (s_ "https://x.com/") /\
  out_field "source_file" (out_row fmt0 (ms_columns (merge_scan (list_csv_files D4w)))
                             (s_ "https://x.com/", (3, s_ "y.csv", [(DEDUP_COL, Some (s_ "https://x.com/"))])))
  = Some (Some (s_ "y.csv")).
Proof.
  assert (Hm : merge_csvs fmt0 D4w = Some (get_output (merge_csvs fmt0 D4w)))
    by (vm_compute; reflexivity).
  split; [exact Hm|].
  destruct (merge_csvs_order fmt0 D4w _ Hm) as (_ & _ & H3 & H4).
  split.
  - apply (H3 (s_ "https://y.com/", (3, s_ "y.csv", [(DEDUP_COL, Some (s_ "https://y.com/"))]))
              (s_ "https://x.com/", (3, s_ "y.csv", [(DEDUP_COL, Some (s_ "https://x.com/"))]))).
    + vm_compute. exists [], [], []. reflexivity.
    + reflexivity.
  - apply (H4 (s_ "https://x.com/") 3 (s_ "y.csv") [(DEDUP_COL, Some (s_ "https://x.com/"))]).
    vm_compute. auto.
Defined.

(** C4, the tie order: the two rows of [D4] share their snapshot time;
    they are written in reading order, the greater key first. *)
Lemma merge_csvs_order_counterexample :
  map (out_field "normalized_page_url") (mo_rows (get_output (merge_csvs fmt0 D4)))
  = [Some (Some (s_ "https://b.com/")); Some (Some (s_ "https://a.com/"))] /\
  str_ltb (s_ "https://a.com/") (s_ "https://b.com/") = true.
Proof. split; vm_compute; reflexivity. Qed.

(** C9 (as the code has it): only the rows of snapshots whose header
    exists and has a [page_url] column are read; the rows of the other
    snapshots are neither merged nor counted.  Of the rows read, those
    whose normalized page URL is empty are counted in [mo_skipped] and
    never stored; the stored rows have non-empty keys, and their number
    (and the number of written rows) is the number of distinct non-empty
    keys among the rows read. *)
Theorem merge_csvs_counts `{PyTables} (fmt : Z -> pystr) (dir : list CsvFile) (out : MergeOutput) :
  merge_csvs fmt dir = Some out ->
  (forall e, In e (merge_events dir) <->
     exists f r, In f (list_csv_files dir) /\ csv_fieldnames f <> [] /\
                 In DEDUP_COL (csv_fieldnames f) /\ In r (csv_rows f) /\
                 e = (csv_mtime f, csv_name f, r)) /\
  mo_total_rows out = Z.of_nat (List.length (merge_events dir)) /\
  mo_skipped out = count_unusable dir /\
  (forall k e, In (k, e) (merge_items dir) -> k <> [] /\ entry_key e = k) /\
  NoDup (usable_keys dir) /\
  (forall k, In k (usable_keys dir) <-> k <> [] /\ exists e, In e (occurrences dir k)) /\
  mo_unique out = Z.of_nat (List.length (usable_keys dir)) /\
  List.length (mo_rows out) = List.length (usable_keys dir).
Proof.
  intros Hm. destruct (merge_csvs_some fmt dir out Hm) as (Hrows & Htot & Huniq & Hsk).
  destruct (merge_counts dir) as (T & S).
  split; [apply merge_events_in|].
  split; [congruence|]. split; [congruence|].
  split.
  { intros k e Hin. destruct (merge_items_newest dir k e Hin) as (Hk & Hocc & _).
    split; [|exact Hk]. apply (usable_keys_in dir k).
    apply (Permutation_in _ (merge_items_keys dir)). apply in_map_iff.
    exists (k, e); auto. }
  split; [apply str_dedup_nodup|]. split; [apply usable_keys_in|].
  split.
  - rewrite Huniq. f_equal.
    rewrite <- (length_map fst), merge_seen_eq.
    rewrite <- (Permutation_length (merge_items_keys dir)).
    rewrite <- merge_seen_eq. unfold merge_items. rewrite !length_map.
    apply Permutation_length. symmetry. apply sort_by_perm.
  - rewrite Hrows, length_map, <- (length_map fst).
    apply Permutation_length, merge_items_keys.
Qed.

Lemma merge_csvs_counts_witness :
  merge_csvs fmt0 D9w = Some (get_output (merge_csvs fmt0 D9w)) /\
  mo_skipped (get_output (merge_csvs fmt0 D9w)) = count_unusable D9w /\
  List.length (mo_rows (get_output (merge_csvs fmt0 D9w))) = List.length (usable_keys D9w).
Proof.
  assert (Hm : merge_csvs fmt0 D9w = Some (get_output (merge_csvs fmt0 D9w)))
    by (vm_compute; reflexivity).
  destruct (merge_csvs_counts fmt0 D9w _ Hm) as (_ & _ & H3 & _ & _ & _ & _ & H8).
  auto.
Defined.

(** C9, a snapshot without a [page_url] column: its row has no usable
    page URL, yet it is neither written nor counted as read or
    skipped. *)
Lemma merge_csvs_counts_counterexample :
  csv_rows (hd (csv_file "" 0 [] []) D9) <> [] /\
  mo_total_rows (get_output (merge_csvs fmt0 D9)) = 0 /\
  mo_skipped (get_output (merge_csvs fmt0 D9)) = 0 /\
  mo_rows (get_output (merge_csvs fmt0 D9)) = [] /\
  merge_csvs fmt0 D9 <> None.
Proof.
  split; [vm_compute; intros E; discriminate E|].
  split; [vm_compute; reflexivity|]. split; [vm_compute; reflexivity|].
  split; [vm_compute; reflexivity|]. vm_compute. intros E; discriminate E.
Qed.

(** ** The packed-script decoder *)







(** ** Fetching *)




(** C8: the media reference of a URL carries the URL, the label of the
    first known resolution digit group (in the given order) occurring in
    the URL, or the default label when none occurs, and the URL's host,
    lowercased, for an http or https URL with an ASCII host. *)
Theorem media_reference_labels `{PyTables} (resolutions : list pystr)
    (res_label : pystr -> pystr) (default_label u : pystr) :
  media_reference resolutions res_label default_label u =
    (u, quality_label resolutions res_label default_label u, source_label u) /\
  (forall pre r post, resolutions = pre ++ r :: post -> contains r u = true ->
     (forall r', In r' pre -> contains r' u = false) ->
     quality_label resolutions res_label default_label u = res_label r) /\
  ((forall r, In r resolutions -> contains r u = false) ->
     quality_label resolutions res_label default_label u = default_label) /\
  (forall sc host rest, u = sc ++ [58; 47; 47] ++ host ++ rest ->
     sc = s_ "http" \/ sc = s_ "https" ->
     (forall c, In c host ->
        is_ascii_cp c = true /\ c <> 47 /\ c <> 63 /\ c <> 35 /\ c <> 91 /\ c <> 93 /\
        url_ctl c = false) ->
     (forall c, In c rest -> url_ctl c = false) ->
     match rest with [] => True | c :: _ => c = 47 \/ c = 63 \/ c = 35 end ->
     source_label u = Some (py_lower host)).
Proof.
  split; [reflexivity|]. split; [|split].
  - intros pre r post -> Hr Hpre. unfold quality_label.
    induction pre as [|x pre IH]; simpl.
    + rewrite Hr. reflexivity.
    + rewrite (Hpre x (or_introl eq_refl)). apply IH. intros r' Hr'. apply Hpre. simpl; auto.
  - intros Hn. unfold quality_label.
    destruct (find (fun r => contains r u) resolutions) as [r|] eqn:E; [|reflexivity].
    apply find_some in E. destruct E as [Hin Hc]. rewrite (Hn r Hin) in Hc. discriminate.
  - intros sc host rest -> Hsc Hh Hr Hrest.
    destruct (urlsplit_authority [] sc host rest) as (sr & Hs & _ & Hn); auto;
      try (destruct Hsc as [-> | ->]; reflexivity).
    unfold source_label, urlsplit. rewrite Hs. simpl. rewrite Hn. reflexivity.
Qed.

Lemma media_reference_labels_witness :
  quality_label R8 L8 (s_ "unknown") U8 = s_ "720p" /\
  quality_label R8 L8 (s_ "unknown") (s_ "https://ex.com/a.m3u8") = s_ "unknown" /\
  source_label U8 = Some (s_ "ex.com").
Proof.
  refine (conj _ (conj _ _)).
  - destruct (media_reference_labels R8 L8 (s_ "unknown") U8) as (_ & Hq & _).
    apply (Hq [s_ "1080"] (s_ "720") [s_ "480"]); [reflexivity | vm_compute; reflexivity |].
    intros r' [<- | []]. vm_compute. reflexivity.
  - destruct (media_reference_labels R8 L8 (s_ "unknown") (s_ "https://ex.com/a.m3u8"))
      as (_ & _ & Hd & _).
    apply Hd. intros r [<- | [<- | [<- | []]]]; vm_compute; reflexivity.
  - destruct (media_reference_labels R8 L8 (s_ "unknown") U8) as (_ & _ & _ & Hs).
    apply (Hs (s_ "https") (s_ "Ex.com") (s_ "/720/a.m3u8")).
    + vm_compute. reflexivity.
    + right. reflexivity.
    + intros c Hc. vm_compute in Hc.
      repeat (destruct Hc as [<- | Hc]; [vm_compute; repeat split; discriminate|]). destruct Hc.
    + intros c Hc. vm_compute in Hc.
      repeat (destruct Hc as [<- | Hc]; [reflexivity|]). destruct Hc.
    + vm_compute. left. reflexivity.
Defined.

(** ** Normalizing URLs *)







(** ** The listing crawler *)

(** C10 (as the code has it): [crawl_listing_posts] may raise (a
    ValueError of [urljoin] on a malformed link, or an exception of the
    fetch); when it returns, its list is strictly ascending, so free of
    duplicates, each member is a post link extracted from a fetched
    listing page and joined with that page's URL, and it is the only
    strictly ascending list with these members, whatever the order in
    which pages and links came. *)
Theorem crawl_listing_posts_sorted `{PyTables}
    (thumbnail_hrefs : pystr -> list (option pystr)) (next_href : pystr -> option pystr)
    (fetch : pystr -> outcome (option pystr)) (start_url : pystr) (max_pages : Z)
    (r : list pystr) :
  crawl_listing_posts thumbnail_hrefs next_href fetch start_url max_pages = Ret r ->
  Sorted (fun a b => str_ltb a b = true) r /\ NoDup r /\
  (forall x, In x r -> crawled_post thumbnail_hrefs fetch x) /\
  (forall l, Sorted (fun a b => str_ltb a b = true) l -> (forall x, In x l <-> In x r) -> l = r).
Proof.
  unfold crawl_listing_posts. intros E.
  apply obind_ret_inv in E. destruct E as (all & Ec & E). injection E as <-.
  destruct (crawl_loop_inv thumbnail_hrefs next_href fetch _ _ _ _ _ _ _ Ec) as [Hn Hp];
    [constructor | intros x []|].
  assert (Hperm : Permutation (sorted_set all) all) by apply sort_by_perm.
  assert (Hs : Sorted (fun a b => str_ltb a b = true) (sorted_set all)).
  { apply sorted_nodup_strict.
    - apply sort_by_sorted. apply str_leb_total.
    - eapply Permutation_NoDup; [symmetry; exact Hperm | exact Hn]. }
  refine (conj Hs (conj _ (conj _ _))).
  - eapply Permutation_NoDup; [symmetry; exact Hperm | exact Hn].
  - intros x Hx. apply Hp. eapply Permutation_in; eauto.
  - intros l Hl Hiff. apply strict_sorted_unique; auto.
Qed.

Lemma crawl_listing_posts_sorted_witness :
  crawl_listing_posts T10 N10 F10 (s_ "https://s.com/") 10 = Ret W10 /\
  NoDup W10 /\ Sorted (fun a b => str_ltb a b = true) W10.
Proof.
  assert (E : crawl_listing_posts T10 N10 F10 (s_ "https://s.com/") 10 = Ret W10)
    by (vm_compute; reflexivity).
  destruct (crawl_listing_posts_sorted T10 N10 F10 (s_ "https://s.com/") 10 W10 E)
    as (Hs & Hn & _).
  exact (conj E (conj Hn Hs)).
Defined.

Lemma crawl_listing_posts_sorted_counterexample :
  extract_posts T10c (s_ "<html>") = [s_ "//[x/en/"] /\
  urljoin (s_ "https://a.com/") (s_ "//[x/en/") = None /\
  crawl_listing_posts T10c (fun _ => None) F10c (s_ "https://a.com/") 10 = Raise ValueError.
Proof. refine (conj _ (conj _ _)); vm_compute; reflexivity. Qed.

(** * Further properties *)

(** ** Keys, quoted strings and arguments of the decoder *)

Section ReadBackFacts.
Context `{PyTables}.

Lemma spec_digit_value a d :
  0 <= d < a -> a <= 36 ->
  (if spec_digit d <=? 57 then spec_digit d - 48 else spec_digit d - 87) = d.
Proof.
  intros Hd Ha. unfold spec_digit.
  destruct (Z.ltb_spec d 10); cbv beta iota; zcmp; lia.
Qed.

Lemma key_value_base_repr a (Ha : 2 <= a <= 36) :
  forall f n, 0 <= n -> n < Z.of_nat f -> key_value a (base_repr f n a) = n.
Proof.
  induction f as [|f IH]; intros n Hn Hf; [lia|].
  cbn [base_repr]. destruct (Z.ltb_spec n a).
  - unfold key_value. cbn [fold_left]. rewrite (spec_digit_value a n) by lia. lia.
  - unfold key_value. rewrite fold_left_app. fold (key_value a (base_repr f (n / a) a)).
    cbn [fold_left]. rewrite IH.
    + rewrite (spec_digit_value a (n mod a)) by (try apply Z.mod_pos_bound; lia).
      rewrite Z.mul_comm. symmetry. apply Z.div_mod. lia.
    + apply Z.div_pos; lia.
    + assert (n / a < n) by (apply Z.div_lt; lia). lia.
Qed.

Lemma key_value_spec_key a n : 2 <= a <= 36 -> 0 <= n -> key_value a (spec_key n a) = n.
Proof. intros Ha Hn. unfold spec_key. apply key_value_base_repr; lia. Qed.

Lemma int_to_base_loop_neg fuel n a ds : n <= 0 -> int_to_base_loop fuel n a ds = Ret (List.concat ds).
Proof. intros Hn. destruct fuel; cbn [int_to_base_loop]; zcmp; reflexivity. Qed.

Lemma int_to_base_neg n a : n < 0 -> int_to_base n a = Ret [].
Proof.
  intros Hn. unfold int_to_base. zcmp. rewrite int_to_base_loop_neg by lia. reflexivity.
Qed.

Lemma int_to_base_zero_base n : 0 < n -> int_to_base n 0 = Raise ZeroDivisionError.
Proof.
  intros Hn. unfold int_to_base, size_fuel. zcmp. cbn [int_to_base_loop]. zcmp. reflexivity.
Qed.

Lemma int_to_base_loop_unary fuel : forall n ds, 0 < n -> int_to_base_loop fuel n 1 ds = Diverge.
Proof.
  induction fuel as [|f IH]; intros n ds Hn; cbn [int_to_base_loop]; zcmp; [reflexivity|].
  rewrite Z.mod_1_r, Z.div_1_r. cbn [obind]. apply IH. exact Hn.
Qed.

Lemma int_to_base_unary n : 0 < n -> int_to_base n 1 = Diverge.
Proof. intros Hn. unfold int_to_base. zcmp. apply int_to_base_loop_unary. exact Hn. Qed.

End ReadBackFacts.

Section QuoteFacts.
Context `{PyTables}.

Lemma utf8_char_no_backslash c b : utf8_char c = Some b -> c <> 92 -> ~ In 92 b.
Proof.
  intros E Hc. unfold utf8_char in E.
  assert (0 <= c mod 64) by (apply Z.mod_pos_bound; lia).
  assert (0 <= (c / 64) mod 64) by (apply Z.mod_pos_bound; lia).
  assert (0 <= (c / 4096) mod 64) by (apply Z.mod_pos_bound; lia).
  destruct (Z.ltb_spec c 0); [discriminate|].
  assert (0 <= c / 64) by (apply Z.div_pos; lia).
  assert (0 <= c / 4096) by (apply Z.div_pos; lia).
  assert (0 <= c / 262144) by (apply Z.div_pos; lia).
  destruct (Z.ltb_spec c 128).
  { apply some_eq in E. subst b. cbn [In]. lia. }
  assert (2 <= c / 64) by (apply Z.div_le_lower_bound; lia).
  destruct (Z.ltb_spec c 2048).
  { apply some_eq in E. subst b. cbn [In]. lia. }
  destruct ((55296 <=? c) && (c <=? 57343)); [discriminate|].
  destruct (Z.ltb_spec c 65536).
  { apply some_eq in E. subst b. cbn [In]. lia. }
  destruct (Z.leb_spec c 1114111); [|discriminate].
  apply some_eq in E. subst b. cbn [In]. lia.
Qed.

Lemma utf8_encode_no_backslash s : forall bs, utf8_encode s = Some bs -> ~ In 92 s -> ~ In 92 bs.
Proof.
  induction s as [|c t IH]; intros bs E Hn; simpl in E.
  - apply some_eq in E. subst. simpl. auto.
  - destruct (utf8_char c) as [b|] eqn:Ec; [|discriminate].
    destruct (utf8_encode t) as [r|] eqn:Et; [|discriminate].
    apply some_eq in E. subst bs. intros Hin. apply in_app_or in Hin. destruct Hin as [Hin|Hin].
    + apply (utf8_char_no_backslash c b Ec); [intros ->; apply Hn; left; reflexivity|exact Hin].
    + apply (IH r eq_refl); [intros Ht; apply Hn; right; exact Ht|exact Hin].
Qed.

Lemma utf8_encode_app a b x y :
  utf8_encode a = Some x -> utf8_encode b = Some y -> utf8_encode (a ++ b) = Some (x ++ y).
Proof.
  revert x; induction a as [|c t IH]; intros x Ea Eb; simpl in Ea.
  - apply some_eq in Ea. subst x. exact Eb.
  - destruct (utf8_char c) as [bc|] eqn:Ec; [|discriminate].
    destruct (utf8_encode t) as [r|] eqn:Et; [|discriminate].
    apply some_eq in Ea. subst x. cbn [app utf8_encode]. rewrite Ec, (IH r eq_refl Eb).
    rewrite app_assoc. reflexivity.
Qed.

Lemma unicode_escape_plain bs : forall f, ~ In 92 bs -> (List.length bs <= f)%nat ->
  unicode_escape_decode f bs = Some bs.
Proof.
  induction bs as [|b t IH]; intros f Hn Hf; destruct f as [|f]; try reflexivity.
  - simpl in Hf. lia.
  - cbn [unicode_escape_decode]. rewrite (proj2 (Z.eqb_neq b 92)) by (intros ->; apply Hn; left; reflexivity).
    cbn [negb]. rewrite IH; [reflexivity| |simpl in Hf; lia].
    intros Ht. apply Hn. right. exact Ht.
Qed.

Lemma unicode_escape_trailing bs : forall f, ~ In 92 bs -> (List.length bs < f)%nat ->
  unicode_escape_decode f (bs ++ [92]) = None.
Proof.
  induction bs as [|b t IH]; intros f Hn Hf; destruct f as [|f]; try (simpl in Hf; lia).
  - reflexivity.
  - cbn [app unicode_escape_decode]. rewrite (proj2 (Z.eqb_neq b 92)) by (intros ->; apply Hn; left; reflexivity).
    cbn [negb]. rewrite IH; [reflexivity| |simpl in Hf; lia].
    intros Ht. apply Hn. right. exact Ht.
Qed.

Lemma unquote_js_string_pair q s : q = 39 \/ q = 34 ->
  unquote_js_string (q :: s ++ [q]) =
  match utf8_encode s with Some bs => unicode_escape_decode (List.length bs) bs | None => None end.
Proof.
  intros Hq. unfold unquote_js_string.
  assert (Hqb : ((q =? 39) || (q =? 34)) = true) by (destruct Hq as [-> | ->]; reflexivity).
  assert (E : exists y t, s ++ [q] = y :: t) by (destruct s; simpl; eauto).
  destruct E as (y & t & E). rewrite E. cbv beta iota zeta. rewrite <- E.
  rewrite last_last, removelast_last, Hqb, Z.eqb_refl. reflexivity.
Qed.

Lemma k_star_no_backslash q l : ~ In 92 l -> k_star q l = None.
Proof.
  induction l as [|c t IH]; intros Hn; [reflexivity|].
  assert (Hc : c <> 92) by (intros ->; apply Hn; left; reflexivity).
  assert (Ht : ~ In 92 t) by (intros Ht; apply Hn; right; exact Ht).
  cbn [k_star]. rewrite (proj2 (Z.eqb_neq c 92)) by exact Hc. rewrite IH by exact Ht.
  replace (match t with c2 :: _ => if false && (c2 =? q) then _ else None | [] => None end)
    with (@None pystr) by (destruct t; reflexivity).
  destruct (c =? q); cbn [negb option_map andb]; [|reflexivity].
  destruct (is_prefix split_tail t) eqn:Ep; [|reflexivity].
  apply is_prefix_app in Ep. destruct Ep as [r ->]. exfalso. apply Ht.
  apply in_or_app. left. vm_compute. tauto.
Qed.

Lemma is_prefix_refl_app (p r : pystr) : is_prefix p (p ++ r) = true.
Proof. induction p as [|x p IH]; [destruct r; reflexivity|]. simpl. rewrite Z.eqb_refl, IH. reflexivity. Qed.

Lemma find_from_app n0 nt x r : forall i, ~ In n0 x ->
  find_from (n0 :: nt) (x ++ n0 :: nt ++ r) i = Some (i + List.length x)%nat.
Proof.
  induction x as [|c x IH]; intros i Hn.
  - cbn [app find_from]. change (n0 :: nt ++ r) with ((n0 :: nt) ++ r).
    rewrite (is_prefix_refl_app (n0 :: nt) r). f_equal. simpl. lia.
  - cbn [app find_from is_prefix]. rewrite (proj2 (Z.eqb_neq n0 c)) by (intros ->; apply Hn; left; reflexivity).
    cbn [andb]. rewrite IH by (intros Hx; apply Hn; right; exact Hx). f_equal. simpl. lia.
Qed.

Lemma strip_quoted p q s : p q = false -> strip_by p (q :: s ++ [q]) = q :: s ++ [q].
Proof.
  intros Hp. unfold strip_by, rstrip_by. rewrite (lstrip_noop p (q :: s ++ [q])) by exact Hp.
  rewrite (lstrip_noop p (rev (q :: s ++ [q]))).
  - apply rev_involutive.
  - simpl. rewrite rev_app_distr. simpl. exact Hp.
Qed.

End QuoteFacts.

Section SplitArgsFacts.
Context `{PyTables}.

Lemma split_args_quoted_body q b : q = 39 \/ q = 34 -> quoted_body q b ->
  forall rest parts cur,
  split_args_loop (b ++ q :: rest) parts cur (q =? 39) (q =? 34) false 0 =
  split_args_loop rest parts (q :: rev b ++ cur) false false false 0.
Proof.
  intros Hq Hb. induction Hb as [|c b Hcq Hc92 Hb IH|c b Hb IH]; intros rest parts cur.
  - destruct Hq as [-> | ->]; reflexivity.
  - cbn [app]. transitivity (split_args_loop (b ++ q :: rest) parts (c :: cur) (q =? 39) (q =? 34) false 0).
    + destruct Hq as [-> | ->]; cbn [split_args_loop];
        destruct (Z.eqb_spec c 92); try contradiction;
        destruct (Z.eqb_spec c 39); destruct (Z.eqb_spec c 34); destruct (Z.eqb_spec c 40);
        destruct (Z.eqb_spec c 41); destruct (Z.eqb_spec c 44); subst; try congruence; reflexivity.
    + rewrite IH. cbn [rev]. rewrite <- app_assoc. reflexivity.
  - cbn [app]. transitivity (split_args_loop (b ++ q :: rest) parts (c :: 92 :: cur) (q =? 39) (q =? 34) false 0).
    + reflexivity.
    + rewrite IH. cbn [rev]. rewrite <- !app_assoc. reflexivity.
Qed.

Lemma split_args_simple x : simple_arg x -> forall rest parts cur,
  split_args_loop (x ++ rest) parts cur false false false 0 =
  split_args_loop rest parts (rev x ++ cur) false false false 0.
Proof.
  induction 1 as [|c r Hc Hr IH|q b r Hq Hb Hr IH]; intros rest parts cur.
  - reflexivity.
  - cbn [app]. unfold plain_arg_char in Hc. apply negb_true_iff in Hc.
    rewrite !orb_false_iff in Hc. destruct Hc as [[[[[E1 E2] E3] E4] E5] E6].
    transitivity (split_args_loop (r ++ rest) parts (c :: cur) false false false 0).
    + cbn [split_args_loop]. rewrite E1, E2, E3, E4, E5, E6. reflexivity.
    + rewrite IH. cbn [rev]. rewrite <- app_assoc. reflexivity.
  - replace ((q :: b ++ q :: r) ++ rest) with (q :: b ++ q :: (r ++ rest))
      by (cbn [app]; rewrite <- app_assoc; reflexivity).
    transitivity (split_args_loop (b ++ q :: r ++ rest) parts (q :: cur) (q =? 39) (q =? 34) false 0).
    + destruct Hq as [-> | ->]; reflexivity.
    + rewrite (split_args_quoted_body q b Hq Hb), IH. cbn [rev]. rewrite rev_app_distr. cbn [rev].
      rewrite <- !app_assoc. reflexivity.
Qed.

Lemma is_nil_rev {A} (l : list A) : is_nil (rev l) = is_nil l.
Proof.
  destruct l as [|x l]; [reflexivity|]. cbn [rev].
  destruct (rev l ++ [x]) eqn:E; [|reflexivity]. apply app_eq_nil in E. destruct E as [_ E]. discriminate E.
Qed.

Lemma split_args_join_loop ps : forall p acc, simple_arg p -> Forall simple_arg ps ->
  split_args_loop (join [44] (p :: ps)) acc [] false false false 0 =
  if is_nil (last (p :: ps) []) then acc ++ map py_strip (removelast (p :: ps))
  else acc ++ map py_strip (p :: ps).
Proof.
  induction ps as [|p' ps IH]; intros p acc Hp Hps.
  - cbn [join last removelast map].
    pose proof (split_args_simple p Hp [] acc []) as E. rewrite app_nil_r in E. rewrite E.
    cbn [split_args_loop]. rewrite !app_nil_r, is_nil_rev, rev_involutive. reflexivity.
  - inversion Hps as [|? ? Hp' Hps']. subst.
    change (join [44] (p :: p' :: ps)) with (p ++ 44 :: join [44] (p' :: ps)).
    rewrite (split_args_simple p Hp).
    transitivity (split_args_loop (join [44] (p' :: ps)) (acc ++ [py_strip (rev (rev p ++ []))]) []
                    false false false 0); [reflexivity|].
    rewrite app_nil_r, rev_involutive, (IH p' _ Hp' Hps').
    change (last (p :: p' :: ps) []) with (last (p' :: ps) []).
    change (removelast (p :: p' :: ps)) with (p :: removelast (p' :: ps)).
    cbn [map]. destruct (is_nil (last (p' :: ps) [])); rewrite <- app_assoc; reflexivity.
Qed.

End SplitArgsFacts.

(** X1: for a base between 2 and 36 and a non-negative number,
    [int_to_base] returns a non-empty key of word characters that
    [int(key, base)] reads back as the number; so distinct non-negative
    numbers get distinct keys. *)
Theorem int_to_base_reads_back `{PyTables} a n : 2 <= a <= 36 -> 0 <= n ->
  (exists key, int_to_base n a = Ret key /\ key <> [] /\
     Forall (fun c => is_word c = true) key /\ key_value a key = n) /\
  (forall m, 0 <= m -> int_to_base m a = int_to_base n a -> m = n).
Proof.
  intros Ha Hn. split.
  - exists (spec_key n a). split; [apply int_to_base_spec; auto|]. split.
    + unfold spec_key. apply base_repr_nonempty.
    + split; [|apply key_value_spec_key; auto].
      apply Forall_forall. intros x Hx. apply (base_repr_word a Ha _ n x Hn Hx).
  - intros m Hm E. rewrite !int_to_base_spec in E by auto.
    assert (Ek : spec_key m a = spec_key n a) by congruence.
    transitivity (key_value a (spec_key m a)); [symmetry; apply key_value_spec_key; auto|].
    rewrite Ek. apply key_value_spec_key; auto.
Qed.

Lemma int_to_base_reads_back_witness :
  (exists key, int_to_base 71 36 = Ret key /\ key <> [] /\
     Forall (fun c => is_word c = true) key /\ key_value 36 key = 71) /\
  (forall m, 0 <= m -> int_to_base m 36 = int_to_base 71 36 -> m = 71).
Proof. apply (int_to_base_reads_back 36 71); lia. Defined.

(** X2: [int_to_base] on a negative number returns the empty key for
    every base; on a positive number it raises ZeroDivisionError for
    base 0 and never terminates for base 1. *)
Theorem int_to_base_degenerate `{PyTables} n :
  (n < 0 -> forall a, int_to_base n a = Ret []) /\
  (0 < n -> int_to_base n 0 = Raise ZeroDivisionError) /\
  (0 < n -> int_to_base n 1 = Diverge).
Proof.
  split; [|split].
  - intros Hn a. apply int_to_base_neg. exact Hn.
  - apply int_to_base_zero_base.
  - apply int_to_base_unary.
Qed.

Lemma int_to_base_degenerate_witness :
  int_to_base (-5) 10 = Ret [] /\ int_to_base 7 0 = Raise ZeroDivisionError /\
  int_to_base 7 1 = Diverge.
Proof.
  destruct (int_to_base_degenerate (-5)) as [H1 _].
  destruct (int_to_base_degenerate 7) as [_ [H2 H3]].
  split; [apply H1; lia|]. split; [apply H2; lia|apply H3; lia].
Defined.

(** X3: once the packed call's fields and dictionary are read, a count
    [c] of at most 0 makes the decoder return the unquoted payload
    unchanged; with [c] at least 2, base 0 makes it raise
    ZeroDivisionError and base 1 makes it loop forever (key [c - 1] is
    computed first). *)
Theorem decode_packed_eval_degenerate `{PyTables} payload p_part a c k_part kstr :
  packed_fields payload = Some (p_part, a, c, k_part) ->
  dict_string k_part = Ret kstr ->
  (c <= 0 -> decode_packed_eval payload = Ret (Some (payload_text p_part))) /\
  (2 <= c -> a = 0 -> decode_packed_eval payload = Raise ZeroDivisionError) /\
  (2 <= c -> a = 1 -> decode_packed_eval payload = Diverge).
Proof.
  intros Hf Hd. unfold decode_packed_eval. rewrite Hf. cbv beta iota zeta. rewrite Hd. cbn [obind].
  split; [|split].
  - intros Hc. replace (Z.to_nat c) with 0%nat by lia. reflexivity.
  - intros Hc ->. destruct (Z.to_nat c) as [|[|m]] eqn:Ec; [lia|lia|].
    cbn [subst_down]. rewrite int_to_base_zero_base by lia. reflexivity.
  - intros Hc ->. destruct (Z.to_nat c) as [|[|m]] eqn:Ec; [lia|lia|].
    cbn [subst_down]. rewrite int_to_base_unary by lia. reflexivity.
Qed.

Lemma decode_packed_eval_degenerate_witness :
  decode_packed_eval P3u = Diverge /\ decode_packed_eval P3z = Raise ZeroDivisionError.
Proof.
  split.
  - destruct (decode_packed_eval_degenerate P3u (s_ "'0 1'") 1 2 (s_ "'a|b'.split('|')") (s_ "a|b"))
      as (_ & _ & H3); [vm_compute; reflexivity|vm_compute; reflexivity|].
    apply H3; lia.
  - destruct (decode_packed_eval_degenerate P3z (s_ "'0 1'") 0 2 (s_ "'a|b'.split('|')") (s_ "a|b"))
      as (_ & H2 & _); [vm_compute; reflexivity|vm_compute; reflexivity|].
    apply H2; lia.
Defined.

(** X4: [unquote_js_string] on a text between matching single or
    double quotes, with no backslash, returns the UTF-8 bytes of the text
    read back one code point per byte: ASCII text comes back unchanged,
    other text is garbled; a lone surrogate, or a backslash just before
    the closing quote, makes it fail (UnicodeError). *)
Theorem unquote_js_string_quoted `{PyTables} q s : q = 39 \/ q = 34 -> ~ In 92 s ->
  (forall bs, utf8_encode s = Some bs -> unquote_js_string (q :: s ++ [q]) = Some bs) /\
  (is_ascii_str s = true -> unquote_js_string (q :: s ++ [q]) = Some s) /\
  (utf8_encode s = None -> unquote_js_string (q :: s ++ [q]) = None) /\
  (utf8_encode s <> None -> unquote_js_string (q :: s ++ [92; q]) = None).
Proof.
  intros Hq Hn.
  assert (Hb : forall bs, utf8_encode s = Some bs -> unquote_js_string (q :: s ++ [q]) = Some bs).
  { intros bs Hu. rewrite (unquote_js_string_pair q s Hq), Hu.
    apply unicode_escape_plain; [apply (utf8_encode_no_backslash s); auto|lia]. }
  split; [exact Hb|]. split; [|split].
  - intros Ha. apply Hb. apply utf8_encode_ascii. exact Ha.
  - intros Hu. rewrite (unquote_js_string_pair q s Hq), Hu. reflexivity.
  - intros Hu. destruct (utf8_encode s) as [bs|] eqn:Es; [|congruence].
    replace (q :: s ++ [92; q]) with (q :: (s ++ [92]) ++ [q]) by (rewrite <- app_assoc; reflexivity).
    rewrite (unquote_js_string_pair q (s ++ [92]) Hq).
    rewrite (utf8_encode_app s [92] bs [92] Es eq_refl).
    apply unicode_escape_trailing; [apply (utf8_encode_no_backslash s); auto|].
    rewrite length_app. simpl. lia.
Qed.

Lemma unquote_js_string_quoted_witness :
  unquote_js_string (39 :: [233] ++ [39]) = Some [195; 169].
Proof.
  destruct (unquote_js_string_quoted 39 [233]) as [H1 _].
  - left. reflexivity.
  - apply mem_char_false. reflexivity.
  - apply H1. reflexivity.
Defined.



(** X6: a dictionary part of the usual form [q s q.split('|')], with
    [q] a single or double quote and [s] free of backslashes and dots,
    is read as the UTF-8 bytes of [s] taken one code point per byte (the
    regular expression's group never matches it); with a single quote
    and [s] starting with ')', the read raises TypeError. *)
Theorem dict_string_split_form `{PyTables} q s bs :
  q = 39 \/ q = 34 -> ~ In 92 s ->
  (q = 39 -> hd 0 s <> 41 -> ~ In 46 s -> utf8_encode s = Some bs ->
     dict_string (q :: s ++ q :: s_ ".split('|')") = Ret bs) /\
  (q = 34 -> ~ In 46 s -> utf8_encode s = Some bs ->
     dict_string (q :: s ++ q :: s_ ".split('|')") = Ret bs) /\
  (q = 39 -> hd 0 s = 41 -> dict_string (q :: s ++ q :: s_ ".split('|')") = Raise TypeError).
Proof.
  intros Hq Hn.
  assert (Hqb : ((q =? 39) || (q =? 34)) = true) by (destruct Hq as [-> | ->]; reflexivity).
  assert (Hq92 : q <> 92) by (destruct Hq; lia).
  assert (Hall : ~ In 92 (s ++ q :: s_ ".split('|')")).
  { intros Hin. apply in_app_or in Hin. destruct Hin as [Hin|[Hin|Hin]]; [tauto|congruence|].
    revert Hin. apply mem_char_false. reflexivity. }
  assert (Hread : (is_prefix [39; 41] (q :: s ++ q :: s_ ".split('|')") = false) ->
                  ~ In 46 s -> utf8_encode s = Some bs ->
                  dict_string (q :: s ++ q :: s_ ".split('|')") = Ret bs).
  { intros Hp Hdot Hu. unfold dict_string, k_regex_match. cbv beta iota zeta.
    rewrite Hqb, (k_star_no_backslash q _ Hall). cbn [option_map]. rewrite Hp.
    unfold before_split, py_find. change (s_ ".split") with (46 :: s_ "split").
    replace (q :: s ++ q :: s_ ".split('|')")
      with ((q :: s ++ [q]) ++ 46 :: s_ "split" ++ s_ "('|')")
      by (cbn [app]; rewrite <- app_assoc; reflexivity).
    rewrite find_from_app.
    2:{ intros Hin. destruct Hin as [Hin|Hin]; [destruct Hq; lia|].
        apply in_app_or in Hin. destruct Hin as [Hin|[Hin|Hin]]; [tauto|destruct Hq; lia|exact Hin]. }
    rewrite Nat.add_0_l, firstn_app, Nat.sub_diag, firstn_O, app_nil_r, firstn_all.
    unfold py_strip. rewrite strip_quoted by (destruct Hq as [-> | ->]; reflexivity).
    rewrite (unquote_js_string_pair q s Hq), Hu.
    rewrite unicode_escape_plain; [reflexivity|apply (utf8_encode_no_backslash s); auto|lia]. }
  split; [|split].
  - intros -> Hh. apply Hread. destruct s as [|c s']; [reflexivity|].
    cbn [hd] in Hh. cbn [app is_prefix]. rewrite (proj2 (Z.eqb_neq 41 c)) by congruence.
    rewrite andb_false_r. reflexivity.
  - intros ->. apply Hread. reflexivity.
  - intros -> Hh. destruct s as [|c s']; [discriminate|]. cbn [hd] in Hh. subst c.
    unfold dict_string, k_regex_match. cbv beta iota zeta.
    rewrite (k_star_no_backslash 39 _ Hall). reflexivity.
Qed.

Lemma dict_string_split_form_witness :
  dict_string (39 :: s_ "a|b" ++ 39 :: s_ ".split('|')") = Ret (s_ "a|b") /\
  dict_string (39 :: s_ ")|b" ++ 39 :: s_ ".split('|')") = Raise TypeError.
Proof.
  split.
  - destruct (dict_string_split_form 39 (s_ "a|b") (s_ "a|b")) as [H1 _].
    + left. reflexivity.
    + apply mem_char_false. reflexivity.
    + apply H1; [reflexivity|discriminate|apply mem_char_false; reflexivity|reflexivity].
  - destruct (dict_string_split_form 39 (s_ ")|b") (s_ ")|b")) as (_ & _ & H3).
    + left. reflexivity.
    + apply mem_char_false. reflexivity.
    + apply H3; reflexivity.
Defined.

(** ** Counters and columns of the merge *)

Section MergeExtraFacts.
Context `{PyTables}.
Variable fmt : Z -> pystr.

Lemma add_columns_iff cols cs c : In c (add_columns cols cs) <-> In c cols \/ In c cs.
Proof.
  split.
  - unfold add_columns. revert cols; induction cs as [|d cs IH]; intros cols Hc; simpl in *; [tauto|].
    apply IH in Hc. destruct Hc as [Hc|Hc]; [|tauto].
    destruct (str_in d cols); [tauto|]. apply in_app_or in Hc. simpl in Hc. tauto.
  - intros [Hc|Hc]; [apply add_columns_in|apply add_columns_new]; exact Hc.
Qed.

Lemma add_columns_nodup cols cs : NoDup cols -> NoDup (add_columns cols cs).
Proof.
  unfold add_columns. revert cols; induction cs as [|d cs IH]; intros cols Hn; simpl; [exact Hn|].
  apply IH. destruct (str_in d cols) eqn:E; [exact Hn|].
  apply str_in_false in E. apply NoDup_app; [exact Hn|constructor; [simpl; tauto|constructor]|].
  intros x Hx [Hy|[]]. subst. contradiction.
Qed.

Lemma merge_row_columns m f st r : ms_columns (merge_row m f st r) = ms_columns st.
Proof.
  unfold merge_row. destruct (is_nil _); [reflexivity|].
  destruct (assoc_find _ _) as [[[? ?] ?]|]; reflexivity.
Qed.

Lemma merge_rows_columns m f rows : forall st,
  ms_columns (fold_left (merge_row m f) rows st) = ms_columns st.
Proof.
  induction rows as [|r rows IH]; intros st; [reflexivity|]. simpl. rewrite IH. apply merge_row_columns.
Qed.

Lemma merge_file_columns st f :
  ms_columns (merge_file st f) = add_columns (ms_columns st) (csv_fieldnames f).
Proof.
  unfold merge_file. destruct (csv_fieldnames f) as [|c cs] eqn:Ef; [reflexivity|]. cbn [is_nil].
  rewrite <- Ef. destruct (negb _); [reflexivity|]. rewrite merge_rows_columns. reflexivity.
Qed.

Lemma merge_files_columns files : forall st c,
  In c (ms_columns (fold_left merge_file files st)) <->
  In c (ms_columns st) \/ exists f, In f files /\ In c (csv_fieldnames f).
Proof.
  induction files as [|f files IH]; intros st c; simpl.
  - split; [tauto|]. intros [H0|(f & [] & _)]. exact H0.
  - rewrite IH, merge_file_columns, add_columns_iff. split.
    + intros [[H0|H0]|(g & Hg & Hc)]; [tauto|right; exists f; tauto|right; exists g; tauto].
    + intros [H0|(g & [<-|Hg] & Hc)]; [tauto|tauto|right; exists g; tauto].
Qed.

Lemma merge_files_columns_nodup files : forall st,
  NoDup (ms_columns st) -> NoDup (ms_columns (fold_left merge_file files st)).
Proof.
  induction files as [|f files IH]; intros st Hn; simpl; [exact Hn|].
  apply IH. rewrite merge_file_columns. apply add_columns_nodup. exact Hn.
Qed.

Lemma assoc_set_length {A} k (v : A) l : List.length (assoc_set k v l) = List.length l.
Proof. rewrite <- (length_map fst (assoc_set k v l)), assoc_set_keys, length_map. reflexivity. Qed.

Lemma merge_row_counters m f st r : counters_ok st -> counters_ok (merge_row m f st r).
Proof.
  unfold counters_ok, merge_row. intros (E & H1 & H2). destruct (is_nil _); cbn - [Z.of_nat]; [lia|].
  destruct (assoc_find _ _) as [[[pm ?] ?]|]; cbn - [Z.of_nat].
  - destruct (pm <? m); [rewrite assoc_set_length|]; lia.
  - rewrite length_app. simpl List.length. lia.
Qed.

Lemma merge_files_counters files : forall st, counters_ok st -> counters_ok (fold_left merge_file files st).
Proof.
  induction files as [|f files IH]; intros st Hs; simpl; [exact Hs|]. apply IH.
  unfold merge_file. destruct (is_nil _); [exact Hs|].
  destruct (negb _); [exact Hs|].
  assert (Hrows : forall rows st', counters_ok st' -> counters_ok (fold_left (merge_row (csv_mtime f) (csv_name f)) rows st')).
  { induction rows as [|r rows IHr]; intros st' Hs'; simpl; [exact Hs'|]. apply IHr, merge_row_counters, Hs'. }
  apply Hrows. exact Hs.
Qed.

Lemma out_row_names cols item : map fst (out_row fmt cols item) = out_columns cols.
Proof.
  destruct item as [k [[m f] r]]. unfold out_row. rewrite map_map.
  erewrite map_ext; [apply map_id|]. intros c. cbn beta.
  destruct (str_eqb c _); [reflexivity|]. destruct (str_eqb c _); [reflexivity|].
  destruct (str_eqb c _); reflexivity.
Qed.

End MergeExtraFacts.

(** X7: the counters [merge_csvs] prints add up: every row read is
    counted exactly once, as skipped (blank key), kept (one per distinct
    key) or duplicate; so the total is the sum of the three. *)
Theorem merge_csvs_counters_sum `{PyTables} (fmt : Z -> pystr) dir out :
  merge_csvs fmt dir = Some out ->
  mo_total_rows out = mo_skipped out + mo_unique out + mo_duplicates out /\
  0 <= mo_skipped out /\ 0 <= mo_duplicates out.
Proof.
  unfold merge_csvs. destruct (is_nil (list_csv_files dir)); [discriminate|].
  intros E. apply some_eq in E. subst out. cbn [mo_total_rows mo_skipped mo_unique mo_duplicates].
  destruct (merge_files_counters (list_csv_files dir) merge_init) as (E & H1 & H2).
  - unfold counters_ok. simpl. lia.
  - unfold merge_scan. lia.
Qed.

Lemma merge_csvs_counters_sum_witness :
  mo_total_rows (get_output (merge_csvs fmt0 D9w)) =
    mo_skipped (get_output (merge_csvs fmt0 D9w)) + mo_unique (get_output (merge_csvs fmt0 D9w))
    + mo_duplicates (get_output (merge_csvs fmt0 D9w)) /\
  0 <= mo_skipped (get_output (merge_csvs fmt0 D9w)) /\
  0 <= mo_duplicates (get_output (merge_csvs fmt0 D9w)).
Proof. apply (merge_csvs_counters_sum fmt0 D9w). vm_compute. reflexivity. Defined.

(** X8: the header [merge_csvs] writes has no repeated column; its
    columns are those of every listed snapshot with a header (also the
    snapshots skipped for lacking [page_url]) and the three extra
    columns; every written row has exactly the header's fields, in the
    header's order. *)
Theorem merge_csvs_header `{PyTables} (fmt : Z -> pystr) dir out :
  merge_csvs fmt dir = Some out ->
  NoDup (mo_header out) /\
  (forall c, In c (mo_header out) <->
     In c extras \/ exists f, In f (list_csv_files dir) /\ In c (csv_fieldnames f)) /\
  (forall row, In row (mo_rows out) -> map fst row = mo_header out).
Proof.
  unfold merge_csvs. destruct (is_nil (list_csv_files dir)); [discriminate|].
  intros E. apply some_eq in E. subst out. cbn [mo_header mo_rows]. split; [|split].
  - apply add_columns_nodup. apply merge_files_columns_nodup. constructor.
  - intros c. unfold out_columns. fold (add_columns (ms_columns (merge_scan (list_csv_files dir))) extras).
    rewrite add_columns_iff. unfold merge_scan. rewrite merge_files_columns. simpl. tauto.
  - intros row Hr. apply in_map_iff in Hr. destruct Hr as (item & <- & _). apply out_row_names.
Qed.

Lemma merge_csvs_header_witness :
  NoDup (mo_header (get_output (merge_csvs fmt0 D9w))) /\
  (forall c, In c (mo_header (get_output (merge_csvs fmt0 D9w))) <->
     In c extras \/ exists f, In f (list_csv_files D9w) /\ In c (csv_fieldnames f)) /\
  (forall row, In row (mo_rows (get_output (merge_csvs fmt0 D9w))) ->
     map fst row = mo_header (get_output (merge_csvs fmt0 D9w))).
Proof. apply (merge_csvs_header fmt0 D9w). vm_compute. reflexivity. Defined.

(** X9: [list_csv_files] returns exactly the listed files whose
    lowercased name ends in ".csv" and whose name is not exactly
    "combined.csv", newest first; files with the same modification time
    keep the order of the directory listing. *)
Theorem list_csv_files_spec `{PyTables} dir :
  (forall f, In f (list_csv_files dir) <->
     In f dir /\ ends_with (s_ ".csv") (py_lower (csv_name f)) = true /\
     csv_name f <> OUTPUT_BASENAME) /\
  Sorted (fun x y => csv_mtime y <= csv_mtime x) (list_csv_files dir) /\
  (forall t, filter (fun f => csv_mtime f =? t) (list_csv_files dir) =
     filter (fun f => (csv_mtime f =? t) && ends_with (s_ ".csv") (py_lower (csv_name f))
                      && negb (str_eqb (csv_name f) OUTPUT_BASENAME)) dir).
Proof.
  unfold list_csv_files. split; [|split].
  - intros f. split.
    + intros Hf. apply (Permutation_in _ (sort_by_perm _ _)) in Hf.
      apply filter_In in Hf. destruct Hf as [Hf Hp]. apply andb_true_iff in Hp. destruct Hp as [Hp Hn].
      apply negb_true_iff, str_eqb_neq in Hn. auto.
    + intros (Hf & Hp & Hn). apply (Permutation_in _ (Permutation_sym (sort_by_perm _ _))).
      apply filter_In. split; [exact Hf|]. rewrite Hp. apply str_eqb_neq in Hn. rewrite Hn. reflexivity.
  - apply (sort_desc_sorted csv_mtime).
  - intros t. rewrite (sort_desc_filter csv_mtime).
    induction dir as [|g dir IH]; [reflexivity|]. cbn [filter].
    destruct (ends_with (s_ ".csv") (py_lower (csv_name g))), (str_eqb (csv_name g) OUTPUT_BASENAME);
      cbn [andb negb filter]; destruct (csv_mtime g =? t); cbn [andb]; rewrite ?IH; reflexivity.
Qed.

(** ** scripts/scraper.py: post links, the collected rows, and merging them *)

Section ScraperFacts.
Context `{PyTables}.

Lemma strip_prefix_app (p s : pystr) : strip_prefix p (p ++ s) = Some s.
Proof. unfold strip_prefix. rewrite is_prefix_refl_app, skipn_length_app. reflexivity. Qed.

Lemma strip_prefix_some (p s r : pystr) : strip_prefix p s = Some r -> s = p ++ r.
Proof.
  unfold strip_prefix. destruct (is_prefix p s) eqn:E; [|discriminate].
  intros Hr. apply some_eq in Hr. subst r.
  destruct (is_prefix_app p s E) as [r ->]. rewrite skipn_length_app. reflexivity.
Qed.

Lemma span_app (p : Z -> bool) (s a b : pystr) :
  span p s = (a, b) ->
  s = a ++ b /\ Forall (fun c => p c = true) a /\
  match b with c :: _ => p c = false | [] => True end.
Proof.
  revert a b; induction s as [|c t IH]; intros a b E; simpl in E.
  - injection E as <- <-. auto.
  - destruct (p c) eqn:Ep.
    + destruct (span p t) as [a' b'] eqn:Es. injection E as <- <-.
      destruct (IH a' b' eq_refl) as (-> & Ha & Hb). simpl. auto.
    + injection E as <- <-. simpl. auto.
Qed.

Lemma span_of_app (p : Z -> bool) (a b : pystr) :
  Forall (fun c => p c = true) a ->
  match b with c :: _ => p c = false | [] => True end ->
  span p (a ++ b) = (a, b).
Proof.
  intros Ha Hb. induction Ha as [|c a Hc Ha IH]; simpl.
  - destruct b as [|c t]; simpl; auto. rewrite Hb. reflexivity.
  - rewrite Hc, IH. reflexivity.
Qed.

Lemma re_digit_slash : re_digit 47 = false.
Proof. reflexivity. Qed.

Lemma drop_s (r : pystr) :
  (exists t, r = 115 :: t /\ match r with 115 :: t => t | _ => r end = t) \/
  (match r with 115 :: t => t | _ => r end = r /\ forall t, r <> 115 :: t).
Proof.
  destruct r as [|x t]; [right; split; [reflexivity | congruence]|].
  destruct (Z.eq_dec x 115) as [->|Hx]; [left; eauto|right].
  split; [|congruence].
  destruct x as [|p|p]; try reflexivity; repeat (destruct p; try reflexivity); congruence.
Qed.

Lemma slash_case (r3 : pystr) :
  match r3 with 47 :: c :: _ => negb (c =? 10) | _ => false end = true ->
  exists c rest, r3 = 47 :: c :: rest /\ c <> 10.
Proof.
  destruct r3 as [|x [|c rest]]; try discriminate.
  - destruct x as [|p|p]; try discriminate; repeat (destruct p; try discriminate).
  - destruct (Z.eq_dec x 47) as [->|Hx].
    + intros E. apply negb_true_iff, Z.eqb_neq in E. eauto.
    + destruct x as [|p|p]; try discriminate; repeat (destruct p; try discriminate); congruence.
Qed.

Lemma post_pattern_match_iff (h : pystr) :
  post_pattern_match h = true <->
  exists sch ds c rest,
    (sch = s_ "http" \/ sch = s_ "https") /\ ds <> [] /\
    Forall (fun d => re_digit d = true) ds /\ c <> 10 /\
    h = sch ++ s_ "://jav.guru/" ++ ds ++ 47 :: c :: rest.
Proof.
  split.
  - unfold post_pattern_match. destruct (strip_prefix (s_ "http") h) as [r|] eqn:E1; [|discriminate].
    apply strip_prefix_some in E1.
    set (r' := match r with 115 :: t => t | _ => r end).
    assert (Hr : exists sch, (sch = s_ "http" \/ sch = s_ "https") /\ h = sch ++ r').
    { unfold r'. destruct (drop_s r) as [(t & Er & Em) | [Em _]]; rewrite Em.
      - exists (s_ "https"). split; auto. rewrite E1, Er. reflexivity.
      - exists (s_ "http"). split; auto. }
    clearbody r'. destruct Hr as (sch & Hsch & Hh).
    destruct (strip_prefix (s_ "://jav.guru/") r') as [r2|] eqn:E2; [|discriminate].
    apply strip_prefix_some in E2.
    destruct (span re_digit r2) as [ds r3] eqn:E3. apply span_app in E3. destruct E3 as (-> & Hds & _).
    intros E. apply andb_true_iff in E. destruct E as [Hn E].
    destruct (slash_case r3 E) as (c & rest & -> & Hc).
    exists sch, ds, c, rest. repeat split; auto.
    + intros ->. discriminate.
    + rewrite Hh, E2. reflexivity.
  - intros (sch & ds & c & rest & Hsch & Hne & Hds & Hc & ->).
    assert (Hd : span re_digit (ds ++ 47 :: c :: rest) = (ds, 47 :: c :: rest))
      by (apply span_of_app; [exact Hds | exact re_digit_slash]).
    unfold post_pattern_match.
    destruct Hsch as [-> | ->].
    + change (s_ "http" ++ s_ "://jav.guru/" ++ ds ++ 47 :: c :: rest)
        with (s_ "http" ++ (s_ "://jav.guru/" ++ ds ++ 47 :: c :: rest)).
      rewrite strip_prefix_app. cbv beta iota.
      change (s_ "://jav.guru/" ++ ds ++ 47 :: c :: rest)
        with (58 :: (s_ "//jav.guru/" ++ ds ++ 47 :: c :: rest)).
      cbv iota. change (58 :: s_ "//jav.guru/" ++ ds ++ 47 :: c :: rest)
        with (s_ "://jav.guru/" ++ (ds ++ 47 :: c :: rest)).
      rewrite strip_prefix_app. cbv beta iota. rewrite Hd.
      destruct ds; [congruence|]. apply Z.eqb_neq in Hc. cbn. rewrite Hc. reflexivity.
    + change (s_ "https" ++ s_ "://jav.guru/" ++ ds ++ 47 :: c :: rest)
        with (s_ "http" ++ (115 :: s_ "://jav.guru/" ++ (ds ++ 47 :: c :: rest))).
      rewrite strip_prefix_app. cbv beta iota.
      rewrite strip_prefix_app. cbv beta iota. rewrite Hd.
      destruct ds; [congruence|]. apply Z.eqb_neq in Hc. cbn. rewrite Hc. reflexivity.
Qed.

Lemma pair_eqb_eq (x y : pystr * pystr) : pair_eqb x y = true <-> x = y.
Proof.
  destruct x as [a b], y as [c d]. unfold pair_eqb. simpl.
  rewrite andb_true_iff, !str_eqb_eq. split; [intros [-> ->]; reflexivity | intros E; injection E; auto].
Qed.

Lemma pair_set_add_in s x y : In y (pair_set_add s x) <-> In y s \/ y = x.
Proof.
  unfold pair_set_add. destruct (existsb (pair_eqb x) s) eqn:E.
  - apply existsb_exists in E. destruct E as (z & Hz & Ez). apply pair_eqb_eq in Ez. subst z.
    split; [auto|]. intros [Hy | ->]; auto.
  - rewrite in_app_iff. simpl. split; intros [Hy | Hy]; auto; destruct Hy as [-> | []]; auto.
Qed.

Lemma pair_set_add_nodup s x : NoDup s -> NoDup (pair_set_add s x).
Proof.
  unfold pair_set_add. destruct (existsb (pair_eqb x) s) eqn:E; auto. intros Hn.
  apply (Permutation_NoDup (Permutation_cons_append s x)). constructor; [|exact Hn].
  intros Hx. assert (existsb (pair_eqb x) s = true) by
    (apply existsb_exists; exists x; split; [exact Hx | apply pair_eqb_eq; reflexivity]).
  congruence.
Qed.

Lemma pair_set_add_fold l : forall acc x,
  In x (fold_left pair_set_add l acc) <-> In x acc \/ In x l.
Proof.
  induction l as [|y l IH]; intros acc x; simpl; [tauto|].
  rewrite IH, pair_set_add_in. intuition.
Qed.

Lemma pair_set_add_fold_nodup l : forall acc, NoDup acc -> NoDup (fold_left pair_set_add l acc).
Proof.
  induction l as [|y l IH]; intros acc Hn; simpl; auto. apply IH, pair_set_add_nodup, Hn.
Qed.

Lemma extract_links_fold anchors : forall acc x,
  In x (fold_left (fun found (a : Anchor) =>
               let '(href, img) := a in
               if post_pattern_match href then
                 match img with
                 | Some (Some src) => if is_nil src then found else pair_set_add found (href, src)
                 | _ => found
                 end
               else found) anchors acc)
  <-> In x acc \/ link_of anchors x.
Proof.
  unfold link_of. induction anchors as [|[href img] anchors IH]; intros acc x; simpl.
  - tauto.
  - rewrite IH. destruct x as [h s]. simpl.
    destruct (post_pattern_match href) eqn:Ep.
    + destruct img as [[src|]|].
      * destruct (is_nil src) eqn:En.
        -- apply is_nil_true in En. subst src. split.
           ++ intros [Hx | (Hm & Hs & Hi)]; [left; exact Hx | right; auto].
           ++ intros [Hx | (Hm & Hs & [Eq | Hi])]; auto. injection Eq as E1 E2. subst. congruence.
        -- apply is_nil_false in En. rewrite pair_set_add_in. split.
           ++ intros [[Hx | Eq] | (Hm & Hs & Hi)]; auto.
              injection Eq as -> ->. right. auto.
           ++ intros [Hx | (Hm & Hs & [Eq | Hi])]; auto. injection Eq as -> ->. auto.
      * split; [intros [Hx | (Hm & Hs & Hi)]; auto|].
        intros [Hx | (Hm & Hs & [Eq | Hi])]; auto. discriminate.
      * split; [intros [Hx | (Hm & Hs & Hi)]; auto|].
        intros [Hx | (Hm & Hs & [Eq | Hi])]; auto. discriminate.
    + split; [intros [Hx | (Hm & Hs & Hi)]; auto|].
      intros [Hx | (Hm & Hs & [Eq | Hi])]; auto. injection Eq as -> _. congruence.
Qed.

Lemma extract_links_fold_nodup anchors : forall acc, NoDup acc ->
  NoDup (fold_left (fun found (a : Anchor) =>
               let '(href, img) := a in
               if post_pattern_match href then
                 match img with
                 | Some (Some src) => if is_nil src then found else pair_set_add found (href, src)
                 | _ => found
                 end
               else found) anchors acc).
Proof.
  induction anchors as [|[href img] anchors IH]; intros acc Hn; simpl; auto.
  apply IH. destruct (post_pattern_match href); auto.
  destruct img as [[src|]|]; auto. destruct (is_nil src); auto. apply pair_set_add_nodup, Hn.
Qed.

Lemma extract_links_in anchors x : In x (extract_links anchors) <-> link_of anchors x.
Proof. unfold extract_links. rewrite extract_links_fold. simpl. tauto. Qed.

Lemma extract_links_nodup anchors : NoDup (extract_links anchors).
Proof. apply extract_links_fold_nodup. constructor. Qed.

Section Pages.
Variable page_anchors : pystr -> list Anchor.

Lemma process_pages_in htmls : forall acc x,
  In x (fold_left (process_page page_anchors) htmls acc) <-> In x acc \/ page_link page_anchors htmls x.
Proof.
  unfold page_link. induction htmls as [|html htmls IH]; intros acc x; simpl.
  - split; [tauto|]. intros [Hx | (h & [] & _)]. exact Hx.
  - rewrite IH. unfold process_page. destruct html as [h|].
    + destruct (is_nil h) eqn:En.
      * apply is_nil_true in En. subst h. split.
        -- intros [Hx | (h' & Hh & Hne & Hl)]; [left; exact Hx | right; exists h'; auto].
        -- intros [Hx | (h' & [Eq | Hh] & Hne & Hl)]; [left; exact Hx | | right; exists h'; auto].
           injection Eq as <-. congruence.
      * apply is_nil_false in En. rewrite pair_set_add_fold, extract_links_in. split.
        -- intros [[Hx | Hl] | (h' & Hh & Hne & Hl)];
             [left; exact Hx | right; exists h; auto | right; exists h'; auto].
        -- intros [Hx | (h' & [Eq | Hh] & Hne & Hl)];
             [left; left; exact Hx | | right; exists h'; auto].
           injection Eq as <-. left; right; exact Hl.
    + split.
      * intros [Hx | (h' & Hh & Hne & Hl)]; [left; exact Hx | right; exists h'; auto].
      * intros [Hx | (h' & [Eq | Hh] & Hne & Hl)]; [left; exact Hx | discriminate | right; exists h'; auto].
Qed.

Lemma process_pages_nodup htmls : forall acc, NoDup acc ->
  NoDup (fold_left (process_page page_anchors) htmls acc).
Proof.
  induction htmls as [|html htmls IH]; intros acc Hn; simpl; auto. apply IH.
  unfold process_page. destruct html as [h|]; auto. destruct (is_nil h); auto.
  apply pair_set_add_fold_nodup, Hn.
Qed.

Lemma scraper_rows_in htmls x : In x (scraper_rows page_anchors htmls) <-> page_link page_anchors htmls x.
Proof.
  unfold scraper_rows. split.
  - intros Hx. apply (Permutation_in _ (sort_by_perm _ _)) in Hx.
    apply process_pages_in in Hx. destruct Hx as [[] | Hx]. exact Hx.
  - intros Hx. apply (Permutation_in _ (Permutation_sym (sort_by_perm _ _))).
    apply process_pages_in. auto.
Qed.

Lemma scraper_rows_nodup htmls : NoDup (scraper_rows page_anchors htmls).
Proof.
  unfold scraper_rows. apply (Permutation_NoDup (Permutation_sym (sort_by_perm _ _))).
  apply process_pages_nodup. constructor.
Qed.

End Pages.

Lemma str_leb_antisym (a b : pystr) : str_leb a b = true -> str_leb b a = true -> a = b.
Proof.
  unfold str_leb. rewrite !orb_true_iff, !str_eqb_eq.
  intros [Hab | Hab] [Hba | Hba]; auto.
  rewrite (str_ltb_asym a b Hab) in Hba. discriminate.
Qed.

Lemma pair_leb_antisym x y : pair_leb x y = true -> pair_leb y x = true -> x = y.
Proof.
  destruct x as [a b], y as [c d]. unfold pair_leb. simpl.
  rewrite !orb_true_iff, !andb_true_iff, !str_eqb_eq.
  intros [Hac | [-> Hbd]] [Hca | [Eq Hdb]].
  - rewrite (str_ltb_asym a c Hac) in Hca. discriminate.
  - subst. rewrite str_ltb_irrefl in Hac. discriminate.
  - rewrite str_ltb_irrefl in Hca. discriminate.
  - f_equal. apply str_leb_antisym; auto.
Qed.

Lemma pair_leb_trans x y z : pair_leb x y = true -> pair_leb y z = true -> pair_leb x z = true.
Proof.
  destruct x as [a b], y as [c d], z as [e f]. unfold pair_leb. simpl.
  rewrite !orb_true_iff, !andb_true_iff, !str_eqb_eq.
  intros [Hac | [-> Hbd]] [Hce | [<- Hdf]].
  - left. apply (str_ltb_trans a c e); auto.
  - left. exact Hac.
  - left. exact Hce.
  - right. split; [reflexivity|]. apply (str_leb_trans b d f); auto.
Qed.

Lemma sorted_perm_eq {A} (le : A -> A -> bool)
  (Hanti : forall x y, le x y = true -> le y x = true -> x = y)
  (Htrans : forall x y z, le x y = true -> le y z = true -> le x z = true) (l1 l2 : list A) :
  Permutation l1 l2 -> Sorted (fun a b => le a b = true) l1 -> Sorted (fun a b => le a b = true) l2 ->
  l1 = l2.
Proof.
  intros Hp S1 S2. apply Sorted_StronglySorted in S1; [|intros x y z; apply Htrans].
  apply Sorted_StronglySorted in S2; [|intros x y z; apply Htrans].
  revert l2 Hp S2. induction S1 as [|x t1 S1 IH Hall]; intros l2 Hp S2.
  - symmetry. apply Permutation_nil, Hp.
  - destruct S2 as [|y t2 S2 Hall2].
    + apply Permutation_sym, Permutation_nil_cons in Hp. contradiction.
    + assert (Hy : In y (x :: t1)) by (apply (Permutation_in _ (Permutation_sym Hp)); simpl; auto).
      assert (Hx : In x (y :: t2)) by (apply (Permutation_in _ Hp); simpl; auto).
      assert (x = y).
      { destruct Hy as [-> | Hy]; [reflexivity|]. destruct Hx as [<- | Hx]; [reflexivity|].
        apply Hanti; [rewrite Forall_forall in Hall; auto | rewrite Forall_forall in Hall2; auto]. }
      subst y. f_equal. apply IH; auto. apply Permutation_cons_inv in Hp. exact Hp.
Qed.

Lemma py_lower_http : py_lower (py_lower (s_ "http")) = s_ "http".
Proof. reflexivity. Qed.

Lemma py_lower_https : py_lower (py_lower (s_ "https")) = s_ "https".
Proof. reflexivity. Qed.

Lemma lstrip_app_stop (p : Z -> bool) (x y : pystr) c :
  p c = false -> lstrip_by p (x ++ c :: y) = lstrip_by p x ++ c :: y.
Proof.
  intros Hc. induction x as [|d x IH]; simpl.
  - rewrite Hc. reflexivity.
  - destruct (p d); auto.
Qed.

Lemma py_strip_colon (sch rest : pystr) :
  match sch with c :: _ => py_isspace c = false | [] => True end ->
  py_strip (sch ++ 58 :: rest) = sch ++ 58 :: rev (lstrip_by py_isspace (rev rest)).
Proof.
  intros Hh. unfold py_strip, strip_by, rstrip_by.
  rewrite (lstrip_noop py_isspace (sch ++ 58 :: rest)) by (destruct sch; [reflexivity | exact Hh]).
  rewrite rev_app_distr. simpl rev at 1. rewrite <- app_assoc. simpl.
  rewrite lstrip_app_stop by reflexivity.
  rewrite rev_app_distr. simpl. rewrite rev_involutive, <- app_assoc. reflexivity.
Qed.

Lemma urlsplit_scheme (d sc rest : pystr) sr :
  match sc with c :: _ => is_ascii_alpha c | [] => false end = true ->
  forallb scheme_chars sc = true ->
  urlsplit_with (sc ++ 58 :: rest) d = Some sr -> sr_scheme sr = py_lower sc.
Proof.
  intros Ha Hs.
  assert (Hsc : forall c, In c sc -> scheme_chars c = true) by (apply forallb_forall; auto).
  destruct sc as [|c0 sc']; [discriminate|].
  assert (Hc0 := scheme_chars_ok c0 (Hsc c0 (or_introl eq_refl))).
  unfold urlsplit_with.
  set (ctl := fun c => negb ((c =? 9) || (c =? 13) || (c =? 10))).
  set (U := (c0 :: sc') ++ 58 :: rest).
  assert (HU1 : lstrip_by WHATWG_C0_CONTROL_OR_SPACE U = U).
  { unfold U. simpl. unfold WHATWG_C0_CONTROL_OR_SPACE.
    replace ((0 <=? c0) && (c0 <=? 32)) with false
      by (symmetry; apply andb_false_iff; right; apply Z.leb_gt; lia). reflexivity. }
  assert (HU2 : filter ctl U = (c0 :: sc') ++ 58 :: filter ctl rest).
  { unfold U. rewrite filter_app. rewrite filter_all.
    - reflexivity.
    - intros x Hx. unfold ctl. fold (url_ctl x).
      apply Hsc, scheme_chars_ok in Hx. destruct Hx as (_ & -> & _). reflexivity. }
  rewrite HU1, HU2.
  set (R := filter ctl rest).
  assert (Hf : py_find [58] ((c0 :: sc') ++ 58 :: R) = Some (List.length (c0 :: sc'))).
  { unfold py_find. rewrite find_from_char_app; auto.
    intros Hin. apply Hsc, scheme_chars_ok in Hin. tauto. }
  rewrite Hf.
  rewrite firstn_length_app.
  assert (Hskip : skipn (S (List.length (c0 :: sc'))) ((c0 :: sc') ++ 58 :: R) = R).
  { replace (S (List.length (c0 :: sc'))) with (List.length ((c0 :: sc') ++ [58]))
      by (rewrite length_app; simpl; lia).
    change (58 :: R) with ([58] ++ R). rewrite app_assoc. apply skipn_length_app. }
  rewrite Hskip.
  replace (forallb scheme_chars (c0 :: sc')) with true by (symmetry; exact Hs).
  simpl (match (c0 :: sc') ++ 58 :: R with c :: _ => is_ascii_alpha c | [] => false end).
  rewrite Ha. simpl (((0 <? _)%nat && true) && true). cbv beta iota.
  intros E.
  repeat match type of E with
  | context [match ?x with _ => _ end] => let Ex := fresh in destruct x eqn:Ex
  end; try discriminate.
  all: apply some_eq in E; subst sr; reflexivity.
Qed.

Lemma normalize_url_post (h : pystr) : post_pattern_match h = true -> normalize_url (Some h) <> [].
Proof.
  intros Hp. apply post_pattern_match_iff in Hp.
  destruct Hp as (sch & ds & c & rest & Hsch & _ & _ & _ & ->).
  set (R := s_ "//jav.guru/" ++ ds ++ 47 :: c :: rest).
  change (s_ "://jav.guru/" ++ ds ++ 47 :: c :: rest) with (58 :: R).
  assert (Hsp : match sch with c :: _ => py_isspace c = false | [] => True end)
    by (destruct Hsch as [-> | ->]; reflexivity).
  assert (Ha : match sch with c :: _ => is_ascii_alpha c | [] => false end = true)
    by (destruct Hsch as [-> | ->]; reflexivity).
  assert (Hs : forallb scheme_chars sch = true) by (destruct Hsch as [-> | ->]; reflexivity).
  assert (Hl : py_lower (py_lower sch) = sch)
    by (destruct Hsch as [-> | ->]; [apply py_lower_http | apply py_lower_https]).
  assert (Hne : sch <> []) by (destruct Hsch as [-> | ->]; discriminate).
  rewrite normalize_url_unfold, py_strip_colon by exact Hsp.
  set (R' := rev (lstrip_by py_isspace (rev R))).
  replace (is_nil (sch ++ 58 :: R')) with false by (destruct sch; [congruence | reflexivity]).
  unfold normalize_try, urlsplit.
  destruct (urlsplit_with (sch ++ 58 :: R') []) as [parts|] eqn:Eu.
  - apply urlsplit_scheme in Eu; auto. rewrite Eu, Hl.
    destruct (urlencode_str _) as [q|]; [|destruct sch; [congruence | discriminate]].
    unfold urlunsplit. destruct (is_nil sch) eqn:En; [apply is_nil_true in En; congruence|].
    destruct (is_nil q); destruct sch; try congruence; cbn [is_nil]; try discriminate.
    all: destruct (_ || _); cbn [app]; try discriminate.
    all: intros E; apply (f_equal (@List.length Z)) in E; rewrite !length_app in E; simpl in E; lia.
  - destruct sch; [congruence | discriminate].
Qed.

Lemma filter_none {A} (p : A -> bool) l : (forall x, In x l -> p x = false) -> filter p l = [].
Proof.
  induction l as [|x l IH]; intros Hp; simpl; auto.
  rewrite (Hp x) by (simpl; auto). apply IH. intros y Hy; apply Hp; simpl; auto.
Qed.

Lemma list_csv_files_sub dir f : In f (list_csv_files dir) -> In f dir.
Proof.
  unfold list_csv_files. intros Hf. apply (Permutation_in _ (sort_by_perm _ _)) in Hf.
  apply filter_In in Hf. tauto.
Qed.

Lemma snapshot_keys_usable (page_anchors : pystr -> list Anchor) dir :
  (forall f, In f dir -> exists name mtime htmls, f = scraper_snapshot page_anchors name mtime htmls) ->
  forall e, In e (merge_events dir) -> is_nil (entry_key e) = false.
Proof.
  intros Hd e He. apply merge_events_in in He.
  destruct He as (f & r & Hf & _ & _ & Hr & ->).
  destruct (Hd f (list_csv_files_sub dir f Hf)) as (name & mtime & htmls & ->).
  simpl in Hr. apply in_map_iff in Hr. destruct Hr as ([h src] & <- & Hx).
  apply scraper_rows_in in Hx. destruct Hx as (pg & _ & _ & Hm & _ & _). simpl in Hm.
  unfold entry_key, row_get. change DEDUP_COL with (s_ "page_url").
  cbn [assoc_find]. rewrite str_eqb_refl.
  apply is_nil_false, normalize_url_post, Hm.
Qed.

End ScraperFacts.

(** X10: [POST_PATTERN.match(href)] accepts exactly the links made of
    "http" or "https", then "://jav.guru/", one or more decimal digits,
    a slash, and at least one more character that is not a newline. *)
Theorem post_pattern_match_shape `{PyTables} (href : pystr) :
  post_pattern_match href = true <->
  exists sch ds c rest,
    (sch = s_ "http" \/ sch = s_ "https") /\ ds <> [] /\
    Forall (fun d => re_digit d = true) ds /\ c <> 10 /\
    href = sch ++ s_ "://jav.guru/" ++ ds ++ 47 :: c :: rest.
Proof. apply post_pattern_match_iff. Qed.

(** X11: [extract_links] returns each pair (href, src) of an anchor
    whose href matches [POST_PATTERN] and whose first image has a
    non-empty [src], and nothing else; each pair once. *)
Theorem extract_links_spec `{PyTables} (anchors : list Anchor) :
  (forall href src, In (href, src) (extract_links anchors) <->
     post_pattern_match href = true /\ src <> [] /\ In (href, Some (Some src)) anchors) /\
  NoDup (extract_links anchors).
Proof.
  split; [|apply extract_links_nodup].
  intros href src. rewrite extract_links_in. reflexivity.
Qed.

(** X12: the rows [main] writes after the header are the links of
    every page whose fetch returned non-empty html, each once, in
    ascending order of (page_url, image_url). *)
Theorem scraper_rows_spec `{PyTables} (page_anchors : pystr -> list Anchor) htmls :
  (forall href src, In (href, src) (scraper_rows page_anchors htmls) <->
     exists h, In (Some h) htmls /\ h <> [] /\ In (href, src) (extract_links (page_anchors h))) /\
  NoDup (scraper_rows page_anchors htmls) /\
  Sorted (fun x y => pair_leb x y = true) (scraper_rows page_anchors htmls).
Proof.
  split; [|split].
  - intros href src. rewrite scraper_rows_in. unfold page_link.
    split; intros (h & Hh & Hne & Hl); exists h; (split; [exact Hh | split; [exact Hne |]]);
      apply extract_links_in; exact Hl.
  - apply scraper_rows_nodup.
  - apply sort_by_sorted, pair_leb_total.
Qed.

(** X13: the rows do not depend on the order in which the page tasks
    finish and update [results]. *)
Theorem scraper_rows_order_independent `{PyTables} (page_anchors : pystr -> list Anchor) htmls htmls' :
  Permutation htmls htmls' -> scraper_rows page_anchors htmls' = scraper_rows page_anchors htmls.
Proof.
  intros Hp. apply (sorted_perm_eq pair_leb pair_leb_antisym pair_leb_trans).
  - apply NoDup_Permutation; try apply scraper_rows_nodup.
    intros x. rewrite !scraper_rows_in. unfold page_link.
    split; intros (h & Hh & Hne & Hl); exists h; (split; [|split; [exact Hne | exact Hl]]).
    + apply (Permutation_in _ (Permutation_sym Hp)); exact Hh.
    + apply (Permutation_in _ Hp); exact Hh.
  - apply sort_by_sorted, pair_leb_total.
  - apply sort_by_sorted, pair_leb_total.
Qed.

Lemma scraper_rows_order_independent_witness :
  Permutation HT HTp /\ scraper_rows PA HTp = scraper_rows PA HT.
Proof.
  assert (Hp : Permutation HT HTp).
  { unfold HT, HTp. exact (Permutation_sym (Permutation_cons_append [Some (s_ "p1"); None] (Some (s_ "p2")))). }
  split; [exact Hp | apply (scraper_rows_order_independent PA HT HTp Hp)].
Defined.

(** X14: merging a directory of snapshots written by scraper.py skips
    no row: every page_url matches [POST_PATTERN], so its normalized
    form is never empty; every row read is kept or counted as a
    duplicate. *)
Theorem scraper_snapshots_merge `{PyTables} (page_anchors : pystr -> list Anchor)
    (fmt : Z -> pystr) dir out :
  (forall f, In f dir -> exists name mtime htmls, f = scraper_snapshot page_anchors name mtime htmls) ->
  merge_csvs fmt dir = Some out ->
  mo_skipped out = 0 /\ mo_total_rows out = mo_unique out + mo_duplicates out.
Proof.
  intros Hd Hm. destruct (merge_csvs_some fmt dir out Hm) as (_ & Ht & Hu & Hs).
  destruct (merge_counts dir) as [_ Hc].
  assert (H0 : mo_skipped out = 0).
  { rewrite Hs, Hc. unfold count_unusable.
    rewrite (filter_none _ _ (snapshot_keys_usable page_anchors dir Hd)). reflexivity. }
  split; [exact H0|].
  destruct (merge_files_counters (list_csv_files dir) merge_init) as (E & _ & _).
  - unfold counters_ok. simpl. lia.
  - rewrite Ht, Hu. unfold merge_csvs in Hm.
    destruct (is_nil (list_csv_files dir)); [discriminate|].
    apply some_eq in Hm. subst out. cbn [mo_duplicates mo_skipped] in *.
    change (fold_left merge_file (list_csv_files dir) merge_init)
      with (merge_scan (list_csv_files dir)) in E. lia.
Qed.

Lemma scraper_snapshots_merge_witness :
  mo_skipped (get_output (merge_csvs fmt0 DS)) = 0 /\
  mo_total_rows (get_output (merge_csvs fmt0 DS)) =
    mo_unique (get_output (merge_csvs fmt0 DS)) + mo_duplicates (get_output (merge_csvs fmt0 DS)).
Proof.
  apply (scraper_snapshots_merge PA fmt0 DS).
  - intros f Hf. unfold DS in Hf. destruct Hf as [<- | [<- | []]]; eexists; eexists; eexists; reflexivity.
  - vm_compute. reflexivity.
Defined.

(** ** How many requests and back-off sleeps a fetch makes *)

Section FetchBounds.
Context `{PyTables}.

Lemma missav_loop_local uc aio aio' crawl crawl' sc sc' retries
  (Hio : forall n, Z.of_nat n <= retries -> aio n = aio' n /\ crawl n = crawl' n)
  (Hsl : forall n, Z.of_nat n < retries -> sc n = sc' n) :
  forall fuel attempt, ((0 < fuel)%nat -> Z.of_nat attempt + Z.of_nat fuel <= retries + 1) ->
  missav_retry_loop uc aio crawl sc retries fuel attempt =
  missav_retry_loop uc aio' crawl' sc' retries fuel attempt.
Proof.
  induction fuel as [|f IH]; intros attempt Hb; [reflexivity|].
  assert (Hb' := Hb ltac:(lia)).
  cbn [missav_retry_loop]. destruct (Hio attempt) as [E1 E2]; [lia|]. rewrite E1, E2.
  destruct (fetcher_fetch uc (aio' attempt) (crawl' attempt)) as [h| |]; cbn [obind]; auto.
  destruct (truthy h); auto.
  assert (Hn : (0 < f)%nat -> Z.of_nat (S attempt) + Z.of_nat f <= retries + 1) by lia.
  destruct (Z.of_nat attempt <? retries) eqn:El.
  - rewrite (Hsl attempt) by (apply Z.ltb_lt; exact El).
    destruct (sc' attempt); auto.
  - auto.
Qed.

Lemma scraper_loop_unfold aio fb sc :
  scraper_fetch_with_retries aio fb sc =
  (h0 <- fetch_aiohttp (aio 0%nat) ;; if truthy h0 then Ret h0 else if sc 0%nat then Raise CancelledError else
   h1 <- fetch_aiohttp (aio 1%nat) ;; if truthy h1 then Ret h1 else if sc 1%nat then Raise CancelledError else
   h2 <- fetch_aiohttp (aio 2%nat) ;; if truthy h2 then Ret h2 else if sc 2%nat then Raise CancelledError else
   h3 <- fetch_aiohttp (aio 3%nat) ;; if truthy h3 then Ret h3 else fetch_crawl4ai fb).
Proof. reflexivity. Qed.

End FetchBounds.

(** X15: missav.py's [fetch_with_retries] makes at most [retries + 1]
    requests (attempts 0 to [retries]) and sleeps at most [retries]
    times (after attempts 0 to [retries - 1]): what later attempts or
    sleeps would do never matters. With a negative [retries] it makes no
    request and returns None. *)
Theorem missav_fetch_attempts `{PyTables} uc aio aio' crawl crawl' sc sc' retries
  (Hio : forall n, Z.of_nat n <= retries -> aio n = aio' n /\ crawl n = crawl' n)
  (Hsl : forall n, Z.of_nat n < retries -> sc n = sc' n) :
  missav_fetch_with_retries uc aio crawl sc retries =
  missav_fetch_with_retries uc aio' crawl' sc' retries /\
  (retries < 0 -> missav_fetch_with_retries uc aio crawl sc retries = Ret None).
Proof.
  unfold missav_fetch_with_retries. split.
  - apply missav_loop_local; auto. intros Hf. simpl. rewrite Z2Nat.id; lia.
  - intros Hr. replace (Z.to_nat (retries + 1)) with 0%nat by lia. reflexivity.
Qed.

Lemma missav_fetch_attempts_witness :
  missav_fetch_with_retries false (fun _ => AioExc) (fun _ => CrawlNone) (fun _ => false) 3 =
  missav_fetch_with_retries false (fun n => if (n <=? 3)%nat then AioExc else AioResp 200 (s_ "x"))
    (fun _ => CrawlNone) (fun n => (3 <=? n)%nat) 3 /\
  (3 < 0 -> missav_fetch_with_retries false (fun _ => AioExc) (fun _ => CrawlNone) (fun _ => false) 3 = Ret None).
Proof.
  apply missav_fetch_attempts.
  - intros n Hn. split; [|reflexivity]. rewrite (proj2 (Nat.leb_le n 3)) by lia. reflexivity.
  - intros n Hn. rewrite (proj2 (Nat.leb_gt 3 n)) by lia. reflexivity.
Defined.

(** X16: scraper.py's [fetch_with_retries] makes at most four aiohttp
    requests and three back-off sleeps, then at most one crawl4ai
    request: later attempts never matter. When the four requests give no
    content and the task is not cancelled, the crawl4ai fallback's
    result is returned as it is. *)
Theorem scraper_fetch_attempts `{PyTables} aio aio' fb sc sc'
  (Hio : forall n, (n <= 3)%nat -> aio n = aio' n)
  (Hsl : forall n, (n < 3)%nat -> sc n = sc' n) :
  scraper_fetch_with_retries aio fb sc = scraper_fetch_with_retries aio' fb sc' /\
  ((forall n, (n <= 3)%nat -> exists h, fetch_aiohttp (aio n) = Ret h /\ truthy h = false) ->
   (forall n, (n < 3)%nat -> sc n = false) ->
   scraper_fetch_with_retries aio fb sc = fetch_crawl4ai fb).
Proof.
  rewrite !scraper_loop_unfold. split.
  - rewrite (Hio 0%nat), (Hio 1%nat), (Hio 2%nat), (Hio 3%nat) by lia.
    rewrite (Hsl 0%nat), (Hsl 1%nat), (Hsl 2%nat) by lia. reflexivity.
  - intros Hf Hs.
    destruct (Hf 0%nat) as (h0 & E0 & T0); [lia|]. destruct (Hf 1%nat) as (h1 & E1 & T1); [lia|].
    destruct (Hf 2%nat) as (h2 & E2 & T2); [lia|]. destruct (Hf 3%nat) as (h3 & E3 & T3); [lia|].
    rewrite E0, E1, E2, E3, (Hs 0%nat), (Hs 1%nat), (Hs 2%nat) by lia. cbn [obind].
    rewrite T0, T1, T2, T3. reflexivity.
Qed.

Lemma scraper_fetch_attempts_witness :
  scraper_fetch_with_retries (fun _ => AioResp 503 []) (CrawlRes true (Some (s_ "<a>"))) (fun _ => false) =
  scraper_fetch_with_retries (fun n => if (n <=? 3)%nat then AioResp 503 [] else AioCancel)
    (CrawlRes true (Some (s_ "<a>"))) (fun n => (3 <=? n)%nat) /\
  ((forall n, (n <= 3)%nat -> exists h, fetch_aiohttp ((fun _ => AioResp 503 []) n) = Ret h /\ truthy h = false) ->
   (forall n, (n < 3)%nat -> (fun _ : nat => false) n = false) ->
   scraper_fetch_with_retries (fun _ => AioResp 503 []) (CrawlRes true (Some (s_ "<a>"))) (fun _ => false)
   = fetch_crawl4ai (CrawlRes true (Some (s_ "<a>")))).
Proof.
  apply scraper_fetch_attempts.
  - intros n Hn. rewrite (proj2 (Nat.leb_le n 3)) by lia. reflexivity.
  - intros n Hn. rewrite (proj2 (Nat.leb_gt 3 n)) by lia. reflexivity.
Defined.

(** ** scripts/missav.py: the playlist URLs and the output file *)

Section PlaylistFacts.
Context `{PyTables}.

Lemma set_add_fold_in l : forall acc x, In x (fold_left set_add l acc) <-> In x acc \/ In x l.
Proof.
  induction l as [|y l IH]; intros acc x; simpl; [tauto|].
  rewrite IH. unfold set_add. destruct (str_in y acc) eqn:E.
  - apply str_in_iff in E. split; [tauto|]. intros [Ha|[<-|Ha]]; auto.
  - rewrite in_app_iff. simpl. split; [intros [[Ha|[<-|[]]]|Ha]|intros [Ha|[<-|Ha]]]; auto.
Qed.

Lemma set_add_fold_nodup l : forall acc, NoDup acc -> NoDup (fold_left set_add l acc).
Proof.
  induction l as [|y l IH]; intros acc Hn; simpl; auto. apply IH. unfold set_add.
  destruct (str_in y acc) eqn:E; auto. apply str_in_false in E.
  apply (Permutation_NoDup (Permutation_cons_append acc y)). constructor; auto.
Qed.

Lemma scheme_len_some s n :
  scheme_len s = Some n ->
  exists sch r, s = sch ++ r /\ n = List.length sch /\ (sch = s_ "https://" \/ sch = s_ "http://").
Proof.
  unfold scheme_len.
  destruct (is_prefix (s_ "https://") s) eqn:E1.
  - intros Hn. apply some_eq in Hn. subst n. destruct (is_prefix_app _ _ E1) as [r ->].
    exists (s_ "https://"), r. auto.
  - destruct (is_prefix (s_ "http://") s) eqn:E2; [|discriminate].
    intros Hn. apply some_eq in Hn. subst n. destruct (is_prefix_app _ _ E2) as [r ->].
    exists (s_ "http://"), r. auto.
Qed.

Lemma back_search_some m body L p :
  back_search m body L = Some p -> is_prefix m (skipn p body) = true /\ (1 <= p <= L)%nat.
Proof.
  induction L as [|L IH]; cbn [back_search]; [discriminate|].
  destruct (is_prefix m (skipn (S L) body)) eqn:E.
  - intros Hp. apply some_eq in Hp. subst p. split; [exact E | lia].
  - intros Hp. destruct (IH Hp) as [Hm Hb]. split; [exact Hm | lia].
Qed.

Lemma opt_group_spec lead (cls : Z -> bool) s :
  s = opt_group lead cls s ++ skipn (List.length (opt_group lead cls s)) s /\
  (opt_group lead cls s = [] \/
   exists w, opt_group lead cls s = lead :: w /\ w <> [] /\ Forall (fun c => cls c = true) w).
Proof.
  unfold opt_group. destruct s as [|c t]; [auto|].
  destruct (c =? lead) eqn:Ec; [|auto].
  apply Z.eqb_eq in Ec. subst c.
  destruct (span cls t) as [w r] eqn:Es. apply span_app in Es. destruct Es as (-> & Hw & _).
  cbn [fst]. destruct w as [|d w]; [auto|].
  split.
  - change (lead :: (d :: w) ++ r) with ((lead :: d :: w) ++ r). rewrite skipn_length_app. reflexivity.
  - right. exists (d :: w). split; [reflexivity|]. split; [discriminate | exact Hw].
Qed.

Lemma Forall_firstn_Z (P : Z -> Prop) n (l : list Z) : Forall P l -> Forall P (firstn n l).
Proof.
  intros Hl. rewrite <- (firstn_skipn n l) in Hl. apply Forall_app in Hl. tauto.
Qed.

Lemma playlist_match_shape m ext s k :
  playlist_match m ext s = Some k ->
  exists rest, s = firstn k s ++ rest /\ playlist_shape m ext (firstn k s).
Proof.
  unfold playlist_match.
  destruct (scheme_len s) as [n|] eqn:Es; [|discriminate].
  destruct (scheme_len_some s n Es) as (sch & body & -> & -> & Hsch).
  rewrite skipn_length_app.
  destruct (span url_char body) as [run r'] eqn:Er.
  apply span_app in Er. destruct Er as (Ebody & Hrun & _). cbn [fst].
  destruct (back_search m body (List.length run)) as [p|] eqn:Eb; [|discriminate].
  apply back_search_some in Eb. destruct Eb as [Hm Hp].
  intros Hk. apply some_eq in Hk.
  destruct (is_prefix_app _ _ Hm) as [after Hafter].
  assert (Ha : skipn (p + List.length m) body = after).
  { rewrite Nat.add_comm, <- skipn_skipn, Hafter, skipn_length_app. reflexivity. }
  rewrite Ha in Hk.
  set (pre := firstn p body).
  assert (Hpre : body = pre ++ m ++ after) by (rewrite <- Hafter; symmetry; apply firstn_skipn).
  assert (Hlp : List.length pre = p).
  { unfold pre. rewrite length_firstn. rewrite Ebody, length_app. lia. }
  assert (Hpre_run : Forall (fun c => url_char c = true) pre).
  { unfold pre. rewrite Ebody, firstn_app.
    replace (p - List.length run)%nat with 0%nat by lia. rewrite app_nil_r.
    apply Forall_firstn_Z, Hrun. }
  set (e := if ext then opt_group 46 is_word after else []) in Hk.
  assert (He : after = e ++ skipn (List.length e) after /\
               (ext = false -> e = []) /\
               (e = [] \/ exists w, e = 46 :: w /\ w <> [] /\ Forall (fun c => is_word c = true) w)).
  { unfold e. destruct ext.
    - destruct (opt_group_spec 46 is_word after) as [E1 E2]. split; [exact E1|]. split; [discriminate|exact E2].
    - simpl. auto. }
  destruct He as (Hea & Hext & Hew).
  set (q := opt_group 63 qs_char (skipn (List.length e) after)) in Hk.
  destruct (opt_group_spec 63 qs_char (skipn (List.length e) after)) as [Hq Hqw]. fold q in Hq, Hqw.
  set (rest := skipn (List.length q) (skipn (List.length e) after)) in Hq.
  assert (Hs : sch ++ body = (sch ++ pre ++ m ++ e ++ q) ++ rest).
  { rewrite Hpre, Hea, Hq. rewrite !app_assoc. reflexivity. }
  assert (Hkl : k = List.length (sch ++ pre ++ m ++ e ++ q)).
  { rewrite Hk. rewrite !length_app. lia. }
  rewrite Hs, Hkl, firstn_length_app.
  exists rest. split; [reflexivity|].
  exists sch, pre, e, q. repeat split; auto.
  intros Hn. apply (f_equal (@List.length Z)) in Hn. simpl in Hn. lia.
Qed.

Lemma findall_loop_in m ext fuel : forall s u,
  In u (findall_loop m ext fuel s) ->
  exists a b, s = a ++ u ++ b /\ playlist_shape m ext u.
Proof.
  induction fuel as [|f IH]; intros s u Hu; [destruct Hu|].
  cbn [findall_loop] in Hu. destruct s as [|c t]; [destruct Hu|].
  destruct (playlist_match m ext (c :: t)) as [k|] eqn:Em.
  - destruct (playlist_match_shape _ _ _ _ Em) as (rest & Hs & Hsh).
    destruct Hu as [<- | Hu].
    + exists [], rest. split; [exact Hs | exact Hsh].
    + destruct (IH _ _ Hu) as (a & b & Hab & Hsh').
      exists (firstn k (c :: t) ++ a), b. split; [|exact Hsh'].
      rewrite <- app_assoc, <- Hab. symmetry. apply firstn_skipn.
  - destruct (IH _ _ Hu) as (a & b & Hab & Hsh'). exists (c :: a), b. rewrite Hab. auto.
Qed.

Lemma write_results_no_cancel results :
  ~ In TaskCancelled results -> snd (write_results results) = None.
Proof.
  induction results as [|r t IH]; intros Hn; [reflexivity|].
  destruct r as [u l| |]; cbn [write_results].
  - destruct (is_nil l); [apply IH; intros Hi; apply Hn; right; exact Hi|].
    destruct (write_results t) as [w e] eqn:Ew. simpl.
    apply IH. intros Hi; apply Hn; right; exact Hi.
  - apply IH. intros Hi; apply Hn; right; exact Hi.
  - exfalso. apply Hn. left. reflexivity.
Qed.

Lemma write_results_cancel pre post :
  ~ In TaskCancelled pre ->
  write_results (pre ++ TaskCancelled :: post) = (fst (write_results pre), Some TypeError).
Proof.
  induction pre as [|r t IH]; intros Hn; [reflexivity|].
  assert (Ht : ~ In TaskCancelled t) by (intros Hi; apply Hn; right; exact Hi).
  destruct r as [u l| |]; cbn [write_results app].
  - destruct (is_nil l); [apply IH, Ht|].
    rewrite (IH Ht). destruct (write_results t) as [w e]. reflexivity.
  - apply IH, Ht.
  - exfalso. apply Hn. left. reflexivity.
Qed.

Lemma output_loop_none results w :
  write_results results = (w, None) ->
  forall rest, output_loop results rest =
    (List.concat (repeat w (List.length
       (filter (fun r => match r with TaskExc => false | _ => true end) rest))), None).
Proof.
  intros Hw rest. induction rest as [|r t IH]; [reflexivity|].
  destruct r as [u l| |]; cbn [output_loop filter]; [|exact IH|];
    rewrite Hw, IH; reflexivity.
Qed.

Lemma output_loop_some results w x :
  write_results results = (w, Some x) ->
  forall rest, (exists r, In r rest /\ r <> TaskExc) -> output_loop results rest = (w, Some x).
Proof.
  intros Hw rest. induction rest as [|r0 t IH]; intros (r & Hi & Hr); [destruct Hi|].
  destruct r0 as [u l| |]; cbn [output_loop]; try (rewrite Hw; reflexivity).
  destruct Hi as [Hi|Hi]; [subst; congruence|]. apply IH. exists r. auto.
Qed.

Lemma write_results_exc pre post :
  write_results (pre ++ TaskExc :: post) = write_results (pre ++ post).
Proof.
  induction pre as [|r t IH]; [reflexivity|].
  destruct r as [u l| |]; cbn [write_results app]; [|exact IH|reflexivity].
  destruct (is_nil l); [exact IH|]. rewrite IH. reflexivity.
Qed.

Lemma output_loop_exc results pre post :
  output_loop results (pre ++ TaskExc :: post) = output_loop results (pre ++ post).
Proof.
  induction pre as [|r t IH]; [reflexivity|].
  destruct r as [u l| |]; cbn [output_loop app]; [rewrite IH; reflexivity|exact IH|rewrite IH; reflexivity].
Qed.

Lemma output_loop_ext r1 r2 rest :
  write_results r1 = write_results r2 -> output_loop r1 rest = output_loop r2 rest.
Proof.
  intros Hw. induction rest as [|r t IH]; [reflexivity|].
  destruct r as [u l| |]; cbn [output_loop]; rewrite ?Hw, ?IH; reflexivity.
Qed.

Lemma extract_playlist_urls_in text u :
  In u (extract_playlist_urls text) ->
  exists a b, text = a ++ u ++ b /\
    (playlist_shape (s_ ".m3u8") false u \/ playlist_shape (s_ "/playlist") true u).
Proof.
  unfold extract_playlist_urls. rewrite set_add_fold_in, in_app_iff.
  intros [[]|[Hu|Hu]]; unfold re_findall in Hu;
    destruct (findall_loop_in _ _ _ _ _ Hu) as (a & b & Hab & Hs); exists a, b; auto.
Qed.

Lemma extract_playlist_urls_nodup text : NoDup (extract_playlist_urls text).
Proof. apply set_add_fold_nodup. constructor. Qed.

End PlaylistFacts.

(** X17: [extract_playlist_urls] returns each URL once; a URL is in its
    result exactly when one of the two patterns finds it; and every URL
    either pattern finds is a piece of the input text made of an http or
    https scheme, a non-empty run of URL characters, the marker, the
    optional extension and the optional query string. *)
Theorem extract_playlist_urls_spec `{PyTables} (text : pystr) :
  NoDup (extract_playlist_urls text) /\
  (forall u, In u (extract_playlist_urls text) <->
     In u (re_findall (s_ ".m3u8") false text) \/ In u (re_findall (s_ "/playlist") true text)) /\
  (forall u, In u (re_findall (s_ ".m3u8") false text) ->
     exists a b, text = a ++ u ++ b /\ playlist_shape (s_ ".m3u8") false u) /\
  (forall u, In u (re_findall (s_ "/playlist") true text) ->
     exists a b, text = a ++ u ++ b /\ playlist_shape (s_ "/playlist") true u).
Proof.
  unfold extract_playlist_urls. split; [apply set_add_fold_nodup; constructor|].
  split; [intros u; rewrite set_add_fold_in, in_app_iff; simpl; tauto|].
  split; intros u Hu; unfold re_findall in Hu; eapply findall_loop_in; exact Hu.
Qed.





(** X20: when the packed-script decoder raises on a fetched page, the
    page's task fails (its playlist URLs in the html are not used), and
    a failed task leaves the text [main] writes as if the page had not
    been in the list. *)
Theorem decode_error_drops_page `{PyTables} (url h : pystr) (e : pyexc) (pre post : list task_result)
  (Hh : h <> []) (Hd : decode_packed_eval h = Raise e) (He : e <> CancelledError) :
  task_of (process_url url (Ret (Some h))) = Some TaskExc /\
  missav_output (pre ++ TaskExc :: post) = missav_output (pre ++ post).
Proof.
  split.
  - unfold process_url. destruct h as [|c t]; [congruence|].
    cbn [obind truthy negb is_nil]. rewrite Hd. cbn [obind task_of].
    destruct e; congruence.
  - unfold missav_output. rewrite output_loop_exc. apply output_loop_ext, write_results_exc.
Qed.

Lemma decode_error_drops_page_witness :
  P3z <> [] /\ decode_packed_eval P3z = Raise ZeroDivisionError /\
  task_of (process_url (s_ "https://missav.ws/x") (Ret (Some P3z))) = Some TaskExc /\
  missav_output (R_out ++ TaskExc :: [TaskExc]) = missav_output (R_out ++ [TaskExc]).
Proof.
  assert (H1 : P3z <> []) by (intros E; vm_compute in E; discriminate).
  assert (H2 : decode_packed_eval P3z = Raise ZeroDivisionError) by (vm_compute; reflexivity).
  split; [exact H1|]. split; [exact H2|].
  apply (decode_error_drops_page (s_ "https://missav.ws/x") P3z ZeroDivisionError R_out [TaskExc] H1 H2).
  discriminate.
Defined.

(** X21: [process_url] returns the URL it was given, with a list of
    distinct URLs; each one is a piece of the fetched page, or of the
    text the packed script of that page decodes to, and has the shape of
    one of the two playlist patterns. *)
Theorem process_url_urls `{PyTables} (url : pystr) (fetched : outcome (option pystr))
  (u : pystr) (urls : list pystr) (Hr : process_url url fetched = Ret (u, urls)) :
  u = url /\ NoDup urls /\
  forall x, In x urls ->
    exists h, fetched = Ret (Some h) /\
    exists src, (src = h \/ decode_packed_eval h = Ret (Some src)) /\
    exists a b, src = a ++ x ++ b /\
      (playlist_shape (s_ ".m3u8") false x \/ playlist_shape (s_ "/playlist") true x).
Proof.
  unfold process_url in Hr. destruct fetched as [html| |]; cbn [obind] in Hr; try discriminate.
  destruct (negb (truthy html)) eqn:Et.
  - injection Hr as E1 E2. subst. split; [reflexivity|]. split; [constructor|]. intros x [].
  - destruct html as [h|]; [|discriminate].
    assert (K : forall X, (X = h \/ decode_packed_eval h = Ret (Some X)) ->
                Ret (url, extract_playlist_urls X) = Ret (u, urls) ->
                u = url /\ NoDup urls /\
                forall x, In x urls ->
                  exists h0, Ret (Some h) = Ret (Some h0) /\
                  exists src, (src = h0 \/ decode_packed_eval h0 = Ret (Some src)) /\
                  exists a b, src = a ++ x ++ b /\
                    (playlist_shape (s_ ".m3u8") false x \/ playlist_shape (s_ "/playlist") true x)).
    { intros X HX E. injection E as E1 E2. subst. split; [reflexivity|].
      split; [apply extract_playlist_urls_nodup|]. intros x Hx.
      exists h. split; [reflexivity|]. exists X. split; [exact HX|].
      apply extract_playlist_urls_in, Hx. }
    destruct (decode_packed_eval h) as [dec| |] eqn:Ed; cbn [obind] in Hr; try discriminate.
    destruct dec as [d|].
    + destruct (is_nil d); [apply (K h); auto|].
      destruct (is_nil (extract_playlist_urls d)); [apply (K h); auto|apply (K d); auto].
    + apply (K h); auto.
Qed.

Lemma process_url_urls_witness :
  process_url (s_ "https://missav.ws/x") (Ret (Some (s_ "src='https://cdn.net/v.m3u8' "))) =
    Ret (s_ "https://missav.ws/x", [s_ "https://cdn.net/v.m3u8"]) /\
  s_ "https://missav.ws/x" = s_ "https://missav.ws/x" /\ NoDup [s_ "https://cdn.net/v.m3u8"] /\
  forall x, In x [s_ "https://cdn.net/v.m3u8"] ->
    exists h, Ret (Some (s_ "src='https://cdn.net/v.m3u8' ")) = Ret (Some h) /\
    exists src, (src = h \/ decode_packed_eval h = Ret (Some src)) /\
    exists a b, src = a ++ x ++ b /\
      (playlist_shape (s_ ".m3u8") false x \/ playlist_shape (s_ "/playlist") true x).
Proof.
  assert (E : process_url (s_ "https://missav.ws/x") (Ret (Some (s_ "src='https://cdn.net/v.m3u8' "))) =
    Ret (s_ "https://missav.ws/x", [s_ "https://cdn.net/v.m3u8"])) by (vm_compute; reflexivity).
  split; [exact E|]. exact (process_url_urls _ _ _ _ E).
Defined.
